(** * Reversi: a shallow embedding of [src/Reversi/reversi.py] and of the
    look-ahead bot of [src/Reversi/bot.py].

    Python integers are unbounded, hence [Z].  A method that may raise
    returns a [result]; a method that mutates [self] returns the new
    value of [self].  Lists are indexed the way Python indexes them
    (negative indices count from the end, anything else out of range
    raises [IndexError]). *)

From Stdlib Require Import ZArith QArith List Bool Lia Sorted.
From stdpp Require Import base list gmap.
Import ListNotations.
Local Open Scope Z_scope.

(** ** Exceptions *)

Inductive exn : Type :=
| ValueError
| IndexError
| RecursionError.

Inductive result (A : Type) : Type :=
| Ok (a : A)
| Raise (e : exn).
Arguments Ok {A} a.
Arguments Raise {A} e.

Definition bind {A B : Type} (m : result A) (k : A -> result B) : result B :=
  match m with
  | Ok a => k a
  | Raise e => Raise e
  end.

Notation "'do' x <- m ;; k" := (bind m (fun x => k))
  (at level 10, x name, m at level 99, k at level 200,
   format "'[v' 'do'  x  <-  m  ;;  '/' k ']'").
Notation "'do' ' pat <- m ;; k" :=
  (bind m (fun x => match x with pat => k end))
  (at level 10, pat pattern, m at level 99, k at level 200).

(** [for x in xs: s = body(s, x)], stopping at the first exception. *)
Fixpoint for_ {X S : Type} (xs : list X) (s : S) (body : S -> X -> result S)
  : result S :=
  match xs with
  | [] => Ok s
  | x :: xs' => do s' <- body s x ;; for_ xs' s' body
  end.

(** ** Python lists *)

Definition len {A : Type} (l : list A) : Z := Z.of_nat (length l).

(** [range(lo, hi)] *)
Definition range (lo hi : Z) : list Z :=
  map (fun k : nat => lo + Z.of_nat k) (seq 0 (Z.to_nat (hi - lo))).

Definition enumerate {A : Type} (l : list A) : list (Z * A) :=
  combine (range 0 (len l)) l.

(** The position in a list of length [n] that index [i] denotes. *)
Definition norm_index (n : nat) (i : Z) : option nat :=
  let k := if i <? 0 then i + Z.of_nat n else i in
  if (0 <=? k) && (k <? Z.of_nat n) then Some (Z.to_nat k) else None.

(** [l[i]] *)
Definition getitem {A : Type} (l : list A) (i : Z) : result A :=
  match norm_index (length l) i with
  | Some k =>
      match l !! k with
      | Some a => Ok a
      | None => Raise IndexError
      end
  | None => Raise IndexError
  end.

(** [l[i] = a] *)
Definition setitem {A : Type} (l : list A) (i : Z) (a : A) : result (list A) :=
  match norm_index (length l) i with
  | Some k => Ok (<[k:=a]> l)
  | None => Raise IndexError
  end.

(** [g[i][j]] *)
Definition grid_get {A : Type} (g : list (list A)) (i j : Z) : result A :=
  do r <- getitem g i ;; getitem r j.

(** [g[i][j] = a] : the row object [g[i]] is updated in place. *)
Definition grid_set {A : Type} (g : list (list A)) (i j : Z) (a : A)
  : result (list (list A)) :=
  do r <- getitem g i ;;
  do r' <- setitem r j a ;;
  setitem g i r'.

(** [[[None] * side for _ in range(side)]] *)
Definition empty_grid {A : Type} (side : Z) : list (list (option A)) :=
  repeat (repeat None (Z.to_nat side)) (Z.to_nat side).

(** ** Types of the interface *)

Abbreviation BoardGridType := (list (list (option Z))).
Abbreviation Position := (Z * Z)%type.
Abbreviation ListMovesType := (list (Z * Z)).

Definition is_None {A : Type} (c : option A) : bool :=
  match c with
  | None => true
  | Some _ => false
  end.

(** [c == val] for a grid entry [c] and an integer [val]. *)
Definition cell_eq (c : option Z) (val : Z) : bool :=
  match c with
  | Some v => v =? val
  | None => false
  end.

Definition nonempty {A : Type} (l : list A) : bool :=
  match l with
  | [] => false
  | _ :: _ => true
  end.

(** ** A set of positions, and [list(possible)] followed by [sort()] *)

Definition pos_eqb (p q : Position) : bool :=
  (fst p =? fst q) && (snd p =? snd q).

(** Tuples compare lexicographically. *)
Definition pos_ltb (p q : Position) : bool :=
  (fst p <? fst q) || ((fst p =? fst q) && (snd p <? snd q)).

Definition pos_mem (p : Position) (s : list Position) : bool :=
  existsb (pos_eqb p) s.

(** [possible.add(p)] *)
Definition set_add (p : Position) (s : list Position) : list Position :=
  if pos_mem p s then s else p :: s.

Fixpoint insert_sorted (p : Position) (l : list Position) : list Position :=
  match l with
  | [] => [p]
  | q :: l' => if pos_ltb q p then q :: insert_sorted p l' else p :: l
  end.

Definition sort (l : list Position) : list Position :=
  fold_right insert_sorted [] l.

(** ** class Piece, class Board *)

Record Piece : Type := mkPiece { value : Z }.

Module Board.

Record t : Type := mk { side : Z; grid : list (list (option Piece)) }.

Definition __init__ (side : Z) : t := mk side (empty_grid side).

Definition add_piece (self : t) (val : Z) (location : Position)
  : result (t * bool) :=
  let '(row, col) := location in
  do c <- grid_get (grid self) row col ;;
  if is_None c then
    do g <- grid_set (grid self) row col (Some (mkPiece val)) ;;
    Ok (mk (side self) g, true)
  else Ok (self, false).

(** [None in row], for each row up to the first that has one. *)
Fixpoint is_full_loop (rows : list (list (option Piece))) : bool :=
  match rows with
  | [] => true
  | row :: rows' => if existsb is_None row then false else is_full_loop rows'
  end.

Definition is_full (self : t) : bool := is_full_loop (grid self).

End Board.

(** ** class Reversi *)

Record Reversi : Type := mkReversi {
  _side : Z;
  _players : Z;
  _othello : bool;
  _board : Board.t;
  _grid : BoardGridType;
  _turn : Z;
  _num_moves : Z
}.

Definition with_board (self : Reversi) (b : Board.t) : Reversi :=
  mkReversi (_side self) (_players self) (_othello self) b (_grid self)
    (_turn self) (_num_moves self).
Definition with_grid (self : Reversi) (g : BoardGridType) : Reversi :=
  mkReversi (_side self) (_players self) (_othello self) (_board self) g
    (_turn self) (_num_moves self).
Definition with_turn (self : Reversi) (t : Z) : Reversi :=
  mkReversi (_side self) (_players self) (_othello self) (_board self)
    (_grid self) t (_num_moves self).
Definition with_num_moves (self : Reversi) (n : Z) : Reversi :=
  mkReversi (_side self) (_players self) (_othello self) (_board self)
    (_grid self) (_turn self) n.

(** [0 <= i < len(self._grid) and 0 <= j < len(self._grid[0])]; the second
    conjunct is evaluated only when the first holds. *)
Definition in_grid (self : Reversi) (i j : Z) : result bool :=
  if (0 <=? i) && (i <? len (_grid self)) then
    do r0 <- getitem (_grid self) 0 ;;
    Ok ((0 <=? j) && (j <? len r0))
  else Ok false.

(** The recursion of [check_end] and [flip_pieces] moves one cell along
    a direction and stays on the grid, so its depth is bounded by the
    number of rows plus the number of columns; with the direction (0, 0)
    Python recurses until it raises [RecursionError]. *)
Definition depth (self : Reversi) : nat :=
  S (length (_grid self) + length (default [] (head (_grid self)))).

Fixpoint check_end_rec (fuel : nat) (self : Reversi) (val : Z)
    (loc : Position) (ydir xdir : Z) : result bool :=
  match fuel with
  | O => Raise RecursionError
  | S fuel' =>
      let '(row, col) := loc in
      do c <- grid_get (_grid self) (row + ydir) (col + xdir) ;;
      if cell_eq c val then Ok true
      else if is_None c then Ok false
      else
        do b <- in_grid self (row + 2 * ydir) (col + 2 * xdir) ;;
        if b then check_end_rec fuel' self val (row + ydir, col + xdir) ydir xdir
        else Ok false
  end.

Definition check_end (self : Reversi) (val : Z) (loc : Position)
    (ydir xdir : Z) : result bool :=
  check_end_rec (depth self) self val loc ydir xdir.

Definition open_spaces (self : Reversi) : result ListMovesType :=
  for_ (enumerate (Board.grid (_board self))) []
    (fun open_space '(i, row) =>
       for_ (enumerate row) open_space
         (fun open_space '(j, _) =>
            do c <- grid_get (Board.grid (_board self)) i j ;;
            if is_None c then Ok (open_space ++ [(i, j)]) else Ok open_space)).

Definition players_av_moves (self : Reversi) (turn : Z) : result ListMovesType :=
  do possible <-
    (if negb (_othello self) && (_num_moves self <? _players self ^ 2) then
       let top_left := _side self / 2 - _players self / 2 in
       for_ (range top_left (top_left + _players self)) []
         (fun possible i =>
            for_ (range top_left (top_left + _players self)) possible
              (fun possible j =>
                 do c <- grid_get (_grid self) i j ;;
                 if is_None c then Ok (set_add (i, j) possible)
                 else Ok possible))
     else
       do open_space <- open_spaces self ;;
       for_ open_space []
         (fun possible cell =>
            let '(row, col) := cell in
            for_ (range (row - 1) (row + 2)) possible
              (fun possible i =>
                 for_ (range (col - 1) (col + 2)) possible
                   (fun possible j =>
                      do b <- in_grid self i j ;;
                      if b && (negb (i =? row) || negb (j =? col)) then
                        do c <- grid_get (_grid self) i j ;;
                        if negb (cell_eq c turn) then
                          do e <- check_end self turn cell (i - row) (j - col) ;;
                          if e then Ok (set_add (row, col) possible)
                          else Ok possible
                        else Ok possible
                      else Ok possible)))) ;;
  Ok (sort possible).

Definition available_moves (self : Reversi) : result ListMovesType :=
  players_av_moves self (_turn self).

Fixpoint done_loop (self : Reversi) (ps : list Z) : result bool :=
  match ps with
  | [] => Ok true
  | i :: ps' =>
      do mv <- players_av_moves self i ;;
      if nonempty mv then Ok false else done_loop self ps'
  end.

Definition done (self : Reversi) : result bool :=
  done_loop self (range 1 (_players self + 1)).

(** [change_turn] calls itself once per player skipped.  The turn never
    exceeds the number of players, so the cursor reaches every player
    within [2 * players - turn] steps. *)
Fixpoint change_turn_rec (fuel : nat) (self : Reversi) : result Reversi :=
  match fuel with
  | O => Raise RecursionError
  | S fuel' =>
      do d <- done self ;;
      if negb d then
        let self1 :=
          with_turn self
            (if _turn self =? _players self then 1 else _turn self + 1) in
        do mv <- available_moves self1 ;;
        if negb (nonempty mv) then change_turn_rec fuel' self1 else Ok self1
      else Ok self
  end.

Definition change_turn (self : Reversi) : result Reversi :=
  change_turn_rec (S (Z.to_nat (2 * _players self - _turn self))) self.

Definition piece_at (self : Reversi) (pos : Position) : result (option Z) :=
  let '(i, j) := pos in
  if negb (((0 <=? i) && (i <=? _side self - 1))
           && ((0 <=? j) && (j <=? _side self - 1)))
  then Raise ValueError
  else grid_get (_grid self) i j.

Definition legal_move (self : Reversi) (pos : Position) : result bool :=
  let '(row, col) := pos in
  if negb (((0 <=? row) && (row <? _side self))
           && ((0 <=? col) && (col <? _side self)))
  then Raise ValueError
  else
    do mv <- available_moves self ;;
    Ok (pos_mem pos mv).

Fixpoint flip_pieces_rec (fuel : nat) (self : Reversi) (val : Z)
    (start : Position) (ydir xdir : Z) : result Reversi :=
  match fuel with
  | O => Raise RecursionError
  | S fuel' =>
      let '(row, col) := start in
      do c <- grid_get (_grid self) (row + ydir) (col + xdir) ;;
      do self1 <-
        (if negb (cell_eq c val) && negb (is_None c) then
           do to_flip <- grid_get (Board.grid (_board self)) (row + ydir) (col + xdir) ;;
           match to_flip with
           | Some _ =>
               (* to_flip.value = val *)
               do b <- grid_set (Board.grid (_board self)) (row + ydir) (col + xdir)
                      (Some (mkPiece val)) ;;
               do g <- grid_set (_grid self) (row + ydir) (col + xdir) (Some val) ;;
               Ok (with_grid
                     (with_board self (Board.mk (Board.side (_board self)) b)) g)
           | None => Ok self
           end
         else Ok self) ;;
      do b <- in_grid self1 (row + 2 * ydir) (col + 2 * xdir) ;;
      if b then
        do e <- check_end self1 val (row + ydir, col + xdir) ydir xdir ;;
        if e then flip_pieces_rec fuel' self1 val (row + ydir, col + xdir) ydir xdir
        else Ok self1
      else Ok self1
  end.

Definition flip_pieces (self : Reversi) (val : Z) (start : Position)
    (ydir xdir : Z) : result Reversi :=
  flip_pieces_rec (depth self) self val start ydir xdir.

(** [self._board.grid[i][j] != self.turn] compares a [Piece] object (or
    [None]) with an integer; [Piece] defines no [__eq__], so the two are
    never equal. *)
Definition piece_ne_int (p : option Piece) (turn : Z) : bool := true.

(** One iteration of the neighbour loop of [apply_move]. *)
Definition flip_around (pos : Position) (self : Reversi) (i j : Z)
  : result Reversi :=
  let '(row, col) := pos in
  if ((0 <=? i) && (i <? _side self)) && ((0 <=? j) && (j <? _side self))
     && (negb (i =? row) || negb (j =? col))
  then
    do p <- grid_get (Board.grid (_board self)) i j ;;
    if piece_ne_int p (_turn self) then
      do e <- check_end self (_turn self) pos (i - row) (j - col) ;;
      if e then
        if _othello self || (_players self ^ 2 <=? _num_moves self)
        then flip_pieces self (_turn self) pos (i - row) (j - col)
        else Ok self
      else Ok self
    else Ok self
  else Ok self.

Definition apply_move (self : Reversi) (pos : Position) : result Reversi :=
  let '(row, col) := pos in
  if negb (((0 <=? row) && (row <=? _side self - 1))
           && ((0 <=? col) && (col <=? _side self - 1)))
  then Raise ValueError
  else
    do '(board1, added) <- Board.add_piece (_board self) (_turn self) (row, col) ;;
    do self1 <-
      (if added then
         do g <- grid_set (_grid self) row col (Some (_turn self)) ;;
         Ok (with_grid (with_board self board1) g)
       else Ok (with_board self board1)) ;;
    do self2 <-
      for_ (range (row - 1) (row + 2)) self1
        (fun s i =>
           for_ (range (col - 1) (col + 2)) s
             (fun s j => flip_around pos s i j)) ;;
    change_turn (with_num_moves self2 (_num_moves self2 + 1)).

(** [simulate_moves] on values: [deepcopy(self)] is [self] itself. *)
Definition simulate_moves (self : Reversi) (moves : ListMovesType)
  : result Reversi :=
  for_ moves self
    (fun sim move =>
       let '(row, col) := move in
       if negb (((0 <=? row) && (row <? _side self))
                && ((0 <=? col) && (col <? _side self)))
       then Raise ValueError
       else apply_move sim move).

(** [pp_dict]: a dict from player to number of pieces, its items in the
    order in which the keys were first written. *)
Abbreviation dict := (list (Z * Z)).

(** [k in d] *)
Definition dict_mem (k : Z) (d : dict) : bool :=
  existsb (fun kv => fst kv =? k) d.

(** [d[k]], for a key that is in [d]. *)
Fixpoint dict_get (d : dict) (k : Z) : Z :=
  match d with
  | [] => 0
  | (k', v) :: d' => if k' =? k then v else dict_get d' k
  end.

(** [d[k] = v]: a new key goes last, a key already there keeps its place. *)
Fixpoint dict_set (d : dict) (k v : Z) : dict :=
  match d with
  | [] => [(k, v)]
  | (k', v') :: d' => if k' =? k then (k', v) :: d' else (k', v') :: dict_set d' k v
  end.

(** [max(d.values())]; [max] of an empty sequence raises [ValueError]. *)
Definition max_values (d : dict) : result Z :=
  match d with
  | [] => Raise ValueError
  | (_, v) :: d' => Ok (fold_left Z.max (map snd d') v)
  end.

Fixpoint insert_sorted_int (p : Z) (l : list Z) : list Z :=
  match l with
  | [] => [p]
  | q :: l' => if q <? p then q :: insert_sorted_int p l' else p :: l
  end.

(** [ret_lst.sort()] *)
Definition sort_int (l : list Z) : list Z := fold_right insert_sorted_int [] l.

(** The two loops over the cells that fill [pp_dict]. *)
Definition tally (g : BoardGridType) : dict :=
  fold_left
    (fun pp_dict row =>
       fold_left
         (fun pp_dict cell =>
            match cell with
            | Some c =>
                let pp_dict1 :=
                  if negb (dict_mem c pp_dict) then dict_set pp_dict c 0
                  else pp_dict in
                dict_set pp_dict1 c (dict_get pp_dict1 c + 1)
            | None => pp_dict
            end)
         row pp_dict)
    g [].

(** The keys are cells that are not [None], so [player is not None]
    always holds. *)
Definition outcome (self : Reversi) : result (list Z) :=
  do d <- done self ;;
  if d then
    let pp_dict := tally (_grid self) in
    do max_pieces_on_board <- max_values pp_dict ;;
    Ok (sort_int
          (fold_left
             (fun ret_lst '(player, piececount) =>
                if piececount =? max_pieces_on_board then ret_lst ++ [player]
                else ret_lst)
             pp_dict []))
  else Ok [].

(** The constructor.  The four Othello pieces go through [add_piece];
    [_grid] is then filled from the values of the pieces. *)
Definition __init__ (side players : Z) (othello : bool) : result Reversi :=
  if (9 <? players) || (players <? 2) then Raise ValueError
  else if side <? 3 then Raise ValueError
  else if side <? players then Raise ValueError
  else if ((side mod 2 =? 0) && (players mod 2 =? 0))
          || ((side mod 2 =? 1) && (players mod 2 =? 1))
  then
    do board <-
      (if othello then
         if players =? 2 then
           do '(b1, _) <- Board.add_piece (Board.__init__ side) 1
                            (side / 2 - 1, side / 2) ;;
           do '(b2, _) <- Board.add_piece b1 1 (side / 2, side / 2 - 1) ;;
           do '(b3, _) <- Board.add_piece b2 2 (side / 2 - 1, side / 2 - 1) ;;
           do '(b4, _) <- Board.add_piece b3 2 (side / 2, side / 2) ;;
           Ok b4
         else Raise ValueError
       else Ok (Board.__init__ side)) ;;
    do grid <-
      for_ (enumerate (Board.grid board)) (empty_grid side)
        (fun g '(i, row) =>
           for_ (enumerate row) g
             (fun g '(j, piece) =>
                match piece with
                | Some p => grid_set g i j (Some (value p))
                | None => Ok g
                end)) ;;
    Ok (mkReversi side players othello board grid 1 0)
  else Raise ValueError.

(** ** load_game

    [load_game] writes into [self._grid] while it is still validating
    the cells, so the value of [self] after an exception matters: the
    loop below keeps the writes made before the exception. *)
Fixpoint for_st {X S : Type} (xs : list X) (s : S)
    (body : S -> X -> S * option exn) : S * option exn :=
  match xs with
  | [] => (s, None)
  | x :: xs' =>
      match body s x with
      | (s', None) => for_st xs' s' body
      | r => r
      end
  end.

(** [(isinstance(num, int) and 0 < num <= self._players) or num is None];
    the entries are integers or [None] by their type. *)
Definition valid_cell (self : Reversi) (num : option Z) : bool :=
  match num with
  | Some n => (0 <? n) && (n <=? _players self)
  | None => true
  end.

(** The body of the inner loop: the state is [self._grid], [newboard]
    and [nummoves]. *)
Definition load_cell (self : Reversi) (i : Z)
    (st : BoardGridType * Board.t * Z) (jn : Z * option Z)
  : (BoardGridType * Board.t * Z) * option exn :=
  let '(g, newboard, nummoves) := st in
  let '(j, num) := jn in
  if negb (valid_cell self num) then (st, Some ValueError)
  else
    match num with
    | None => (st, None)
    | Some n =>
        match Board.add_piece newboard n (i, j) with
        | Raise e => (st, Some e)
        | Ok (nb, _) =>
            match grid_set g i j (Some n) with
            | Raise e => ((g, nb, nummoves), Some e)
            | Ok g' => ((g', nb, nummoves + 1), None)
            end
        end
    end.

(** Returns [self] after the call and whether the call raised. *)
Definition load_game (self : Reversi) (turn : Z) (grid : BoardGridType)
  : Reversi * result unit :=
  if negb (_side self =? len grid) then (self, Raise ValueError)
  else if _players self <? turn then (self, Raise ValueError)
  else
    match for_st (enumerate grid) (_grid self, Board.__init__ (len grid), 0)
            (fun st '(i, row) => for_st (enumerate row) st (load_cell self i))
    with
    | ((g, _, _), Some e) => (with_grid self g, Raise e)
    | ((g, newboard, nummoves), None) =>
        let self1 := with_turn (with_board (with_grid self g) newboard) turn in
        match (do mv <- available_moves self1 ;;
               if negb (nonempty mv) then change_turn self1 else Ok self1)
        with
        | Ok self2 => (with_num_moves self2 nummoves, Ok tt)
        | Raise e => (self1, Raise e)
        end
    end.

(** * Objects and references

    [grid] hands out a reference to a list and [simulate_moves] makes a
    [deepcopy], so which engine owns which list object matters.  The
    store maps locations to list-of-lists objects and to engine objects;
    an engine object holds a reference to its [_grid] list (the
    attribute is bound once, by the constructor, and only ever updated
    in place) and its other attributes by value. *)

Abbreviation loc := nat.

Record ReversiObj : Type := mkObj {
  obj_side : Z;
  obj_players : Z;
  obj_othello : bool;
  obj_board : Board.t;
  obj_grid : loc;
  obj_turn : Z;
  obj_num_moves : Z
}.

Record heap : Type := mkHeap {
  lists : gmap loc BoardGridType;
  engines : gmap loc ReversiObj
}.

(** The value of the engine at [l]. *)
Definition read (h : heap) (l : loc) : option Reversi :=
  match engines h !! l with
  | Some o =>
      match lists h !! obj_grid o with
      | Some g =>
          Some (mkReversi (obj_side o) (obj_players o) (obj_othello o)
                  (obj_board o) g (obj_turn o) (obj_num_moves o))
      | None => None
      end
  | None => None
  end.

(** The attributes of the engine at [l] are assigned and its [_grid]
    list is updated in place. *)
Definition write (h : heap) (l : loc) (v : Reversi) : heap :=
  match engines h !! l with
  | Some o =>
      mkHeap (<[obj_grid o := _grid v]> (lists h))
        (<[l := mkObj (_side v) (_players v) (_othello v) (_board v)
                  (obj_grid o) (_turn v) (_num_moves v)]> (engines h))
  | None => h
  end.

(** The property [grid]: [return self._grid]. *)
Definition obj_grid_property (h : heap) (l : loc) : option loc :=
  match engines h !! l with
  | Some o => Some (obj_grid o)
  | None => None
  end.

(** [snapshot[i][j] = v] on a list reference held by a caller. *)
Definition list_setitem2 (h : heap) (r : loc) (i j : Z) (v : option Z)
  : heap * result unit :=
  match lists h !! r with
  | Some g =>
      match grid_set g i j v with
      | Ok g' => (mkHeap (<[r := g']> (lists h)) (engines h), Ok tt)
      | Raise e => (h, Raise e)
      end
  | None => (h, Raise IndexError)
  end.

Definition obj_piece_at (h : heap) (l : loc) (pos : Position)
  : option (result (option Z)) :=
  match read h l with
  | Some v => Some (piece_at v pos)
  | None => None
  end.

(** [self.apply_move(pos)] on the engine at [l].  An out-of-bounds
    position raises before anything is written. *)
Definition obj_apply_move (h : heap) (l : loc) (pos : Position)
  : heap * result unit :=
  match read h l with
  | Some v =>
      match apply_move v pos with
      | Ok v' => (write h l v', Ok tt)
      | Raise e => (h, Raise e)
      end
  | None => (h, Raise ValueError)
  end.

(** [deepcopy(self)]: a new engine object with a new [_grid] list. *)
Definition deepcopy (h : heap) (l : loc) : option (heap * loc) :=
  match engines h !! l with
  | Some o =>
      match lists h !! obj_grid o with
      | Some g =>
          let lg := fresh (dom (lists h)) in
          let le := fresh (dom (engines h)) in
          Some (mkHeap (<[lg := g]> (lists h))
                  (<[le := mkObj (obj_side o) (obj_players o) (obj_othello o)
                             (obj_board o) lg (obj_turn o) (obj_num_moves o)]>
                     (engines h)),
                le)
      | None => None
      end
  | None => None
  end.

(** The loop of [simulate_moves]; [side] is [self._side]. *)
Fixpoint simulate_loop (side : Z) (h : heap) (sim : loc) (moves : ListMovesType)
  : heap * result unit :=
  match moves with
  | [] => (h, Ok tt)
  | (row, col) :: rest =>
      if negb (((0 <=? row) && (row <? side)) && ((0 <=? col) && (col <? side)))
      then (h, Raise ValueError)
      else
        match obj_apply_move h sim (row, col) with
        | (h', Ok _) => simulate_loop side h' sim rest
        | (h', Raise e) => (h', Raise e)
        end
  end.

(** [self.simulate_moves(moves)] on the engine at [l]: the store after
    the call and the reference returned.  [None] when [l] is not an
    engine of the store. *)
Definition obj_simulate_moves (h : heap) (l : loc) (moves : ListMovesType)
  : option (heap * result loc) :=
  match engines h !! l, deepcopy h l with
  | Some o, Some (h1, sim) =>
      match simulate_loop (obj_side o) h1 sim moves with
      | (h', Ok _) => Some (h', Ok sim)
      | (h', Raise e) => Some (h', Raise e)
      end
  | _, _ => None
  end.

(** A new engine object in the store. *)
Definition obj_new (h : heap) (side players : Z) (othello : bool)
  : heap * result loc :=
  match __init__ side players othello with
  | Ok v =>
      let lg := fresh (dom (lists h)) in
      let le := fresh (dom (engines h)) in
      (mkHeap (<[lg := _grid v]> (lists h))
         (<[le := mkObj (_side v) (_players v) (_othello v) (_board v) lg
                    (_turn v) (_num_moves v)]> (engines h)),
       Ok le)
  | Raise e => (h, Raise e)
  end.

(** * The look-ahead bot ([seer_move] of bot.py)

    The averages are floating-point numbers and the final pick is
    random; both are parameters here: a type of floats with the
    division of two integers and its comparisons, and the function
    [random.randint], of which only the range of its result is known. *)

(** The number of cells of the grid equal to [turn]. *)
Definition count_cells (g : BoardGridType) (turn : Z) : Z :=
  fold_left
    (fun total row =>
       fold_left (fun total cell => if cell_eq cell turn then total + 1 else total)
         row total)
    g 0.

Section Bot.

Variable float : Type.
Variable neg_inf : float.
Variable fdiv : Z -> Z -> float.
Variable fgt feq : float -> float -> bool.
Variable randint : Z -> Z -> Z.

(** The loop over the candidates, with [highest] and [best]; it returns
    [best].  A candidate after which the game is done ends the loop. *)
Fixpoint seer_loop (revgame : Reversi) (turn : Z) (possible : ListMovesType)
    (highest : float) (best : ListMovesType) : result ListMovesType :=
  match possible with
  | [] => Ok best
  | move :: rest =>
      do step_one <- simulate_moves revgame [move] ;;
      do d <- done step_one ;;
      if d then Ok [move]
      else
        do next_possible <- available_moves step_one ;;
        if nonempty next_possible then
          do total <-
            for_ next_possible 0
              (fun total move_two =>
                 do final <- simulate_moves step_one [move_two] ;;
                 Ok (total + count_cells (_grid final) turn)) ;;
          if fgt (fdiv total (len next_possible)) highest then
            seer_loop revgame turn rest (fdiv total (len next_possible)) [move]
          else if feq (fdiv total (len next_possible)) highest then
            seer_loop revgame turn rest highest (best ++ [move])
          else seer_loop revgame turn rest highest best
        else seer_loop revgame turn rest highest best
  end.

Definition seer_move (revgame : Reversi) (turn : Z) : result Reversi :=
  do possible <- available_moves revgame ;;
  do best <- seer_loop revgame turn possible neg_inf [] ;;
  if nonempty best then
    do move <- getitem best (randint 0 (len best - 1)) ;;
    apply_move revgame move
  else Ok revgame.

(** [random_move] of bot.py. *)
Definition random_move (revgame : Reversi) : result Reversi :=
  do possible <- available_moves revgame ;;
  if nonempty possible then
    do move <- getitem possible (randint 0 (len possible - 1)) ;;
    apply_move revgame move
  else Ok revgame.

(** The body of the loop of [best_move], on [most] and [best]. *)
Definition best_step (revgame : Reversi) (turn : Z)
    (st : Z * ListMovesType) (move : Position) : result (Z * ListMovesType) :=
  let '(most, best) := st in
  do temp <- simulate_moves revgame [move] ;;
  let potential := count_cells (_grid temp) turn in
  if most <? potential then Ok (potential, [move])
  else if potential =? most then Ok (most, best ++ [move])
  else Ok (most, best).

(** [best_move] of bot.py. *)
Definition best_move (revgame : Reversi) (turn : Z) : result Reversi :=
  do possible <- available_moves revgame ;;
  if nonempty possible then
    do '(_, best) <- for_ possible (0, []) (best_step revgame turn) ;;
    if nonempty best then
      do move <- getitem best (randint 0 (len best - 1)) ;;
      apply_move revgame move
    else Ok revgame
  else Ok revgame.

End Bot.

(** * The vocabulary of the statements *)

(** ** Square grids *)

Definition shape {A : Type} (n : Z) (g : list (list A)) : Prop :=
  len g = n /\ forall r, In r g -> len r = n.

(** ** Configurations *)

(** What the constructor accepts. *)
Definition valid_config (side players : Z) (othello : bool) : Prop :=
  3 <= side /\ 2 <= players <= 9 /\ players <= side /\
  side mod 2 = players mod 2 /\ (othello = true -> players = 2).

(** ** Well-formed engine states

    The configuration that the constructor checks, both boards square of
    side [_side], and a turn cursor that does not exceed the number of
    players.  Every method keeps these. *)
Record wf (self : Reversi) : Prop := mk_wf {
  wf_side : 0 < _side self;
  wf_players : 0 < _players self <= _side self;
  wf_parity : _side self mod 2 = _players self mod 2;
  wf_grid : shape (_side self) (_grid self);
  wf_board : shape (_side self) (Board.grid (_board self));
  wf_turn : _turn self <= _players self
}.

Definition on_board (n : Z) (p : Position) : Prop :=
  0 <= fst p < n /\ 0 <= snd p < n.

Definition inb (n i j : Z) : bool :=
  ((0 <=? i) && (i <? n)) && ((0 <=? j) && (j <? n)).

(** A direction of the compass. *)
Definition unit_dir (ydir xdir : Z) : Prop :=
  -1 <= ydir <= 1 /\ -1 <= xdir <= 1 /\ (ydir <> 0 \/ xdir <> 0).

(** How many cells, counting (row, col), lie between (row, col) and the
    edge of the board in a direction. *)
Definition room (n row col ydir xdir : Z) : Z :=
  if ydir =? 1 then n - row
  else if ydir =? -1 then row + 1
  else if xdir =? 1 then n - col
  else col + 1.

Definition opening (self : Reversi) : bool :=
  negb (_othello self) && (_num_moves self <? _players self ^ 2).

(** What [players_av_moves] may return: cells of the board that are
    empty in [_grid] (opening phase) or in [_board] (afterwards). *)
Definition candidate (self : Reversi) (p : Position) : Prop :=
  on_board (_side self) p /\
  if opening self then grid_get (_grid self) (fst p) (snd p) = Ok None
  else grid_get (Board.grid (_board self)) (fst p) (snd p) = Ok None.

(** ** done and change_turn *)

Definition has_moves (self : Reversi) (p : Z) : Prop :=
  exists m ms, players_av_moves self p = Ok (m :: ms).

Definition no_moves (self : Reversi) (p : Z) : Prop :=
  players_av_moves self p = Ok [].

(** The player after [t] in the cyclic order 1, ..., [P]. *)
Definition next_player (P t : Z) : Z := if t =? P then 1 else t + 1.

(** The [k]-th player after [t]. *)
Definition player_after (P t : Z) (k : nat) : Z := Nat.iter k (next_player P) t.

(** ** Rays and outflanked runs *)

Definition cell_at {A : Type} (g : list (list A)) (p : Position) : result A :=
  grid_get g (fst p) (snd p).

(** The [k]-th cell from (row, col) in the direction (ydir, xdir). *)
Definition ray (row col ydir xdir k : Z) : Position :=
  (row + k * ydir, col + k * xdir).

(** The [K] cells after (row, col) in a direction hold pieces of players
    other than [val], and the next one holds a piece of [val]. *)
Definition run (n : Z) (g : BoardGridType) (val row col ydir xdir K : Z) : Prop :=
  0 <= K /\
  (forall k, 1 <= k <= K ->
     on_board n (ray row col ydir xdir k) /\
     exists v, cell_at g (ray row col ydir xdir k) = Ok (Some v) /\ v <> val) /\
  on_board n (ray row col ydir xdir (K + 1)) /\
  cell_at g (ray row col ydir xdir (K + 1)) = Ok (Some val).

(** ** Flipping along a direction *)

Definition same_config (s s' : Reversi) : Prop :=
  _side s' = _side s /\ _players s' = _players s /\ _othello s' = _othello s /\
  _turn s' = _turn s /\ _num_moves s' = _num_moves s.

Definition shapes (n : Z) (s : Reversi) : Prop :=
  shape n (_grid s) /\ shape n (Board.grid (_board s)).

(** [_grid] shows the values of the pieces of [_board]. *)
Definition synced (n : Z) (s : Reversi) : Prop :=
  forall i j, 0 <= i < n -> 0 <= j < n ->
    exists pc, grid_get (Board.grid (_board s)) i j = Ok pc /\
               grid_get (_grid s) i j = Ok (option_map value pc).

(** Between [g] and [g'] nothing changed except that pieces of other
    players on the ray may have become pieces of [val]. *)
Definition flips_on_ray (n val row col ydir xdir : Z) (g g' : BoardGridType)
  : Prop :=
  forall q, on_board n q ->
    cell_at g' q = cell_at g q \/
    exists k v, 1 <= k /\ q = ray row col ydir xdir k /\
      cell_at g q = Ok (Some v) /\ v <> val /\ cell_at g' q = Ok (Some val).

(** The nine cells around and including (row, col), in the order of
    the loop. *)
Definition around (row col : Z) : list Position :=
  list_prod (range (row - 1) (row + 2)) (range (col - 1) (col + 2)).

(** The board is [g1] when the neighbour loop starts; the piece of [val]
    has just been placed at (row, col).  Every cell that differs from
    [g1] lies on the ray of a direction already visited that starts an
    outflanked run, held a piece of another player and now holds a piece
    of [val]. *)
Definition touched (n val row col : Z) (g1 : BoardGridType)
    (pre : list Position) (g : BoardGridType) : Prop :=
  forall q, on_board n q ->
    cell_at g q = cell_at g1 q \/
    exists dy dx K k v,
      In (row + dy, col + dx) pre /\ unit_dir dy dx /\
      run n g1 val row col dy dx K /\ 1 <= k /\ q = ray row col dy dx k /\
      cell_at g1 q = Ok (Some v) /\ v <> val /\ cell_at g q = Ok (Some val).

(** The outflanked runs of the directions already visited have been
    turned over. *)
Definition captured (n val row col : Z) (g1 : BoardGridType)
    (pre : list Position) (g : BoardGridType) : Prop :=
  forall dy dx K k,
    In (row + dy, col + dx) pre -> unit_dir dy dx ->
    run n g1 val row col dy dx K -> 1 <= k <= K ->
    cell_at g (ray row col dy dx k) = Ok (Some val).

(** The invariant of the neighbour loop of [apply_move], started in
    [s1] after the piece of [_turn s1] was placed at (row, col). *)
Definition around_inv (n row col : Z) (s1 : Reversi) (pre : list Position)
    (s : Reversi) : Prop :=
  same_config s1 s /\ shapes n s /\
  (opening s1 = true -> s = s1) /\
  (opening s1 = false -> synced n s1 ->
   synced n s /\
   touched n (_turn s1) row col (_grid s1) pre (_grid s) /\
   captured n (_turn s1) row col (_grid s1) pre (_grid s)).

(** ** Stores *)

(** Every object of [h] is in [h'] with the same contents. *)
Definition unchanged (h h' : heap) : Prop :=
  (forall l o, engines h !! l = Some o -> engines h' !! l = Some o) /\
  (forall r g, lists h !! r = Some g -> lists h' !! r = Some g).

(** ** What apply_move does to the board *)

(** [q] is one of the pieces of an outflanked run that starts next to
    [pos]: contiguous pieces of other players, ended by a piece of the
    player whose turn it is. *)
Definition on_run (self : Reversi) (pos q : Position) : Prop :=
  exists dy dx K k,
    unit_dir dy dx /\
    run (_side self) (_grid self) (_turn self) (fst pos) (snd pos) dy dx K /\
    1 <= k <= K /\ q = ray (fst pos) (snd pos) dy dx k.

(** [q] lies on a ray from [pos], further away than a piece of the
    player whose turn it is. *)
Definition behind_own (self : Reversi) (pos q : Position) : Prop :=
  exists dy dx j k,
    unit_dir dy dx /\ 1 <= j < k /\ q = ray (fst pos) (snd pos) dy dx k /\
    on_board (_side self) (ray (fst pos) (snd pos) dy dx j) /\
    cell_at (_grid self) (ray (fst pos) (snd pos) dy dx j) = Ok (Some (_turn self)).

(** ** The shape of the list of available moves *)

Definition pos_lt (p q : Position) : Prop :=
  fst p < fst q \/ (fst p = fst q /\ snd p < snd q).

(** Strictly ascending in the order of tuples. *)
Definition ascending (l : ListMovesType) : Prop := StronglySorted pos_lt l.

(** ** The pieces that a move takes *)

(** The first [m] cells after (row, col) in a direction all hold
    pieces, and the [m]-th holds a piece of [val]. *)
Definition anchored (n : Z) (g : BoardGridType) (val row col ydir xdir m : Z)
  : Prop :=
  (forall k, 1 <= k <= m ->
     on_board n (ray row col ydir xdir k) /\
     exists v, cell_at g (ray row col ydir xdir k) = Ok (Some v)) /\
  cell_at g (ray row col ydir xdir m) = Ok (Some val).

(** [q] holds a piece of another player and lies, in the direction
    (ydir, xdir) from (row, col), before a piece of [val] that no empty
    cell separates from (row, col). *)
Definition taken (n : Z) (g : BoardGridType) (val row col ydir xdir : Z)
    (q : Position) : Prop :=
  exists k m v,
    1 <= k < m /\ q = ray row col ydir xdir k /\
    cell_at g q = Ok (Some v) /\ v <> val /\
    anchored n g val row col ydir xdir m.

(** [q] is taken in one of the directions whose neighbour of
    (row, col) is in [dirs]. *)
Definition taken_from (n : Z) (g : BoardGridType) (val row col : Z)
    (dirs : list Position) (q : Position) : Prop :=
  exists dy dx,
    In (row + dy, col + dx) dirs /\ unit_dir dy dx /\
    taken n g val row col dy dx q.

(** [q] is taken in some direction of the compass. *)
Definition outflanked (n : Z) (g : BoardGridType) (val : Z) (pos q : Position)
  : Prop :=
  exists dy dx, unit_dir dy dx /\ taken n g val (fst pos) (snd pos) dy dx q.

(** The invariant of the neighbour loop of [apply_move] on a state
    whose [_grid] and [_board] agree: in the opening phase nothing
    changes; afterwards exactly the pieces taken in the directions
    already visited have become pieces of the mover. *)
Definition flip_inv (n row col : Z) (s1 : Reversi) (pre : list Position)
    (s : Reversi) : Prop :=
  same_config s1 s /\ shapes n s /\ synced n s /\
  (opening s1 = true -> s = s1) /\
  (opening s1 = false ->
   forall q, on_board n q ->
     (taken_from n (_grid s1) (_turn s1) row col pre q ->
      cell_at (_grid s) q = Ok (Some (_turn s1))) /\
     (~ taken_from n (_grid s1) (_turn s1) row col pre q ->
      cell_at (_grid s) q = cell_at (_grid s1) q)) /\
  (forall q, on_board n q ->
     cell_at (_grid s) q = cell_at (_grid s1) q \/
     cell_at (_grid s) q = Ok (Some (_turn s1))).

(** ** load_game *)

(** The number of cells of a grid that are not [None]. *)
Definition pieces (grid : BoardGridType) : Z :=
  len (List.filter (fun c => negb (is_None c)) (concat grid)).

(** The state of the two loops of [load_game]: [self._grid], [newboard]
    and [nummoves], of the side of the game. *)
Definition load_state (n : Z) (st : BoardGridType * Board.t * Z) : Prop :=
  shape n (fst (fst st)) /\ shape n (Board.grid (snd (fst st))).

(** ** The starting position *)

(** What the constructor puts on a cell: nothing, except the four
    pieces in the middle of the board of the othello variant. *)
Definition start_cell (side : Z) (othello : bool) (p : Position) : option Z :=
  if othello then
    if pos_eqb p (side / 2 - 1, side / 2) || pos_eqb p (side / 2, side / 2 - 1)
    then Some 1
    else if pos_eqb p (side / 2 - 1, side / 2 - 1) || pos_eqb p (side / 2, side / 2)
    then Some 2
    else None
  else None.

(** ** outcome *)

(** [d] holds one item for every player of whom [f] counts at least one
    piece, with that number, and no other item. *)
Definition tallies (d : dict) (f : Z -> Z) : Prop :=
  List.NoDup (map fst d) /\ (forall k, 0 <= f k) /\
  forall k v, In (k, v) d <-> v = f k /\ 1 <= v.

(** ** States reached from the constructor by moves *)

Inductive played : Reversi -> Prop :=
| played_init (side players : Z) (othello : bool) (g : Reversi) :
    __init__ side players othello = Ok g -> played g
| played_move (g g' : Reversi) (pos : Position) :
    played g -> apply_move g pos = Ok g' -> played g'.

(** States reached from the constructor by legal moves. *)
Inductive played_legally : Reversi -> Prop :=
| legally_init (side players : Z) (othello : bool) (g : Reversi) :
    __init__ side players othello = Ok g -> played_legally g
| legally_move (g g' : Reversi) (pos : Position) :
    played_legally g -> legal_move g pos = Ok true ->
    apply_move g pos = Ok g' -> played_legally g'.

(** * Concrete games *)

(** A state whose [_board] holds one piece per entry of [_grid]. *)
Definition game (side players : Z) (othello : bool) (g : BoardGridType)
    (turn num_moves : Z) : Reversi :=
  mkReversi side players othello
    (Board.mk side (map (map (option_map mkPiece)) g)) g turn num_moves.

(** [Reversi(4, 2, True)] *)
Definition othello4 : Reversi :=
  game 4 2 true
    [[None; None; None; None];
     [None; Some 2; Some 1; None];
     [None; Some 1; Some 2; None];
     [None; None; None; None]] 1 0.

(** [Reversi(4, 2, False)] *)
Definition fresh4 : Reversi := game 4 2 false (empty_grid 4) 1 0.

(** [Reversi(3, 3, False)] after the moves (0,0), (0,1), (1,1). *)
Definition opening3 : Reversi :=
  game 3 3 false
    [[Some 1; Some 2; None];
     [None; Some 3; None];
     [None; None; None]] 1 3.

(** A position of a two-player game on the 4x4 board in which player 1
    has three moves, the last of which takes every piece of player 2. *)
Definition endgame4 : Reversi :=
  game 4 2 false
    [[None; Some 1; None; None];
     [None; Some 2; Some 1; None];
     [None; Some 2; None; None];
     [None; None; None; None]] 1 4.

(** A full board of a three-player game: every player has three
    pieces. *)
Definition finished3 : Reversi :=
  game 3 3 false
    [[Some 2; Some 1; Some 3];
     [Some 2; Some 1; Some 3];
     [Some 2; Some 1; Some 3]] 1 9.

(** The store after [game = Reversi(4, 2, True)]. *)
Definition store4 : heap := fst (obj_new (mkHeap ∅ ∅) 4 2 true).

(** Floats as exact fractions, with minus infinity. *)
Definition frac : Type := option Q.
Definition frac_div (a b : Z) : frac := Some (Qmake a (Z.to_pos b)).
Definition frac_gt (x y : frac) : bool :=
  match x, y with
  | Some p, Some q => negb (Qle_bool p q)
  | Some _, None => true
  | None, _ => false
  end.
Definition frac_eq (x y : frac) : bool :=
  match x, y with
  | Some p, Some q => Qeq_bool p q
  | None, None => true
  | _, _ => false
  end.

Ltac solve_shape :=
  split;
  [ reflexivity
  | let r := fresh "r" in
    let Hr := fresh "Hr" in
    intros r Hr; simpl in Hr;
    repeat (destruct Hr as [<-|Hr]; [reflexivity|]); contradiction ].

Ltac solve_wf :=
  constructor;
  [ simpl; lia | simpl; lia | reflexivity | solve_shape | solve_shape
  | simpl; lia ].

Ltac solve_synced :=
  let i := fresh "i" in
  let j := fresh "j" in
  let Hi := fresh "Hi" in
  let Hj := fresh "Hj" in
  intros i j Hi Hj; simpl in Hi, Hj;
  assert (i = 0 \/ i = 1 \/ i = 2 \/ i = 3) as [-> | [-> | [-> | ->]]] by lia;
  assert (j = 0 \/ j = 1 \/ j = 2 \/ j = 3) as [-> | [-> | [-> | ->]]] by lia;
  eexists; split; reflexivity.

(** * Properties *)

(** Boolean tests as propositions. *)
Ltac zbool :=
  repeat match goal with
  | H : (_ <? _) = true |- _ => apply Z.ltb_lt in H
  | H : (_ <? _) = false |- _ => apply Z.ltb_ge in H
  | H : (_ <=? _) = true |- _ => apply Z.leb_le in H
  | H : (_ <=? _) = false |- _ => apply Z.leb_gt in H
  | H : (_ =? _) = true |- _ => apply Z.eqb_eq in H
  | H : (_ =? _) = false |- _ => apply Z.eqb_neq in H
  | H : (_ && _) = true |- _ => apply andb_true_iff in H as [? ?]
  | H : (_ || _) = false |- _ => apply orb_false_iff in H as [? ?]
  | H : (_ && _) = false |- _ => apply andb_false_iff in H as [?|?]
  | H : (_ || _) = true |- _ => apply orb_true_iff in H as [?|?]
  | H : negb _ = true |- _ => apply negb_true_iff in H
  | H : negb _ = false |- _ => apply negb_false_iff in H
  end.

(** ** Loops *)

Lemma bind_ok {A B : Type} (m : result A) (k : A -> result B) (b : B) :
  bind m k = Ok b -> exists a, m = Ok a /\ k a = Ok b.
Proof. destruct m as [a|e]; simpl; [eauto | discriminate]. Qed.

(** A loop whose body keeps an invariant and never raises under it runs
    to completion and ends in a state satisfying the invariant. *)
Lemma for_inv {X S : Type} (I : S -> Prop) (xs : list X)
    (body : S -> X -> result S) :
  forall s,
    I s ->
    (forall s x, In x xs -> I s -> exists s', body s x = Ok s' /\ I s') ->
    exists s', for_ xs s body = Ok s' /\ I s'.
Proof.
  induction xs as [|x xs IH]; intros s Hs Hbody; simpl.
  - eauto.
  - destruct (Hbody s x (or_introl eq_refl) Hs) as (s1 & -> & Hs1). simpl.
    apply IH; [assumption|]. intros; apply Hbody; [right|]; assumption.
Qed.

(** Whatever a completed loop returns, it satisfies every invariant of
    the body. *)
Lemma for_inv_ok {X S : Type} (I : S -> Prop) (xs : list X)
    (body : S -> X -> result S) :
  forall s s',
    I s ->
    (forall s x s', In x xs -> I s -> body s x = Ok s' -> I s') ->
    for_ xs s body = Ok s' -> I s'.
Proof.
  induction xs as [|x xs IH]; intros s s' Hs Hbody; simpl.
  - intros [= <-]; assumption.
  - intros H. apply bind_ok in H as (s1 & H1 & H2).
    eapply IH; [| |exact H2].
    + eapply Hbody; [left; reflexivity|exact Hs|exact H1].
    + intros; eapply Hbody; [right| |]; eassumption.
Qed.

Lemma for_app {X S : Type} (xs ys : list X) (body : S -> X -> result S) s :
  for_ (xs ++ ys) s body = do s' <- for_ xs s body ;; for_ ys s' body.
Proof.
  revert s; induction xs as [|x xs IH]; intros s; simpl; [reflexivity|].
  destruct (body s x); simpl; [apply IH|reflexivity].
Qed.

(** ** Ranges and indices *)

Lemma in_range (lo hi x : Z) : In x (range lo hi) <-> lo <= x < hi.
Proof.
  unfold range. rewrite in_map_iff. split.
  - intros (k & <- & Hk). apply in_seq in Hk. lia.
  - intros H. exists (Z.to_nat (x - lo)). split; [lia|]. apply in_seq. lia.
Qed.


Lemma range_three (r : Z) : range (r - 1) (r + 2) = [r - 1; r; r + 1].
Proof.
  unfold range. replace (r + 2 - (r - 1)) with 3 by lia. simpl.
  f_equal; [lia|]. f_equal; [lia|]. f_equal; lia.
Qed.

Lemma in_combine_seq {A : Type} (i : Z) (a : A) :
  forall (l : list A) (s : nat),
    In (i, a) (combine (map (fun k : nat => 0 + Z.of_nat k) (seq s (length l))) l) ->
    (Z.of_nat s <= i < Z.of_nat s + Z.of_nat (length l)) /\
    l !! (Z.to_nat i - s)%nat = Some a.
Proof.
  induction l as [|x l IH]; intros s; simpl; [tauto|].
  intros [H|H].
  - injection H as <- <-. split; [lia|].
    replace (Z.to_nat (0 + Z.of_nat s) - s)%nat with 0%nat by lia. reflexivity.
  - apply IH in H as [H1 H2]. split; [lia|].
    replace (Z.to_nat i - s)%nat with (S (Z.to_nat i - S s)) by lia.
    exact H2.
Qed.

Lemma in_enumerate {A : Type} (l : list A) (i : Z) (a : A) :
  In (i, a) (enumerate l) -> 0 <= i < len l /\ l !! Z.to_nat i = Some a.
Proof.
  unfold enumerate, range, len. rewrite Z.sub_0_r, Nat2Z.id.
  intros H. apply in_combine_seq in H as [H1 H2].
  rewrite Nat.sub_0_r in H2. split; [lia|exact H2].
Qed.

Lemma norm_index_ok (n : nat) (i : Z) :
  0 <= i < Z.of_nat n -> norm_index n i = Some (Z.to_nat i).
Proof.
  intros H. unfold norm_index.
  destruct (Z.ltb_spec i 0); [lia|].
  destruct (Z.leb_spec 0 i); [|lia].
  destruct (Z.ltb_spec i (Z.of_nat n)); [reflexivity|lia].
Qed.

Lemma getitem_ok {A : Type} (l : list A) (i : Z) :
  0 <= i < len l -> exists a, getitem l i = Ok a /\ l !! Z.to_nat i = Some a.
Proof.
  intros H. unfold getitem. rewrite norm_index_ok by exact H.
  destruct (l !! Z.to_nat i) as [a|] eqn:E; [eauto|].
  apply lookup_ge_None in E. unfold len in H. lia.
Qed.

Lemma getitem_lookup {A : Type} (l : list A) (i : Z) (a : A) :
  0 <= i < len l -> l !! Z.to_nat i = Some a -> getitem l i = Ok a.
Proof.
  intros H E. destruct (getitem_ok l i H) as (a' & -> & E'). congruence.
Qed.

Lemma setitem_ok {A : Type} (l : list A) (i : Z) (a : A) :
  0 <= i < len l -> setitem l i a = Ok (<[Z.to_nat i := a]> l).
Proof. intros H. unfold setitem. now rewrite norm_index_ok. Qed.

Lemma shape_empty_grid {A : Type} (n : Z) :
  0 <= n -> shape n (@empty_grid A n).
Proof.
  intros H. unfold shape, empty_grid, len. rewrite repeat_length. split; [lia|].
  intros r Hr. apply repeat_spec in Hr as ->. rewrite repeat_length. lia.
Qed.

Lemma shape_row {A : Type} (n : Z) (g : list (list A)) (i : Z) :
  shape n g -> 0 <= i < n ->
  exists r, getitem g i = Ok r /\ g !! Z.to_nat i = Some r /\ len r = n.
Proof.
  intros [Hl Hr] Hi. destruct (getitem_ok g i) as (r & E1 & E2); [lia|].
  exists r. repeat split; try assumption.
  apply Hr. apply list_elem_of_In. eapply list_elem_of_lookup_2; eassumption.
Qed.

Lemma grid_get_ok {A : Type} (n : Z) (g : list (list A)) (i j : Z) :
  shape n g -> 0 <= i < n -> 0 <= j < n -> exists a, grid_get g i j = Ok a.
Proof.
  intros Hs Hi Hj. destruct (shape_row n g i Hs Hi) as (r & E & _ & Hr).
  unfold grid_get. rewrite E. simpl.
  destruct (getitem_ok r j) as (a & Ea & _); [lia|]. eauto.
Qed.

Lemma shape_insert {A : Type} (n : Z) (g : list (list A)) (k : nat) (r : list A) :
  shape n g -> len r = n -> shape n (<[k := r]> g).
Proof.
  intros [Hl Hr] Hn. split.
  - unfold len. rewrite length_insert. exact Hl.
  - intros r' Hin. apply list_elem_of_In in Hin.
    apply list_elem_of_lookup in Hin as (k' & Hk').
    destruct (decide (k = k')) as [->|Hne].
    + destruct (decide (k' < length g)%nat) as [Hlt|Hge].
      * rewrite list_lookup_insert_eq in Hk' by exact Hlt. congruence.
      * rewrite list_insert_ge in Hk' by lia.
        apply Hr, list_elem_of_In. eapply list_elem_of_lookup_2; eassumption.
    + rewrite list_lookup_insert_ne in Hk' by exact Hne.
      apply Hr, list_elem_of_In. eapply list_elem_of_lookup_2; eassumption.
Qed.

(** Writing a cell of a square grid succeeds, keeps the shape, shows at
    that cell and at no other. *)
Lemma getitem_insert_eq {A : Type} (l : list A) (i : Z) (a : A) :
  0 <= i < len l -> getitem (<[Z.to_nat i := a]> l) i = Ok a.
Proof.
  intros H. unfold len in H. apply getitem_lookup.
  - unfold len. rewrite length_insert. exact H.
  - apply list_lookup_insert_eq. lia.
Qed.

Lemma getitem_insert_ne {A : Type} (l : list A) (i i' : Z) (a : A) :
  0 <= i < len l -> 0 <= i' < len l -> i' <> i ->
  getitem (<[Z.to_nat i := a]> l) i' = getitem l i'.
Proof.
  intros H H' Hne. unfold len in H, H'. unfold getitem.
  rewrite length_insert, !norm_index_ok by lia.
  rewrite list_lookup_insert_ne by lia. reflexivity.
Qed.

(** Writing a cell of a square grid succeeds, keeps the shape, shows at
    that cell and at no other. *)
Lemma grid_set_ok {A : Type} (n : Z) (g : list (list A)) (i j : Z) (a : A) :
  shape n g -> 0 <= i < n -> 0 <= j < n ->
  exists g', grid_set g i j a = Ok g' /\ shape n g' /\
    grid_get g' i j = Ok a /\
    forall i' j', 0 <= i' < n -> 0 <= j' < n -> (i', j') <> (i, j) ->
      grid_get g' i' j' = grid_get g i' j'.
Proof.
  intros Hs Hi Hj. destruct (shape_row n g i Hs Hi) as (r & E & El & Hr).
  pose proof Hs as [Hlen _].
  unfold grid_set. rewrite E. simpl.
  rewrite setitem_ok by lia. simpl. rewrite setitem_ok by lia.
  eexists; split; [reflexivity|].
  split.
  { apply shape_insert; [exact Hs|]. unfold len. rewrite length_insert. exact Hr. }
  split.
  - unfold grid_get. rewrite getitem_insert_eq by lia. simpl.
    apply getitem_insert_eq. lia.
  - intros i' j' Hi' Hj' Hne. unfold grid_get.
    destruct (Z.eq_dec i' i) as [->|Hni].
    + rewrite E, getitem_insert_eq by lia. simpl.
      apply getitem_insert_ne; [lia|lia|congruence].
    + rewrite getitem_insert_ne by lia. reflexivity.
Qed.

(** ** The constructor *)

Lemma add_piece_ok (n : Z) (b : Board.t) (val row col : Z) :
  shape n (Board.grid b) -> 0 <= row < n -> 0 <= col < n ->
  exists b' added, Board.add_piece b val (row, col) = Ok (b', added) /\
    shape n (Board.grid b') /\ Board.side b' = Board.side b.
Proof.
  intros Hs Hr Hc. unfold Board.add_piece.
  destruct (grid_get_ok n _ row col Hs Hr Hc) as (c & ->). simpl.
  destruct (is_None c).
  - destruct (grid_set_ok n _ row col (Some (mkPiece val)) Hs Hr Hc)
      as (g' & -> & Hs' & _). simpl. eauto.
  - eauto.
Qed.

(** Copying the values of the pieces of a square board into a square
    grid never raises. *)
Lemma fill_grid_ok (n : Z) (bg : list (list (option Piece)))
    (g0 : list (list (option Z))) :
  shape n bg -> shape n g0 ->
  exists g,
    for_ (enumerate bg) g0
      (fun g '(i, row) =>
         for_ (enumerate row) g
           (fun g '(j, piece) =>
              match piece with
              | Some p => grid_set g i j (Some (value p))
              | None => Ok g
              end)) = Ok g /\ shape n g.
Proof.
  intros Hb Hg. apply for_inv; [exact Hg|].
  intros g [i row] Hin Hs. apply in_enumerate in Hin as [Hi Hrow].
  destruct Hb as [Hlen Hrows].
  assert (Hr : len row = n).
  { apply Hrows, list_elem_of_In. eapply list_elem_of_lookup_2; eassumption. }
  apply for_inv; [exact Hs|].
  intros g1 [j piece] Hin1 Hs1. apply in_enumerate in Hin1 as [Hj _].
  destruct piece as [p|]; [|eauto].
  destruct (grid_set_ok n g1 i j (Some (value p)) Hs1) as (g' & -> & Hs' & _);
    [lia|lia|eauto].
Qed.

(** The board of a valid configuration. *)
Lemma init_board_ok (side players : Z) (othello : bool) :
  valid_config side players othello ->
  exists board,
    (if othello then
       if players =? 2 then
         do '(b1, _) <- Board.add_piece (Board.__init__ side) 1
                          (side / 2 - 1, side / 2) ;;
         do '(b2, _) <- Board.add_piece b1 1 (side / 2, side / 2 - 1) ;;
         do '(b3, _) <- Board.add_piece b2 2 (side / 2 - 1, side / 2 - 1) ;;
         do '(b4, _) <- Board.add_piece b3 2 (side / 2, side / 2) ;;
         Ok b4
       else Raise ValueError
     else Ok (Board.__init__ side)) = Ok board /\
    shape side (Board.grid board).
Proof.
  intros (Hs & Hp & Hps & Hpar & Ho).
  pose proof (@shape_empty_grid Piece side ltac:(lia)) as Hb0.
  destruct othello; [|eauto].
  rewrite (Ho eq_refl). cbn [Z.eqb Pos.eqb].
  pose proof (Z.div_mod side 2 ltac:(lia)) as Hdm.
  pose proof (Z.mod_pos_bound side 2 ltac:(lia)) as Hms.
  destruct (add_piece_ok side (Board.__init__ side) 1 (side / 2 - 1) (side / 2))
    as (b1 & f1 & -> & Hb1 & _); [exact Hb0|lia|lia|]. cbn [bind].
  destruct (add_piece_ok side b1 1 (side / 2) (side / 2 - 1))
    as (b2 & f2 & -> & Hb2 & _); [exact Hb1|lia|lia|]. cbn [bind].
  destruct (add_piece_ok side b2 2 (side / 2 - 1) (side / 2 - 1))
    as (b3 & f3 & -> & Hb3 & _); [exact Hb2|lia|lia|]. cbn [bind].
  destruct (add_piece_ok side b3 2 (side / 2) (side / 2))
    as (b4 & f4 & -> & Hb4 & _); [exact Hb3|lia|lia|]. cbn [bind].
  eauto.
Qed.

(** Past its guards, the constructor builds the board and fills the
    grid. *)
Lemma init_valid_unfold (side players : Z) (othello : bool) :
  valid_config side players othello ->
  __init__ side players othello
  = (do board <-
       (if othello then
          if players =? 2 then
            do '(b1, _) <- Board.add_piece (Board.__init__ side) 1
                             (side / 2 - 1, side / 2) ;;
            do '(b2, _) <- Board.add_piece b1 1 (side / 2, side / 2 - 1) ;;
            do '(b3, _) <- Board.add_piece b2 2 (side / 2 - 1, side / 2 - 1) ;;
            do '(b4, _) <- Board.add_piece b3 2 (side / 2, side / 2) ;;
            Ok b4
          else Raise ValueError
        else Ok (Board.__init__ side)) ;;
     do grid <-
       for_ (enumerate (Board.grid board)) (empty_grid side)
         (fun g '(i, row) =>
            for_ (enumerate row) g
              (fun g '(j, piece) =>
                 match piece with
                 | Some p => grid_set g i j (Some (value p))
                 | None => Ok g
                 end)) ;;
     Ok (mkReversi side players othello board grid 1 0)).
Proof.
  intros (Hs & Hp & Hps & Hpar & Ho). unfold __init__.
  replace (9 <? players) with false by lia.
  replace (players <? 2) with false by lia.
  replace (side <? 3) with false by lia.
  replace (side <? players) with false by lia.
  cbn [orb].
  pose proof (Z.mod_pos_bound side 2 ltac:(lia)) as Hms.
  replace ((side mod 2 =? 0) && (players mod 2 =? 0)
           || (side mod 2 =? 1) && (players mod 2 =? 1)) with true
    by (rewrite <- Hpar; destruct (Z.eqb_spec (side mod 2) 0);
        destruct (Z.eqb_spec (side mod 2) 1); simpl; lia).
  reflexivity.
Qed.

Lemma init_ok (side players : Z) (othello : bool) :
  valid_config side players othello ->
  exists g, __init__ side players othello = Ok g.
Proof.
  intros Hv. rewrite (init_valid_unfold _ _ _ Hv).
  destruct (init_board_ok _ _ _ Hv) as (board & -> & Hb). cbn [bind].
  destruct Hv as (Hs & _).
  destruct (fill_grid_ok side (Board.grid board) (empty_grid side) Hb
              (shape_empty_grid side ltac:(lia))) as (g & -> & _).
  cbn [bind]. eauto.
Qed.

Lemma init_ok_valid (side players : Z) (othello : bool) (g : Reversi) :
  __init__ side players othello = Ok g -> valid_config side players othello.
Proof.
  unfold __init__, valid_config.
  destruct ((9 <? players) || (players <? 2)) eqn:E1; [discriminate|].
  destruct (side <? 3) eqn:E2; [discriminate|].
  destruct (side <? players) eqn:E3; [discriminate|].
  destruct ((side mod 2 =? 0) && (players mod 2 =? 0)
            || (side mod 2 =? 1) && (players mod 2 =? 1)) eqn:E4;
    [|discriminate].
  intros H.
  assert (Ho : othello = true -> players = 2).
  { intros ->. destruct (Z.eqb_spec players 2); [assumption|discriminate]. }
  zbool; repeat split; try lia; assumption.
Qed.

Lemma init_raises_ValueError (side players : Z) (othello : bool) (e : exn) :
  __init__ side players othello = Raise e -> e = ValueError.
Proof.
  intros H.
  assert (Hcases : valid_config side players othello \/
                   __init__ side players othello = Raise ValueError).
  { unfold __init__, valid_config.
    destruct ((9 <? players) || (players <? 2)) eqn:E1; [now right|].
    destruct (side <? 3) eqn:E2; [now right|].
    destruct (side <? players) eqn:E3; [now right|].
    destruct ((side mod 2 =? 0) && (players mod 2 =? 0)
              || (side mod 2 =? 1) && (players mod 2 =? 1)) eqn:E4;
      [|now right].
    destruct othello; [destruct (Z.eqb_spec players 2); [|now right]|];
      left; zbool; repeat split; try lia; try assumption; try discriminate. }
  destruct Hcases as [Hv|Hr]; [|congruence].
  destruct (init_ok _ _ _ Hv) as (g & Hg). congruence.
Qed.

(** C8. Construction with (side, players, othello) succeeds exactly when
    side >= 3, 2 <= players <= 9, players <= side, side and players have
    the same parity and othello implies players = 2; every other
    configuration raises [ValueError]. *)
Theorem init_succeeds_iff_valid_config (side players : Z) (othello : bool) :
  ((exists g, __init__ side players othello = Ok g) <->
   valid_config side players othello) /\
  (~ valid_config side players othello ->
   __init__ side players othello = Raise ValueError).
Proof.
  split.
  - split; [intros (g & Hg); eapply init_ok_valid; eassumption|apply init_ok].
  - intros Hn. destruct (__init__ side players othello) as [g|e] eqn:E.
    + exfalso. apply Hn. eapply init_ok_valid; eassumption.
    + f_equal. eapply init_raises_ValueError; eassumption.
Qed.

Lemma inb_true (n i j : Z) : inb n i j = true <-> on_board n (i, j).
Proof.
  unfold inb, on_board. simpl.
  rewrite !andb_true_iff, !Z.leb_le, !Z.ltb_lt. tauto.
Qed.

Lemma in_grid_shape (self : Reversi) (n i j : Z) :
  shape n (_grid self) -> in_grid self i j = Ok (inb n i j).
Proof.
  intros Hs. pose proof Hs as [Hlen Hrows]. unfold in_grid, inb. rewrite Hlen.
  destruct ((0 <=? i) && (i <? n)) eqn:E; [|reflexivity].
  zbool. destruct (shape_row n (_grid self) 0 Hs) as (r0 & -> & _ & Hr0); [lia|].
  simpl. now rewrite Hr0.
Qed.

Lemma depth_shape (self : Reversi) (n : Z) :
  shape n (_grid self) -> 0 < n -> Z.of_nat (depth self) = 1 + n + n.
Proof.
  intros Hs Hn. pose proof Hs as [Hlen _].
  destruct (shape_row n (_grid self) 0 Hs) as (r0 & _ & E & Hr0); [lia|].
  unfold depth. change (Z.to_nat 0) with 0%nat in E.
  rewrite <- head_lookup in E. rewrite E. simpl default. unfold len in *. lia.
Qed.

Lemma check_end_rec_ok (self : Reversi) (n val ydir xdir : Z) :
  shape n (_grid self) -> unit_dir ydir xdir ->
  forall (fuel : nat) (row col : Z),
    on_board n (row + ydir, col + xdir) ->
    room n (row + ydir) (col + xdir) ydir xdir <= Z.of_nat fuel ->
    exists b, check_end_rec fuel self val (row, col) ydir xdir = Ok b.
Proof.
  intros Hs Hd. induction fuel as [|fuel IH]; intros row col Hon Hroom.
  - exfalso. destruct Hon as [Hr Hc], Hd as (Hy & Hx & Hnz). simpl in Hr, Hc.
    unfold room in Hroom.
    destruct (Z.eqb_spec ydir 1); [lia|]. destruct (Z.eqb_spec ydir (-1)); [lia|].
    destruct (Z.eqb_spec xdir 1); lia.
  - simpl. destruct Hon as [Hr Hc]. simpl in Hr, Hc.
    destruct (grid_get_ok n _ _ _ Hs Hr Hc) as (c & ->). simpl.
    destruct (cell_eq c val); [eauto|]. destruct (is_None c); [eauto|].
    rewrite (in_grid_shape self n) by exact Hs. simpl.
    destruct (inb n (row + 2 * ydir) (col + 2 * xdir)) eqn:E; [|eauto].
    apply inb_true in E. destruct E as [E1 E2]. simpl in E1, E2.
    apply IH.
    + split; simpl; lia.
    + destruct Hd as (Hy & Hx & Hnz). unfold room in *.
      destruct (Z.eqb_spec ydir 1); [lia|]. destruct (Z.eqb_spec ydir (-1)); [lia|].
      destruct (Z.eqb_spec xdir 1); lia.
Qed.

Lemma room_le (n row col ydir xdir : Z) :
  on_board n (row, col) -> room n row col ydir xdir <= 1 + n + n.
Proof.
  intros [H1 H2]. simpl in *. unfold room.
  destruct (ydir =? 1), (ydir =? -1), (xdir =? 1); lia.
Qed.

Lemma check_end_ok (self : Reversi) (n val row col ydir xdir : Z) :
  shape n (_grid self) -> unit_dir ydir xdir ->
  on_board n (row + ydir, col + xdir) ->
  exists b, check_end self val (row, col) ydir xdir = Ok b.
Proof.
  intros Hs Hd Hon. unfold check_end.
  eapply check_end_rec_ok; try eassumption.
  rewrite (depth_shape self n Hs) by (destruct Hon; simpl in *; lia).
  now apply room_le.
Qed.

(** ** Available moves *)

Lemma pos_eqb_eq (p q : Position) : pos_eqb p q = true <-> p = q.
Proof.
  destruct p as [a b], q as [c d]. unfold pos_eqb. simpl.
  rewrite andb_true_iff, !Z.eqb_eq. split; [intros [-> ->]; reflexivity|].
  intros [= -> ->]. split; reflexivity.
Qed.

Lemma pos_mem_In (p : Position) (s : list Position) :
  pos_mem p s = true <-> In p s.
Proof.
  unfold pos_mem. rewrite existsb_exists. split.
  - intros (q & Hq & E). apply pos_eqb_eq in E as ->. exact Hq.
  - intros H. exists p. split; [exact H|]. now apply pos_eqb_eq.
Qed.

Lemma in_set_add (p q : Position) (s : list Position) :
  In q (set_add p s) <-> q = p \/ In q s.
Proof.
  unfold set_add. destruct (pos_mem p s) eqn:E; simpl.
  - apply pos_mem_In in E. split; [tauto|]. intros [->|H]; assumption.
  - split; intros [H|H]; auto.
Qed.

Lemma in_insert_sorted (p q : Position) (l : list Position) :
  In q (insert_sorted p l) <-> q = p \/ In q l.
Proof.
  induction l as [|x l IH]; simpl.
  - split; intros [H|H]; auto.
  - destruct (pos_ltb x p); simpl; rewrite ?IH; split; intuition auto.
Qed.

Lemma in_sort (q : Position) (l : list Position) : In q (sort l) <-> In q l.
Proof.
  unfold sort. induction l as [|x l IH]; simpl; [tauto|].
  rewrite in_insert_sorted, IH. split; intuition auto.
Qed.

(** The cells that [open_spaces] returns are on the board and hold no
    piece. *)
Lemma open_spaces_ok (self : Reversi) (n : Z) :
  shape n (Board.grid (_board self)) ->
  exists l, open_spaces self = Ok l /\
    forall p, In p l ->
      on_board n p /\ grid_get (Board.grid (_board self)) (fst p) (snd p) = Ok None.
Proof.
  intros Hs. unfold open_spaces.
  apply (for_inv
           (fun acc : list Position =>
              forall p, In p acc ->
                on_board n p /\
                grid_get (Board.grid (_board self)) (fst p) (snd p) = Ok None)).
  - intros p [].
  - intros acc [i row] Hin Hacc. apply in_enumerate in Hin as [Hi Hrow].
    destruct Hs as [Hlen Hrows].
    assert (Hr : len row = n).
    { apply Hrows, list_elem_of_In. eapply list_elem_of_lookup_2; eassumption. }
    apply for_inv; [exact Hacc|].
    intros acc1 [j x] Hin1 Hacc1. apply in_enumerate in Hin1 as [Hj _].
    destruct (grid_get_ok n (Board.grid (_board self)) i j) as (c & E);
      [split; assumption|lia|lia|].
    rewrite E. simpl. destruct c as [pc|]; simpl; [eauto|].
    eexists; split; [reflexivity|].
    intros p Hp. apply in_app_or in Hp as [Hp | [<- | []]]; [auto|].
    split; [split; simpl; lia|exact E].
Qed.

(** The central block of the opening phase lies on the board. *)
Lemma central_block (side players i : Z) :
  0 < players <= side -> side mod 2 = players mod 2 ->
  side / 2 - players / 2 <= i < side / 2 - players / 2 + players ->
  0 <= i < side.
Proof.
  intros Hp Hpar Hi.
  pose proof (Z.div_mod side 2 ltac:(lia)).
  pose proof (Z.div_mod players 2 ltac:(lia)).
  pose proof (Z.mod_pos_bound side 2 ltac:(lia)).
  lia.
Qed.

Lemma players_av_moves_ok (self : Reversi) (turn : Z) :
  wf self ->
  exists mv, players_av_moves self turn = Ok mv /\
    forall p, In p mv -> candidate self p.
Proof.
  intros Hwf. destruct Hwf as [Hside Hpl Hpar Hg Hb Ht].
  unfold players_av_moves, candidate. fold (opening self).
  set (n := _side self) in *.
  set (Q := fun acc : list Position =>
              forall p, In p acc ->
                on_board n p /\
                (if opening self then grid_get (_grid self) (fst p) (snd p) = Ok None
                 else grid_get (Board.grid (_board self)) (fst p) (snd p) = Ok None)).
  assert (Hend : forall possible, Q possible ->
            exists mv, Ok (sort possible) = Ok mv /\ Q mv).
  { intros possible HQ. eexists; split; [reflexivity|].
    intros p Hp. apply HQ. now apply in_sort. }
  destruct (opening self) eqn:Eop.
  - destruct (for_inv Q
       (range (n / 2 - _players self / 2) (n / 2 - _players self / 2 + _players self))
       (fun possible i =>
          for_ (range (n / 2 - _players self / 2)
                  (n / 2 - _players self / 2 + _players self)) possible
            (fun possible j =>
               do c <- grid_get (_grid self) i j ;;
               if is_None c then Ok (set_add (i, j) possible) else Ok possible)) [])
      as (l & -> & Hl).
    + intros p [].
    + intros acc i Hi Hacc. apply in_range in Hi.
      apply (central_block n) in Hi; [|assumption..].
      apply for_inv; [exact Hacc|].
      intros acc1 j Hj Hacc1. apply in_range in Hj.
      apply (central_block n) in Hj; [|assumption..].
      destruct (grid_get_ok n (_grid self) i j Hg Hi Hj) as (c & E).
      rewrite E. simpl. destruct c as [v|]; simpl; [eauto|].
      eexists; split; [reflexivity|].
      intros p Hp. apply in_set_add in Hp as [->|Hp]; [|auto].
      split; [split; assumption|exact E].
    + simpl. apply Hend, Hl.
  - destruct (open_spaces_ok self n Hb) as (os & -> & Hos). simpl.
    destruct (for_inv Q os
       (fun possible cell =>
          let '(row, col) := cell in
          for_ (range (row - 1) (row + 2)) possible
            (fun possible i =>
               for_ (range (col - 1) (col + 2)) possible
                 (fun possible j =>
                    do b <- in_grid self i j ;;
                    if b && (negb (i =? row) || negb (j =? col)) then
                      do c <- grid_get (_grid self) i j ;;
                      if negb (cell_eq c turn) then
                        do e <- check_end self turn cell (i - row) (j - col) ;;
                        if e then Ok (set_add (row, col) possible) else Ok possible
                      else Ok possible
                    else Ok possible))) [])
      as (l & -> & Hl).
    + intros p [].
    + intros acc [row col] Hcell Hacc. apply Hos in Hcell as [Hon Hnone].
      apply for_inv; [exact Hacc|]. intros acc1 i Hi Hacc1. apply in_range in Hi.
      apply for_inv; [exact Hacc1|]. intros acc2 j Hj Hacc2. apply in_range in Hj.
      rewrite (in_grid_shape self n) by exact Hg. simpl.
      destruct (inb n i j && (negb (i =? row) || negb (j =? col))) eqn:E; [|eauto].
      apply andb_true_iff in E as [E1 E2]. apply inb_true in E1.
      destruct E1 as [Hi' Hj']. simpl in Hi', Hj'.
      destruct (grid_get_ok n (_grid self) i j Hg Hi' Hj') as (c & ->). simpl.
      destruct (negb (cell_eq c turn)); [|eauto].
      destruct (check_end_ok self n turn row col (i - row) (j - col)) as (e & ->).
      * exact Hg.
      * zbool; repeat split; lia.
      * split; simpl; lia.
      * simpl. destruct e; [|eauto]. eexists; split; [reflexivity|].
        intros p Hp. apply in_set_add in Hp as [->|Hp]; [|auto].
        split; assumption.
    + simpl. apply Hend, Hl.
Qed.

(** ** Whose turn it is does not matter to the moves of a given player *)

Lemma for_ext {X S : Type} (xs : list X) (f g : S -> X -> result S) :
  (forall s x, In x xs -> f s x = g s x) ->
  forall s, for_ xs s f = for_ xs s g.
Proof.
  induction xs as [|x xs IH]; intros Hfg s; simpl; [reflexivity|].
  rewrite Hfg by (left; reflexivity). destruct (g s x); simpl; [|reflexivity].
  apply IH. intros; apply Hfg; right; assumption.
Qed.

Lemma check_end_rec_grid (s1 s2 : Reversi) :
  _grid s1 = _grid s2 ->
  forall fuel val loc ydir xdir,
    check_end_rec fuel s1 val loc ydir xdir = check_end_rec fuel s2 val loc ydir xdir.
Proof.
  intros E. induction fuel as [|fuel IH]; intros val [row col] ydir xdir; simpl;
    [reflexivity|].
  assert (Ein : forall i j, in_grid s1 i j = in_grid s2 i j)
    by (intros; unfold in_grid; now rewrite E).
  rewrite E, Ein.
  destruct (grid_get (_grid s2) (row + ydir) (col + xdir)) as [c|]; simpl;
    [|reflexivity].
  destruct (cell_eq c val); [reflexivity|]. destruct (is_None c); [reflexivity|].
  destruct (in_grid s2 _ _) as [[|]|]; simpl; [apply IH|reflexivity..].
Qed.

Lemma check_end_grid (s1 s2 : Reversi) val loc ydir xdir :
  _grid s1 = _grid s2 ->
  check_end s1 val loc ydir xdir = check_end s2 val loc ydir xdir.
Proof.
  intros E. unfold check_end, depth. rewrite E. now apply check_end_rec_grid.
Qed.

Lemma players_av_moves_with_turn (self : Reversi) (t p : Z) :
  players_av_moves (with_turn self t) p = players_av_moves self p.
Proof.
  unfold players_av_moves. simpl.
  destruct (negb (_othello self) && (_num_moves self <? _players self ^ 2));
    [reflexivity|].
  change (open_spaces (with_turn self t)) with (open_spaces self).
  destruct (open_spaces self) as [os|]; simpl; [|reflexivity].
  f_equal. apply for_ext. intros s [row col] _.
  apply for_ext. intros s1 i _. apply for_ext. intros s2 j _.
  change (in_grid (with_turn self t) i j) with (in_grid self i j).
  destruct (in_grid self i j) as [b|]; simpl; [|reflexivity].
  destruct (b && _); [|reflexivity].
  destruct (grid_get (_grid self) i j) as [c|]; simpl; [|reflexivity].
  destruct (negb (cell_eq c p)); [|reflexivity].
  now rewrite (check_end_grid (with_turn self t) self).
Qed.

Lemma done_with_turn (self : Reversi) (t : Z) :
  done (with_turn self t) = done self.
Proof.
  unfold done. simpl. generalize (range 1 (_players self + 1)) as ps.
  induction ps as [|q ps IH]; simpl; [reflexivity|].
  rewrite players_av_moves_with_turn.
  destruct (players_av_moves self q) as [mv|]; simpl; [|reflexivity].
  destruct (nonempty mv); [reflexivity|exact IH].
Qed.

(** ** done and change_turn *)

Lemma moves_dec (self : Reversi) (p : Z) :
  wf self -> {has_moves self p} + {no_moves self p}.
Proof.
  intros Hwf. unfold has_moves, no_moves.
  destruct (players_av_moves self p) as [[|m ms]|e] eqn:E.
  - right; reflexivity.
  - left; eauto.
  - exfalso. destruct (players_av_moves_ok self p Hwf) as (mv & E' & _). congruence.
Qed.

Lemma has_no_moves (self : Reversi) (p : Z) :
  has_moves self p -> no_moves self p -> False.
Proof. intros (m & ms & E) E'. unfold no_moves in E'. congruence. Qed.

Lemma done_loop_ok (self : Reversi) (ps : list Z) :
  wf self ->
  (done_loop self ps = Ok false /\ exists q, In q ps /\ has_moves self q) \/
  (done_loop self ps = Ok true /\ forall q, In q ps -> no_moves self q).
Proof.
  intros Hwf. induction ps as [|p ps IH]; simpl.
  - right. split; [reflexivity|]. intros q [].
  - destruct (moves_dec self p Hwf) as [Hm|Hn].
    + left. destruct Hm as (m & ms & E). rewrite E. simpl.
      split; [reflexivity|]. exists p. split; [now left|]. exists m, ms. exact E.
    + rewrite Hn. simpl. destruct IH as [(-> & q & Hq & Hm)|(-> & Hall)].
      * left. split; [reflexivity|]. exists q. split; [now right|exact Hm].
      * right. split; [reflexivity|]. intros q [<-|Hq]; [exact Hn|auto].
Qed.

(** [done] is true exactly when no player from 1 to [_players] has a
    move. *)
Lemma done_ok (self : Reversi) :
  wf self ->
  (done self = Ok false /\
   exists q, 1 <= q <= _players self /\ has_moves self q) \/
  (done self = Ok true /\
   forall q, 1 <= q <= _players self -> no_moves self q).
Proof.
  intros Hwf. unfold done.
  destruct (done_loop_ok self (range 1 (_players self + 1)) Hwf)
    as [(-> & q & Hq & Hm)|(-> & Hall)].
  - left. split; [reflexivity|]. exists q. apply in_range in Hq. split; [lia|exact Hm].
  - right. split; [reflexivity|]. intros q Hq. apply Hall, in_range. lia.
Qed.

Lemma player_after_S (P t : Z) (k : nat) :
  player_after P t (S k) = player_after P (next_player P t) k.
Proof. unfold player_after. apply Nat.iter_succ_r. Qed.

Lemma player_after_lt (P t : Z) (k : nat) :
  t + Z.of_nat k <= P -> player_after P t k = t + Z.of_nat k.
Proof.
  revert t. induction k as [|k IH]; intros t H.
  - simpl. lia.
  - rewrite player_after_S. unfold next_player at 1.
    destruct (Z.eqb_spec t P); [lia|]. rewrite IH; lia.
Qed.

(** From any cursor not above [P], every player is reached within
    [2 * P - t] steps, and within [P] steps from a cursor in 1..P. *)
Lemma player_after_reach (P t q : Z) :
  t <= P -> 1 <= q <= P ->
  exists k : nat, (1 <= k)%nat /\ Z.of_nat k <= 2 * P - t /\
    (1 <= t -> Z.of_nat k <= P) /\ player_after P t k = q.
Proof.
  intros Ht Hq. destruct (Z_lt_le_dec t q) as [Hlt|Hge].
  - exists (Z.to_nat (q - t)). repeat split; try lia.
    rewrite player_after_lt; lia.
  - exists (S (Z.to_nat (P - t) + Z.to_nat (q - 1))). repeat split; try lia.
    unfold player_after. rewrite Nat.add_comm, <- Nat.add_succ_l, Nat.iter_add.
    fold (player_after P t (Z.to_nat (P - t))).
    rewrite (player_after_lt P t) by lia.
    replace (t + Z.of_nat (Z.to_nat (P - t))) with P by lia.
    fold (player_after P P (S (Z.to_nat (q - 1)))).
    rewrite player_after_S. unfold next_player at 1. rewrite Z.eqb_refl.
    rewrite player_after_lt; lia.
Qed.

(** The least index at which a decidable property holds. *)
Lemma least_index (Q : nat -> Prop) :
  (forall k, {Q k} + {~ Q k}) ->
  forall k0, (1 <= k0)%nat -> Q k0 ->
  exists k, (1 <= k <= k0)%nat /\ Q k /\ forall j, (1 <= j < k)%nat -> ~ Q j.
Proof.
  intros Hdec.
  assert (Hscan : forall n,
            (exists k, (1 <= k <= n)%nat /\ Q k /\
                       forall j, (1 <= j < k)%nat -> ~ Q j) \/
            (forall j, (1 <= j <= n)%nat -> ~ Q j)).
  { induction n as [|n [(k & Hk & HQ & Hmin)|Hnone]].
    - right. intros j Hj. lia.
    - left. exists k. repeat split; try lia; assumption.
    - destruct (Hdec (S n)) as [HQ|HnQ].
      + left. exists (S n). repeat split; try lia; [assumption|].
        intros j Hj. apply Hnone. lia.
      + right. intros j Hj. destruct (Nat.eq_dec j (S n)) as [->|Hne];
          [assumption|apply Hnone; lia]. }
  intros k0 H1 HQ. destruct (Hscan k0) as [Hex|Hnone]; [exact Hex|].
  exfalso. apply (Hnone k0); [lia|assumption].
Qed.

Lemma with_turn_turn (self : Reversi) : with_turn self (_turn self) = self.
Proof. destruct self; reflexivity. Qed.

Lemma next_player_le (P t : Z) : 0 < P -> t <= P -> next_player P t <= P.
Proof. intros HP Ht. unfold next_player. destruct (Z.eqb_spec t P); lia. Qed.

Lemma player_after_le (P t : Z) (k : nat) :
  0 < P -> t <= P -> player_after P t k <= P.
Proof.
  intros HP Ht. induction k as [|k IH]; simpl; [exact Ht|].
  now apply next_player_le.
Qed.

Lemma wf_with_turn (self : Reversi) (t : Z) :
  wf self -> t <= _players self -> wf (with_turn self t).
Proof. intros [? ? ? ? ? ?] Ht. constructor; simpl; assumption. Qed.

(** [change_turn] skips the players without a move and stops at the
    first player who has one. *)
Lemma change_turn_rec_skip (self : Reversi) :
  wf self -> done self = Ok false ->
  forall (k fuel : nat) (t : Z),
    (k < fuel)%nat ->
    (forall j, (1 <= j <= k)%nat ->
       no_moves self (player_after (_players self) t j)) ->
    has_moves self (player_after (_players self) t (S k)) ->
    change_turn_rec fuel (with_turn self t)
    = Ok (with_turn self (player_after (_players self) t (S k))).
Proof.
  intros Hwf Hdone. induction k as [|k IH]; intros fuel t Hfuel Hno Hhas;
    (destruct fuel as [|fuel]; [lia|]); simpl.
  all: rewrite done_with_turn, Hdone; simpl.
  all: fold (next_player (_players self) t).
  all: change (with_turn (with_turn self t) (next_player (_players self) t))
         with (with_turn self (next_player (_players self) t)).
  all: unfold available_moves; rewrite players_av_moves_with_turn; simpl.
  - destruct Hhas as (m & ms & E). simpl in E. rewrite E. reflexivity.
  - pose proof (Hno 1%nat ltac:(lia)) as H1. unfold no_moves in H1. simpl in H1.
    rewrite H1. simpl. rewrite (IH fuel (next_player (_players self) t)).
    + now rewrite <- player_after_S.
    + lia.
    + intros j Hj. rewrite <- player_after_S. apply Hno. lia.
    + now rewrite <- player_after_S.
Qed.

Lemma change_turn_ok (self : Reversi) :
  wf self ->
  exists self', change_turn self = Ok self' /\
    ((done self = Ok true /\ self' = self) \/
     (done self = Ok false /\
      exists k : nat, (1 <= k)%nat /\
        (1 <= _turn self -> Z.of_nat k <= _players self) /\
        self' = with_turn self (player_after (_players self) (_turn self) k) /\
        has_moves self (player_after (_players self) (_turn self) k) /\
        forall j, (1 <= j < k)%nat ->
          no_moves self (player_after (_players self) (_turn self) j))).
Proof.
  intros Hwf. unfold change_turn.
  destruct (done_ok self Hwf) as [(Hd & q & Hq & Hm)|(Hd & _)].
  - destruct (player_after_reach (_players self) (_turn self) q)
      as (k0 & Hk0 & Hb & Hb1 & Ek0); [apply Hwf|exact Hq|].
    destruct (least_index
                (fun k => has_moves self (player_after (_players self) (_turn self) k)))
      with (k0 := k0) as (k & Hk & Hhas & Hmin).
    + intros k. destruct (moves_dec self (player_after (_players self) (_turn self) k) Hwf)
        as [H|H]; [left; exact H|right; intros H'; eapply has_no_moves; eassumption].
    + exact Hk0.
    + now rewrite Ek0.
    + assert (Hno : forall j, (1 <= j < k)%nat ->
                no_moves self (player_after (_players self) (_turn self) j)).
      { intros j Hj.
        destruct (moves_dec self (player_after (_players self) (_turn self) j) Hwf)
          as [H|H]; [exfalso; eapply Hmin; eassumption|exact H]. }
      destruct k as [|k]; [lia|].
      pose proof (change_turn_rec_skip self Hwf Hd k
                    (S (Z.to_nat (2 * _players self - _turn self))) (_turn self))
        as Hskip.
      rewrite with_turn_turn in Hskip. rewrite Hskip.
      * eexists; split; [reflexivity|]. right. split; [exact Hd|].
        exists (S k). repeat split; try lia; try assumption.
      * lia.
      * intros j Hj. apply Hno. lia.
      * exact Hhas.
  - simpl. rewrite Hd. simpl. exists self. split; [reflexivity|]. left. auto.
Qed.

(** ** Rays and outflanked runs *)

Lemma ray_1 (row col ydir xdir : Z) :
  ray row col ydir xdir 1 = (row + ydir, col + xdir).
Proof. unfold ray. f_equal; lia. Qed.

Lemma ray_shift (row col ydir xdir k : Z) :
  ray (row + ydir) (col + xdir) ydir xdir k = ray row col ydir xdir (k + 1).
Proof. unfold ray. f_equal; lia. Qed.

Lemma cell_eq_true (c : option Z) (val : Z) :
  cell_eq c val = true <-> c = Some val.
Proof.
  destruct c as [v|]; simpl; [|split; discriminate].
  rewrite Z.eqb_eq. split; [now intros ->|now intros [= ->]].
Qed.

Lemma cell_eq_false (c : option Z) (val : Z) :
  cell_eq c val = false -> is_None c = false -> exists v, c = Some v /\ v <> val.
Proof.
  destruct c as [v|]; simpl; [|discriminate].
  intros H _. apply Z.eqb_neq in H. eauto.
Qed.

Lemma run_step (n : Z) (g : BoardGridType) (val row col ydir xdir K v : Z) :
  on_board n (row + ydir, col + xdir) ->
  cell_at g (row + ydir, col + xdir) = Ok (Some v) -> v <> val ->
  run n g val (row + ydir) (col + xdir) ydir xdir K ->
  run n g val row col ydir xdir (K + 1).
Proof.
  intros Hon Hc Hv (HK & Hmid & Hend1 & Hend2). split; [lia|]. split; [|split].
  - intros k Hk. destruct (Z.eq_dec k 1) as [->|Hne].
    + rewrite ray_1. split; [exact Hon|eauto].
    + replace k with (k - 1 + 1) by lia. rewrite <- ray_shift. apply Hmid. lia.
  - rewrite <- ray_shift. exact Hend1.
  - rewrite <- ray_shift. exact Hend2.
Qed.

Lemma run_inv (n : Z) (g : BoardGridType) (val row col ydir xdir K v : Z) :
  cell_at g (row + ydir, col + xdir) = Ok (Some v) -> v <> val ->
  run n g val row col ydir xdir K ->
  1 <= K /\ run n g val (row + ydir) (col + xdir) ydir xdir (K - 1).
Proof.
  intros Hc Hv (HK & Hmid & Hend1 & Hend2).
  assert (HK1 : 1 <= K).
  { destruct (Z.eq_dec K 0) as [->|]; [|lia].
    simpl in Hend2. rewrite ray_1 in Hend2. congruence. }
  split; [exact HK1|]. split; [lia|]. split; [|split].
  - intros k Hk. rewrite ray_shift. apply Hmid. lia.
  - rewrite ray_shift. replace (K - 1 + 1 + 1) with (K + 1) by lia. exact Hend1.
  - rewrite ray_shift. replace (K - 1 + 1 + 1) with (K + 1) by lia. exact Hend2.
Qed.

Lemma room_pos (n row col ydir xdir : Z) :
  on_board n (row, col) -> 1 <= room n row col ydir xdir.
Proof.
  intros [H1 H2]. simpl in *. unfold room.
  destruct (ydir =? 1), (ydir =? -1), (xdir =? 1); lia.
Qed.

Lemma room_next (n row col ydir xdir : Z) :
  unit_dir ydir xdir ->
  room n (row + ydir) (col + xdir) ydir xdir = room n row col ydir xdir - 1.
Proof.
  intros (Hy & Hx & Hnz). unfold room.
  destruct (Z.eqb_spec ydir 1); [lia|]. destruct (Z.eqb_spec ydir (-1)); [lia|].
  destruct (Z.eqb_spec xdir 1); lia.
Qed.

(** [check_end] answers whether the direction starts an outflanked run
    (possibly of length zero). *)
Lemma check_end_rec_run (self : Reversi) (n val ydir xdir : Z) :
  shape n (_grid self) -> unit_dir ydir xdir ->
  forall (fuel : nat) (row col : Z),
    on_board n (row + ydir, col + xdir) ->
    room n (row + ydir) (col + xdir) ydir xdir <= Z.of_nat fuel ->
    (check_end_rec fuel self val (row, col) ydir xdir = Ok true <->
     exists K, run n (_grid self) val row col ydir xdir K).
Proof.
  intros Hs Hd. induction fuel as [|fuel IH]; intros row col Hon Hroom.
  - pose proof (room_pos n _ _ ydir xdir Hon). lia.
  - simpl. pose proof Hon as [Hr Hc]. simpl in Hr, Hc.
    destruct (grid_get_ok n _ _ _ Hs Hr Hc) as (c & Ec). rewrite Ec. simpl.
    destruct (cell_eq c val) eqn:Eeq.
    { apply cell_eq_true in Eeq as ->. split; [intros _|reflexivity].
      exists 0. split; [lia|]. split; [intros k Hk; lia|].
      simpl. rewrite ray_1. split; assumption. }
    destruct (is_None c) eqn:En.
    { split; [discriminate|]. intros (K & HK & Hmid & Hend1 & Hend2). exfalso.
      destruct c; [discriminate|].
      destruct (Z.eq_dec K 0) as [->|].
      - simpl in Hend2. rewrite ray_1 in Hend2. unfold cell_at in Hend2.
        simpl in Hend2. congruence.
      - destruct (Hmid 1 ltac:(lia)) as (_ & v & Hv & _). rewrite ray_1 in Hv.
        unfold cell_at in Hv. simpl in Hv. congruence. }
    destruct (cell_eq_false c val Eeq En) as (v & -> & Hv).
    rewrite (in_grid_shape self n) by exact Hs. simpl.
    destruct (inb n (row + 2 * ydir) (col + 2 * xdir)) eqn:E.
    + apply inb_true in E. destruct E as [E1 E2]. simpl in E1, E2.
      rewrite IH.
      * split; intros (K & HK).
        -- exists (K + 1). eapply run_step; eassumption.
        -- exists (K - 1). eapply run_inv; eassumption.
      * split; simpl; lia.
      * rewrite room_next by exact Hd. lia.
    + split; [discriminate|]. intros (K & HK). exfalso.
      destruct (run_inv _ _ _ _ _ _ _ _ _ Ec Hv HK) as [HK1 (_ & Hmid & Hend1 & _)].
      assert (Hon2 : on_board n (ray (row + ydir) (col + xdir) ydir xdir 1)).
      { destruct (Z.eq_dec K 1) as [->|]; [exact Hend1|]. apply Hmid. lia. }
      rewrite ray_1 in Hon2.
      assert (E' : inb n (row + 2 * ydir) (col + 2 * xdir) = true).
      { apply inb_true. destruct Hon2 as [H1 H2]. simpl in H1, H2. split; simpl; lia. }
      congruence.
Qed.

Lemma check_end_run (self : Reversi) (n val row col ydir xdir : Z) :
  shape n (_grid self) -> unit_dir ydir xdir ->
  on_board n (row + ydir, col + xdir) ->
  (check_end self val (row, col) ydir xdir = Ok true <->
   exists K, run n (_grid self) val row col ydir xdir K).
Proof.
  intros Hs Hd Hon. unfold check_end.
  apply check_end_rec_run; try assumption.
  rewrite (depth_shape self n Hs) by (destruct Hon; simpl in *; lia).
  now apply room_le.
Qed.

(** ** Flipping along a direction *)

Lemma same_config_refl (s : Reversi) : same_config s s.
Proof. repeat split. Qed.

Lemma same_config_trans (s1 s2 s3 : Reversi) :
  same_config s1 s2 -> same_config s2 s3 -> same_config s1 s3.
Proof.
  intros (A1 & A2 & A3 & A4 & A5) (B1 & B2 & B3 & B4 & B5).
  repeat split; congruence.
Qed.

(** The first half of [flip_pieces]: the neighbouring cell (i, j) is
    turned over when it holds a piece of another player. *)
Lemma flip_stage (n : Z) (self : Reversi) (val i j : Z) (c : option Z) :
  shapes n self -> on_board n (i, j) ->
  grid_get (_grid self) i j = Ok c ->
  exists s1,
    (if negb (cell_eq c val) && negb (is_None c) then
       do to_flip <- grid_get (Board.grid (_board self)) i j ;;
       match to_flip with
       | Some _ =>
           do b <- grid_set (Board.grid (_board self)) i j (Some (mkPiece val)) ;;
           do g <- grid_set (_grid self) i j (Some val) ;;
           Ok (with_grid
                 (with_board self (Board.mk (Board.side (_board self)) b)) g)
       | None => Ok self
       end
     else Ok self) = Ok s1 /\
    same_config self s1 /\ shapes n s1 /\
    (forall q, on_board n q -> q <> (i, j) ->
       cell_at (_grid s1) q = cell_at (_grid self) q) /\
    (cell_at (_grid s1) (i, j) = Ok c \/
     (exists v, c = Some v /\ v <> val) /\
     cell_at (_grid s1) (i, j) = Ok (Some val)) /\
    (synced n self ->
     synced n s1 /\
     ((exists v, c = Some v /\ v <> val) ->
      cell_at (_grid s1) (i, j) = Ok (Some val))).
Proof.
  intros [Hg Hb] [Hi Hj] Ec. simpl in Hi, Hj.
  assert (Hkeep : exists s1, Ok self = Ok s1 /\
    same_config self s1 /\ shapes n s1 /\
    (forall q, on_board n q -> q <> (i, j) ->
       cell_at (_grid s1) q = cell_at (_grid self) q) /\
    (cell_at (_grid s1) (i, j) = Ok c \/
     (exists v, c = Some v /\ v <> val) /\
     cell_at (_grid s1) (i, j) = Ok (Some val))).
  { exists self. split; [reflexivity|]. split; [apply same_config_refl|].
    split; [split; assumption|]. split; [reflexivity|]. left. exact Ec. }
  destruct (negb (cell_eq c val) && negb (is_None c)) eqn:E.
  - apply andb_true_iff in E as [E1 E2].
    apply negb_true_iff in E1, E2.
    destruct (cell_eq_false c val E1 E2) as (v & -> & Hv).
    destruct (grid_get_ok n _ i j Hb Hi Hj) as (pc & Epc). rewrite Epc. simpl.
    destruct pc as [pc|].
    + destruct (grid_set_ok n _ i j (Some (mkPiece val)) Hb Hi Hj)
        as (b' & -> & Hb' & Rb1 & Rb2).
      destruct (grid_set_ok n _ i j (Some val) Hg Hi Hj)
        as (g' & -> & Hg' & Rg1 & Rg2).
      simpl. eexists; split; [reflexivity|].
      split; [repeat split|]. split; [split; assumption|]. simpl.
      split; [|split].
      * intros [qi qj] [Hq1 Hq2] Hne. simpl in *. unfold cell_at. simpl.
        apply Rg2; assumption.
      * right. split; [eauto|exact Rg1].
      * intros Hsync. split; [|intros _; exact Rg1].
        intros i' j' Hi' Hj'. simpl.
        destruct (decide ((i', j') = (i, j))) as [[= -> ->]|Hne].
        -- exists (Some (mkPiece val)). split; assumption.
        -- rewrite Rb2, Rg2 by assumption. apply Hsync; assumption.
    + destruct Hkeep as (s1 & [= <-] & H1 & H2 & H3 & H4).
      exists self. split; [reflexivity|]. split; [exact H1|]. split; [exact H2|].
      split; [exact H3|]. split; [exact H4|].
      intros Hsync. split; [exact Hsync|]. intros _. exfalso.
      destruct (Hsync i j Hi Hj) as (pc & Epc' & Eg). rewrite Epc in Epc'.
      injection Epc' as <-. simpl in Eg. congruence.
  - destruct Hkeep as (s1 & [= <-] & H1 & H2 & H3 & H4).
    exists self. split; [reflexivity|]. split; [exact H1|]. split; [exact H2|].
    split; [exact H3|]. split; [exact H4|].
    intros Hsync. split; [exact Hsync|].
    intros (v & -> & Hv). exfalso. simpl in E.
    apply Z.eqb_neq in Hv. rewrite Hv in E. discriminate.
Qed.

Lemma ray_inj (row col ydir xdir k k' : Z) :
  unit_dir ydir xdir ->
  ray row col ydir xdir k = ray row col ydir xdir k' -> k = k'.
Proof.
  intros (Hy & Hx & Hnz) E. unfold ray in E. injection E as E1 E2.
  assert (Hy' : ydir = -1 \/ ydir = 0 \/ ydir = 1) by lia.
  assert (Hx' : xdir = -1 \/ xdir = 0 \/ xdir = 1) by lia.
  destruct Hy' as [-> | [-> | ->]], Hx' as [-> | [-> | ->]]; lia.
Qed.

Lemma ray_ne_start (row col ydir xdir k : Z) :
  unit_dir ydir xdir -> 1 <= k -> ray row col ydir xdir k <> (row, col).
Proof.
  intros Hd Hk E.
  replace (row, col) with (ray row col ydir xdir 0) in E
    by (unfold ray; f_equal; lia).
  apply ray_inj in E; [lia|exact Hd].
Qed.

Lemma run_transfer (n : Z) (g g' : BoardGridType) (val row col ydir xdir K : Z) :
  run n g val row col ydir xdir K ->
  (forall k, 1 <= k <= K + 1 ->
     cell_at g' (ray row col ydir xdir k) = cell_at g (ray row col ydir xdir k)) ->
  run n g' val row col ydir xdir K.
Proof.
  intros (HK & Hmid & Hend1 & Hend2) Hsame. split; [exact HK|]. split; [|split].
  - intros k Hk. rewrite Hsame by lia. apply Hmid, Hk.
  - exact Hend1.
  - rewrite Hsame by lia. exact Hend2.
Qed.

Lemma run_on_board_2 (n : Z) (g : BoardGridType) (val row col ydir xdir K : Z) :
  run n g val row col ydir xdir K -> 1 <= K ->
  on_board n (row + 2 * ydir, col + 2 * xdir).
Proof.
  intros (HK & Hmid & Hend1 & _) H1.
  assert (H : on_board n (ray row col ydir xdir 2)).
  { destruct (Z.eq_dec K 1) as [->|]; [exact Hend1|]. apply Hmid. lia. }
  exact H.
Qed.

(** [flip_pieces] returns; it keeps the configuration and the shape of
    the boards and only turns pieces of the ray over; when [_grid] and
    [_board] agree, every piece of an outflanked run ends as a piece of
    [val]. *)
Lemma flip_pieces_rec_ok (n val ydir xdir : Z) :
  unit_dir ydir xdir ->
  forall (fuel : nat) (self : Reversi) (row col : Z),
    shapes n self ->
    on_board n (row + ydir, col + xdir) ->
    room n (row + ydir) (col + xdir) ydir xdir <= Z.of_nat fuel ->
    exists self',
      flip_pieces_rec fuel self val (row, col) ydir xdir = Ok self' /\
      same_config self self' /\ shapes n self' /\
      flips_on_ray n val row col ydir xdir (_grid self) (_grid self') /\
      (synced n self ->
       synced n self' /\
       forall K, run n (_grid self) val row col ydir xdir K ->
         forall k, 1 <= k <= K ->
           cell_at (_grid self') (ray row col ydir xdir k) = Ok (Some val)).
Proof.
  intros Hd. induction fuel as [|fuel IH]; intros self row col Hsh Hon Hroom.
  { pose proof (room_pos n _ _ ydir xdir Hon). lia. }
  simpl. pose proof Hon as [Hr Hc]. simpl in Hr, Hc. pose proof Hsh as [Hg Hb].
  destruct (grid_get_ok n _ _ _ Hg Hr Hc) as (c & Ec). rewrite Ec. simpl.
  destruct (flip_stage n self val (row + ydir) (col + xdir) c Hsh Hon Ec)
    as (s1 & -> & Hcfg1 & Hsh1 & Hoth1 & Hat1 & Hsync1).
  simpl. pose proof Hsh1 as [Hg1 Hb1].
  (* what the first half changed, as a flip on the ray *)
  assert (Hfr1 : flips_on_ray n val row col ydir xdir (_grid self) (_grid s1)).
  { intros q Hq. destruct (decide (q = (row + ydir, col + xdir))) as [->|Hne].
    - destruct Hat1 as [Hsame|((v & -> & Hv) & Hnew)].
      + left. rewrite Hsame. symmetry. exact Ec.
      + right. exists 1, v. rewrite ray_1. repeat split; try assumption; lia.
    - left. apply Hoth1; assumption. }
  (* runs that start one cell further are not affected by the first half *)
  assert (Htr : forall K, run n (_grid self) val (row + ydir) (col + xdir) ydir xdir K ->
                  run n (_grid s1) val (row + ydir) (col + xdir) ydir xdir K).
  { intros K HK. eapply run_transfer; [exact HK|].
    intros k Hk. apply Hoth1.
    - destruct HK as (_ & Hmid & Hend1 & _).
      destruct (Z.eq_dec k (K + 1)) as [->|]; [exact Hend1|]. apply Hmid. lia.
    - apply ray_ne_start; [exact Hd|lia]. }
  rewrite (in_grid_shape s1 n) by exact Hg1. simpl.
  destruct (inb n (row + 2 * ydir) (col + 2 * xdir)) eqn:Einb.
  - apply inb_true in Einb.
    assert (Hon2 : on_board n (row + ydir + ydir, col + xdir + xdir)).
    { destruct Einb as [E1 E2]. simpl in E1, E2. split; simpl; lia. }
    destruct (check_end_ok s1 n val (row + ydir) (col + xdir) ydir xdir Hg1 Hd Hon2)
      as (e & Ee).
    rewrite Ee. simpl. destruct e.
    + destruct (IH s1 (row + ydir) (col + xdir) Hsh1 Hon2) as
        (s' & -> & Hcfg' & Hsh' & Hfr' & Hsync').
      { rewrite room_next by exact Hd. lia. }
      exists s'. split; [reflexivity|].
      split; [eapply same_config_trans; eassumption|]. split; [exact Hsh'|].
      split.
      * intros q Hq. destruct (Hfr' q Hq) as [Hsame|(k' & v & Hk' & -> & Hv1 & Hv & Hnew)].
        -- rewrite Hsame. destruct (Hfr1 q Hq) as [Hs1|(k & v & Hk & -> & Hv0 & Hv & Hnew)].
           ++ left. exact Hs1.
           ++ right. exists k, v. repeat split; assumption.
        -- rewrite ray_shift in *.
           destruct (Hfr1 _ Hq) as [Hs1|(k & v0 & Hk & E & Hv0 & Hvv & Hnew1)].
           ++ right. exists (k' + 1), v. repeat split; try assumption; try lia.
              rewrite <- Hs1. exact Hv1.
           ++ rewrite Hnew1 in Hv1. congruence.
      * intros Hsync. destruct (Hsync1 Hsync) as [Hs1 Hflip1].
        destruct (Hsync' Hs1) as [Hs' Hprog']. split; [exact Hs'|].
        intros K HK k Hk.
        assert (Hmid1 : exists v, c = Some v /\ v <> val).
        { destruct HK as (_ & Hmid & _). destruct (Hmid 1 ltac:(lia)) as (_ & v & Hv & Hne).
          rewrite ray_1 in Hv. unfold cell_at in Hv. simpl in Hv. rewrite Ec in Hv.
          injection Hv as ->. eauto. }
        destruct Hmid1 as (v & -> & Hv).
        destruct (Z.eq_dec k 1) as [->|Hk1].
        -- rewrite ray_1.
           destruct (Hfr' (row + ydir, col + xdir) Hon)
             as [Hsame|(k' & v' & _ & _ & Hv1 & Hne & _)].
           ++ rewrite Hsame. apply Hflip1. eauto.
           ++ rewrite Hflip1 in Hv1 by eauto. congruence.
        -- destruct (run_inv _ _ _ _ _ _ _ _ _ Ec Hv HK) as [_ HK'].
           apply Htr in HK'.
           replace k with (k - 1 + 1) by lia. rewrite <- ray_shift.
           eapply Hprog'; [exact HK'|lia].
    + exists s1. split; [reflexivity|]. split; [exact Hcfg1|]. split; [exact Hsh1|].
      split; [exact Hfr1|].
      intros Hsync. destruct (Hsync1 Hsync) as [Hs1 Hflip1]. split; [exact Hs1|].
      intros K HK k Hk. exfalso.
      assert (Hmid1 : exists v, c = Some v /\ v <> val).
      { destruct HK as (_ & Hmid & _). destruct (Hmid 1 ltac:(lia)) as (_ & v & Hv & Hne).
        rewrite ray_1 in Hv. unfold cell_at in Hv. simpl in Hv. rewrite Ec in Hv.
        injection Hv as ->. eauto. }
      destruct Hmid1 as (v & -> & Hv).
      destruct (run_inv _ _ _ _ _ _ _ _ _ Ec Hv HK) as [_ HK'].
      apply Htr in HK'.
      assert (check_end s1 val (row + ydir, col + xdir) ydir xdir = Ok true)
        by (apply (check_end_run s1 n); eauto).
      congruence.
  - exists s1. split; [reflexivity|]. split; [exact Hcfg1|]. split; [exact Hsh1|].
    split; [exact Hfr1|].
    intros Hsync. destruct (Hsync1 Hsync) as [Hs1 Hflip1]. split; [exact Hs1|].
    intros K HK k Hk. exfalso.
    pose proof (run_on_board_2 _ _ _ _ _ _ _ _ HK ltac:(lia)) as H2.
    apply inb_true in H2. congruence.
Qed.

Lemma flip_pieces_ok (n : Z) (self : Reversi) (val row col ydir xdir : Z) :
  unit_dir ydir xdir -> shapes n self ->
  on_board n (row + ydir, col + xdir) ->
  exists self',
    flip_pieces self val (row, col) ydir xdir = Ok self' /\
    same_config self self' /\ shapes n self' /\
    flips_on_ray n val row col ydir xdir (_grid self) (_grid self') /\
    (synced n self ->
     synced n self' /\
     forall K, run n (_grid self) val row col ydir xdir K ->
       forall k, 1 <= k <= K ->
         cell_at (_grid self') (ray row col ydir xdir k) = Ok (Some val)).
Proof.
  intros Hd Hsh Hon. unfold flip_pieces.
  apply flip_pieces_rec_ok; try assumption.
  rewrite (depth_shape self n) by (try apply Hsh; destruct Hon; simpl in *; lia).
  now apply room_le.
Qed.

(** ** The neighbour loop of apply_move *)

Lemma for_map {X Y S : Type} (h : X -> Y) (xs : list X)
    (body : S -> Y -> result S) :
  forall s, for_ (map h xs) s body = for_ xs s (fun s x => body s (h x)).
Proof.
  induction xs as [|x xs IH]; intros s; simpl; [reflexivity|].
  destruct (body s (h x)); simpl; [apply IH|reflexivity].
Qed.

(** Two nested loops are one loop over the pairs. *)
Lemma for_nested {X Y S : Type} (xs : list X) (ys : list Y)
    (body : S -> X -> Y -> result S) :
  forall s,
    for_ xs s (fun s i => for_ ys s (fun s j => body s i j))
    = for_ (list_prod xs ys) s (fun s p => body s (fst p) (snd p)).
Proof.
  induction xs as [|x xs IH]; intros s; simpl; [reflexivity|].
  rewrite for_app, for_map. simpl.
  destruct (for_ ys s (fun s j => body s x j)); simpl; [apply IH|reflexivity].
Qed.

(** A loop invariant that may mention the elements already visited. *)
Lemma for_inv_prefix {X S : Type} (I : list X -> S -> Prop) (xs : list X)
    (body : S -> X -> result S) (s0 : S) :
  I [] s0 ->
  (forall pre x post s, xs = pre ++ x :: post -> I pre s ->
     exists s', body s x = Ok s' /\ I (pre ++ [x]) s') ->
  exists s', for_ xs s0 body = Ok s' /\ I xs s'.
Proof.
  intros H0 Hstep.
  assert (G : forall post pre s, xs = pre ++ post -> I pre s ->
            exists s', for_ post s body = Ok s' /\ I xs s').
  { induction post as [|x post IH]; intros pre s E Hs; simpl.
    - rewrite app_nil_r in E. subst. eauto.
    - destruct (Hstep pre x post s E Hs) as (s1 & -> & Hs1). simpl.
      apply (IH (pre ++ [x])); [|exact Hs1].
      rewrite <- app_assoc. exact E. }
  apply (G xs [] s0); [reflexivity|exact H0].
Qed.

Lemma in_around (row col i j : Z) :
  In (i, j) (around row col) <->
  (row - 1 <= i <= row + 1) /\ (col - 1 <= j <= col + 1).
Proof.
  unfold around. rewrite in_prod_iff, !in_range. lia.
Qed.

Lemma around_list (row col : Z) :
  around row col =
  [(row - 1, col - 1); (row - 1, col); (row - 1, col + 1);
   (row, col - 1); (row, col); (row, col + 1);
   (row + 1, col - 1); (row + 1, col); (row + 1, col + 1)].
Proof. unfold around. rewrite !range_three. reflexivity. Qed.

Lemma NoDup_around (row col : Z) : List.NoDup (around row col).
Proof.
  rewrite around_list.
  repeat (constructor;
          [simpl; intros H; repeat (destruct H as [H|H]);
           try (injection H; intros; lia); try contradiction|]).
  constructor.
Qed.

(** Rays in different directions share no cell. *)
Lemma ray_dir_inj (row col ydir xdir ydir' xdir' k k' : Z) :
  unit_dir ydir xdir -> unit_dir ydir' xdir' -> 1 <= k -> 1 <= k' ->
  ray row col ydir xdir k = ray row col ydir' xdir' k' ->
  ydir = ydir' /\ xdir = xdir'.
Proof.
  intros (Hy & Hx & Hnz) (Hy' & Hx' & Hnz') Hk Hk' E.
  unfold ray in E. injection E as E1 E2.
  assert (A : ydir = -1 \/ ydir = 0 \/ ydir = 1) by lia.
  assert (B : xdir = -1 \/ xdir = 0 \/ xdir = 1) by lia.
  assert (C : ydir' = -1 \/ ydir' = 0 \/ ydir' = 1) by lia.
  assert (D : xdir' = -1 \/ xdir' = 0 \/ xdir' = 1) by lia.
  destruct A as [-> | [-> | ->]], B as [-> | [-> | ->]],
           C as [-> | [-> | ->]], D as [-> | [-> | ->]]; lia.
Qed.

Lemma touched_mono (n val row col : Z) (g1 : BoardGridType)
    (pre : list Position) (x : Position) (g : BoardGridType) :
  touched n val row col g1 pre g -> touched n val row col g1 (pre ++ [x]) g.
Proof.
  intros H q Hq. destruct (H q Hq) as [E|(dy & dx & K & k & v & Hin & Hrest)];
    [left; exact E|right].
  exists dy, dx, K, k, v. split; [apply in_or_app; left; exact Hin|exact Hrest].
Qed.

(** A ray whose direction has not been visited is as it was. *)
Lemma touched_fresh_ray (n val row col : Z) (g1 : BoardGridType)
    (pre : list Position) (g : BoardGridType) (dy dx k : Z) :
  touched n val row col g1 pre g -> ~ In (row + dy, col + dx) pre ->
  unit_dir dy dx -> 1 <= k ->
  on_board n (ray row col dy dx k) ->
  cell_at g (ray row col dy dx k) = cell_at g1 (ray row col dy dx k).
Proof.
  intros Ht Hnin Hd Hk Hon.
  destruct (Ht _ Hon) as [E|(dy' & dx' & K & k' & v & Hin & Hd' & _ & Hk' & Eq & _)];
    [exact E|exfalso].
  apply ray_dir_inj in Eq as [-> ->]; auto.
Qed.

Lemma run_fresh (n val row col : Z) (g1 : BoardGridType)
    (pre : list Position) (g : BoardGridType) (dy dx K : Z) :
  touched n val row col g1 pre g -> ~ In (row + dy, col + dx) pre ->
  unit_dir dy dx ->
  (run n g val row col dy dx K <-> run n g1 val row col dy dx K).
Proof.
  intros Ht Hnin Hd. split; intros HK.
  - eapply run_transfer; [exact HK|]. intros k Hk. symmetry.
    apply (touched_fresh_ray n val row col g1 pre); try assumption; [lia|].
    destruct HK as (_ & Hmid & Hend & _).
    destruct (Z.eq_dec k (K + 1)) as [->|]; [exact Hend|apply Hmid; lia].
  - eapply run_transfer; [exact HK|]. intros k Hk.
    apply (touched_fresh_ray n val row col g1 pre); try assumption; [lia|].
    destruct HK as (_ & Hmid & Hend & _).
    destruct (Z.eq_dec k (K + 1)) as [->|]; [exact Hend|apply Hmid; lia].
Qed.

Lemma opening_same_config (s s' : Reversi) :
  same_config s s' -> opening s' = opening s.
Proof. intros (_ & E2 & E3 & _ & E5). unfold opening. now rewrite E2, E3, E5. Qed.

Lemma flip_around_step (n row col : Z) (s1 : Reversi) (pre : list Position)
    (i j : Z) (s : Reversi) :
  _side s1 = n -> shapes n s1 ->
  In (i, j) (around row col) -> ~ In (i, j) pre ->
  around_inv n row col s1 pre s ->
  exists s', flip_around (row, col) s i j = Ok s' /\
             around_inv n row col s1 (pre ++ [(i, j)]) s'.
Proof.
  intros Hside Hsh1 Hin Hnin (Hcfg & Hsh & Hopen & Hnormal).
  apply in_around in Hin as [Hi Hj].
  pose proof Hcfg as (Es & Ep & Eo & Et & En).
  assert (Edir : (i, j) = (row + (i - row), col + (j - col))) by (f_equal; lia).
  (* the state is kept *)
  assert (Hkeep : (forall dy dx K, unit_dir dy dx -> (i, j) = (row + dy, col + dx) ->
                     opening s1 = false -> synced n s1 ->
                     run n (_grid s) (_turn s1) row col dy dx K -> 1 <= K -> False) ->
                  around_inv n row col s1 (pre ++ [(i, j)]) s).
  { intros Hnorun. split; [exact Hcfg|]. split; [exact Hsh|]. split; [exact Hopen|].
    intros Ho1 Hsy1. destruct (Hnormal Ho1 Hsy1) as (Hsy & Htouch & Hcap).
    split; [exact Hsy|]. split; [now apply touched_mono|].
    intros dy dx K k Hin' Hd HK Hk. apply in_app_or in Hin' as [Hin' | [E | []]].
    - eapply Hcap; eassumption.
    - exfalso. apply (Hnorun dy dx K Hd E Ho1 Hsy1); [|lia].
      apply (run_fresh n (_turn s1) row col (_grid s1) pre); try assumption.
      now rewrite <- E. }
  unfold flip_around. rewrite Es, Hside. fold (inb n i j).
  destruct (inb n i j && (negb (i =? row) || negb (j =? col))) eqn:Econd.
  2:{ exists s. split; [reflexivity|]. apply Hkeep.
      intros dy dx K Hd E _ _ HK HK1. injection E as -> ->.
      destruct HK as (_ & Hmid & _). destruct (Hmid 1 ltac:(lia)) as [Hon _].
      rewrite ray_1 in Hon. apply inb_true in Hon. rewrite Hon in Econd.
      destruct Hd as (_ & _ & Hnz). simpl in Econd.
      destruct (Z.eqb_spec (row + dy) row), (Z.eqb_spec (col + dx) col);
        simpl in Econd; try discriminate; lia. }
  apply andb_true_iff in Econd as [Einb Ectr]. apply inb_true in Einb.
  destruct Einb as [Hi' Hj']. simpl in Hi', Hj'.
  assert (Hd : unit_dir (i - row) (j - col)).
  { split; [lia|]. split; [lia|].
    destruct (Z.eqb_spec i row), (Z.eqb_spec j col); simpl in Ectr;
      try discriminate; lia. }
  assert (Hon : on_board n (row + (i - row), col + (j - col)))
    by (split; simpl; lia).
  destruct Hsh as [Hg Hb].
  destruct (grid_get_ok n _ i j Hb Hi' Hj') as (pc & ->). simpl.
  destruct (check_end_ok s n (_turn s) row col (i - row) (j - col) Hg Hd Hon)
    as (e & Ee).
  rewrite Ee. simpl. rewrite Et in Ee.
  destruct e.
  2:{ exists s. split; [reflexivity|]. apply Hkeep.
      intros dy dx K Hd' E _ _ HK _. injection E as E1 E2.
      assert (dy = i - row) by lia. assert (dx = j - col) by lia. subst dy dx.
      assert (check_end s (_turn s1) (row, col) (i - row) (j - col) = Ok true)
        by (apply (check_end_run s n); eauto).
      congruence. }
  replace (_othello s || (_players s ^ 2 <=? _num_moves s)) with (negb (opening s1)).
  2:{ unfold opening. rewrite Eo, Ep, En. rewrite negb_andb, negb_involutive.
      f_equal. rewrite Z.leb_antisym. reflexivity. }
  destruct (opening s1) eqn:Eop; simpl.
  { exists s. split; [reflexivity|]. apply Hkeep. intros; discriminate. }
  destruct (flip_pieces_ok n s (_turn s) row col (i - row) (j - col) Hd
              (conj Hg Hb) Hon) as (s' & -> & Hcfg' & Hsh' & Hfr & Hsync').
  exists s'. split; [reflexivity|].
  split; [eapply same_config_trans; eassumption|]. split; [exact Hsh'|].
  split; [intros; congruence|].
  intros _ Hsy1. destruct (Hnormal eq_refl Hsy1) as (Hsy & Htouch & Hcap).
  destruct (Hsync' Hsy) as (Hsy' & Hprog). split; [exact Hsy'|].
  rewrite Et in Hfr, Hprog.
  assert (Hfresh : ~ In (row + (i - row), col + (j - col)) pre)
    by (rewrite <- Edir; exact Hnin).
  apply (check_end_run s n) in Ee as (K0 & HK0); try assumption.
  apply (run_fresh n (_turn s1) row col (_grid s1) pre) in HK0; try assumption.
  split.
  - intros q Hq.
    destruct (Hfr q Hq) as [Esame|(k & v & Hk & -> & Hv & Hne & Hnew)].
    + rewrite Esame. apply touched_mono. exact Htouch. exact Hq.
    + destruct (Htouch _ Hq) as [E1|(dy & dx & K & k' & v' & _ & _ & _ & _ & _ & _ & _ & Hval)].
      * right. exists (i - row), (j - col), K0, k, v.
        split; [apply in_or_app; right; left; exact Edir|].
        split; [exact Hd|]. split; [exact HK0|]. split; [exact Hk|].
        split; [reflexivity|]. split; [rewrite <- E1; exact Hv|].
        split; [exact Hne|exact Hnew].
      * rewrite Hval in Hv. congruence.
  - intros dy dx K k Hin' Hd' HK Hk. apply in_app_or in Hin' as [Hin' | [E | []]].
    + pose proof (Hcap dy dx K k Hin' Hd' HK Hk) as Hval.
      assert (Hq : on_board n (ray row col dy dx k))
        by (destruct HK as (_ & Hmid & _); apply Hmid; exact Hk).
      destruct (Hfr _ Hq) as [Esame|(k' & v & _ & _ & Hv & Hne & _)].
      * now rewrite Esame.
      * rewrite Hval in Hv. congruence.
    + injection E as E1 E2.
      assert (dy = i - row) by lia. assert (dx = j - col) by lia. subst dy dx.
      apply (Hprog K); [|exact Hk].
      apply (run_fresh n (_turn s1) row col (_grid s1) pre); assumption.
Qed.

Lemma around_inv_init (n row col : Z) (s1 : Reversi) :
  shapes n s1 -> around_inv n row col s1 [] s1.
Proof.
  intros Hsh. split; [apply same_config_refl|]. split; [exact Hsh|].
  split; [reflexivity|]. intros _ Hsy. split; [exact Hsy|]. split.
  - intros q Hq. left. reflexivity.
  - intros dy dx K k [].
Qed.

Lemma around_loop_ok (n row col : Z) (s1 : Reversi) :
  _side s1 = n -> shapes n s1 ->
  exists s2,
    for_ (range (row - 1) (row + 2)) s1
      (fun s i =>
         for_ (range (col - 1) (col + 2)) s
           (fun s j => flip_around (row, col) s i j)) = Ok s2 /\
    around_inv n row col s1 (around row col) s2.
Proof.
  intros Hside Hsh.
  rewrite (for_nested _ _ (fun s i j => flip_around (row, col) s i j)).
  fold (around row col).
  apply (for_inv_prefix (around_inv n row col s1)).
  - now apply around_inv_init.
  - intros pre [i j] post s E Hinv. simpl.
    pose proof (NoDup_around row col) as Hnd. rewrite E in Hnd.
    apply NoDup_remove_2 in Hnd.
    apply flip_around_step; try assumption.
    + rewrite E. apply in_or_app. right. left. reflexivity.
    + intros Hin. apply Hnd. apply in_or_app. left. exact Hin.
Qed.

(** [apply_move] on a cell of the board: the piece is placed (state
    [s1]), the neighbour loop runs (state [s2]), the move counter is
    incremented and [change_turn] is called. *)
Lemma apply_move_steps (self : Reversi) (row col : Z) :
  wf self -> on_board (_side self) (row, col) ->
  exists s1 s2,
    same_config self s1 /\ shapes (_side self) s1 /\
    (forall q, on_board (_side self) q -> q <> (row, col) ->
       cell_at (_grid s1) q = cell_at (_grid self) q) /\
    (cell_at (Board.grid (_board self)) (row, col) = Ok None ->
     cell_at (_grid s1) (row, col) = Ok (Some (_turn self))) /\
    (synced (_side self) self -> synced (_side self) s1) /\
    around_inv (_side self) row col s1 (around row col) s2 /\
    apply_move self (row, col)
    = change_turn (with_num_moves s2 (_num_moves s2 + 1)).
Proof.
  intros Hwf [Hr Hc]. simpl in Hr, Hc. destruct Hwf as [Hside Hpl Hpar Hg Hb Ht].
  set (n := _side self) in *.
  assert (Hplace : exists s1,
    (do '(board1, added) <- Board.add_piece (_board self) (_turn self) (row, col) ;;
     do self1 <-
       (if added then
          do g <- grid_set (_grid self) row col (Some (_turn self)) ;;
          Ok (with_grid (with_board self board1) g)
        else Ok (with_board self board1)) ;;
     Ok self1) = Ok s1 /\
    same_config self s1 /\ shapes n s1 /\
    (forall q, on_board n q -> q <> (row, col) ->
       cell_at (_grid s1) q = cell_at (_grid self) q) /\
    (cell_at (Board.grid (_board self)) (row, col) = Ok None ->
     cell_at (_grid s1) (row, col) = Ok (Some (_turn self))) /\
    (synced n self -> synced n s1)).
  { unfold Board.add_piece.
    destruct (grid_get_ok n _ row col Hb Hr Hc) as (c & Ec). rewrite Ec. simpl.
    destruct c as [pc|]; simpl.
    - exists (with_board self (_board self)). split; [reflexivity|].
      split; [repeat split|]. split; [split; assumption|].
      split; [reflexivity|]. split; [|intros Hsy; exact Hsy].
      unfold cell_at. simpl. rewrite Ec. discriminate.
    - destruct (grid_set_ok n _ row col (Some (mkPiece (_turn self))) Hb Hr Hc)
        as (b' & -> & Hb' & Rb1 & Rb2). simpl.
      destruct (grid_set_ok n _ row col (Some (_turn self)) Hg Hr Hc)
        as (g' & -> & Hg' & Rg1 & Rg2). simpl.
      eexists; split; [reflexivity|]. split; [repeat split|].
      split; [split; assumption|]. simpl. split.
      + intros [qi qj] [Hq1 Hq2] Hne. simpl in *. unfold cell_at. simpl.
        apply Rg2; assumption.
      + split; [intros _; exact Rg1|]. intros Hsy i' j' Hi' Hj'. simpl.
        destruct (decide ((i', j') = (row, col))) as [[= -> ->]|Hne].
        * exists (Some (mkPiece (_turn self))). split; assumption.
        * rewrite Rb2, Rg2 by assumption. apply Hsy; assumption. }
  destruct Hplace as (s1 & Eplace & Hcfg1 & Hsh1 & Hfr1 & Hat1 & Hsy1).
  assert (Hside1 : _side s1 = n) by apply Hcfg1.
  destruct (around_loop_ok n row col s1 Hside1 Hsh1) as (s2 & Eloop & Hinv).
  exists s1, s2. split; [exact Hcfg1|]. split; [exact Hsh1|]. split; [exact Hfr1|].
  split; [exact Hat1|]. split; [exact Hsy1|]. split; [exact Hinv|].
  unfold apply_move. fold n.
  replace ((0 <=? row) && (row <=? n - 1) && ((0 <=? col) && (col <=? n - 1)))
    with true by (symmetry; rewrite !andb_true_iff, !Z.leb_le; lia).
  cbn [negb].
  destruct (Board.add_piece (_board self) (_turn self) (row, col))
    as [[board1 added]|e]; cbn [bind] in Eplace |- *; [|discriminate].
  destruct (if added then _ else _) as [self1|e]; cbn [bind] in Eplace |- *;
    [|discriminate].
  injection Eplace as ->. rewrite Eloop. reflexivity.
Qed.

(** ** apply_move returns *)

Lemma player_after_turn_le (self : Reversi) (k : nat) :
  wf self -> player_after (_players self) (_turn self) k <= _players self.
Proof. intros Hwf. apply player_after_le; apply Hwf. Qed.

Lemma change_turn_wf (self self' : Reversi) :
  wf self -> change_turn self = Ok self' ->
  wf self' /\ self' = with_turn self (_turn self').
Proof.
  intros Hwf E. destruct (change_turn_ok self Hwf) as (s & Es & Hcases).
  rewrite E in Es. injection Es as <-.
  destruct Hcases as [(_ & ->)|(_ & k & _ & _ & -> & _)].
  - split; [exact Hwf|]. now rewrite with_turn_turn.
  - split; [|reflexivity]. apply wf_with_turn; [exact Hwf|].
    now apply player_after_turn_le.
Qed.

(** [apply_move] on a cell of the board returns: it is [change_turn]
    applied to a well-formed state [s2] that has the mover's turn and
    one more move counted. *)
Lemma apply_move_ok (self : Reversi) (pos : Position) :
  wf self -> on_board (_side self) pos ->
  exists s2 self',
    apply_move self pos = Ok self' /\ change_turn s2 = Ok self' /\
    wf s2 /\ wf self' /\
    _side s2 = _side self /\ _players s2 = _players self /\
    _othello s2 = _othello self /\ _turn s2 = _turn self /\
    _num_moves s2 = _num_moves self + 1.
Proof.
  intros Hwf Hon. destruct pos as [row col].
  destruct (apply_move_steps self row col Hwf Hon)
    as (s1 & s2 & Hcfg1 & _ & _ & _ & _ & (Hcfg2 & [Hg2 Hb2] & _) & E).
  pose proof (same_config_trans _ _ _ Hcfg1 Hcfg2) as (E1 & E2 & E3 & E4 & E5).
  assert (Hwf2 : wf (with_num_moves s2 (_num_moves s2 + 1))).
  { destruct Hwf as [Hside Hpl Hpar Hg Hb Ht].
    constructor; simpl; rewrite ?E1, ?E2, ?E4; assumption. }
  destruct (change_turn_ok _ Hwf2) as (self' & Ect & _).
  exists (with_num_moves s2 (_num_moves s2 + 1)), self'.
  split; [now rewrite E|]. split; [exact Ect|]. split; [exact Hwf2|].
  split; [eapply change_turn_wf; eassumption|]. simpl. repeat split; congruence.
Qed.

Lemma has_moves_with_turn (self : Reversi) (t p : Z) :
  has_moves (with_turn self t) p <-> has_moves self p.
Proof. unfold has_moves. now rewrite players_av_moves_with_turn. Qed.

Lemma no_moves_with_turn (self : Reversi) (t p : Z) :
  no_moves (with_turn self t) p <-> no_moves self p.
Proof. unfold no_moves. now rewrite players_av_moves_with_turn. Qed.

(** C2. After [apply_move] on a cell of the board (in particular after
    a legal move of a game in progress) either the game is done, or the
    turn is the first player after the mover, in the cyclic order
    1, ..., P, who has an available move, the players before them having
    none; in particular, when the next player has no move and the player
    after them has one, the turn is the latter. *)
Theorem apply_move_turn_skips (self : Reversi) (pos : Position) :
  wf self -> 1 <= _turn self -> on_board (_side self) pos ->
  exists self',
    apply_move self pos = Ok self' /\
    (done self' = Ok true \/
     (done self' = Ok false /\
      exists k : nat,
        (1 <= k)%nat /\ Z.of_nat k <= _players self /\
        _turn self' = player_after (_players self) (_turn self) k /\
        has_moves self' (_turn self') /\
        forall j, (1 <= j < k)%nat ->
          no_moves self' (player_after (_players self) (_turn self) j))) /\
    (no_moves self' (next_player (_players self) (_turn self)) ->
     has_moves self'
       (next_player (_players self) (next_player (_players self) (_turn self))) ->
     _turn self'
     = next_player (_players self) (next_player (_players self) (_turn self))).
Proof.
  intros Hwf Hturn Hon.
  destruct (apply_move_ok self pos Hwf Hon)
    as (s2 & self' & Eam & Ect & Hwf2 & Hwf' & _ & Ep & _ & Et & _).
  exists self'. split; [exact Eam|].
  destruct (change_turn_ok s2 Hwf2) as (s & Es & Hcases).
  rewrite Ect in Es. injection Es as <-. rewrite Ep, Et in Hcases.
  assert (Hmain :
    done self' = Ok true \/
    (done self' = Ok false /\
     exists k : nat,
       (1 <= k)%nat /\ Z.of_nat k <= _players self /\
       _turn self' = player_after (_players self) (_turn self) k /\
       has_moves self' (_turn self') /\
       forall j, (1 <= j < k)%nat ->
         no_moves self' (player_after (_players self) (_turn self) j))).
  { destruct Hcases as [(Hd & ->)|(Hd & k & Hk & Hkp & -> & Hhas & Hno)].
    - left. exact Hd.
    - right. rewrite done_with_turn. split; [exact Hd|].
      exists k. split; [exact Hk|]. split; [apply Hkp; exact Hturn|].
      split; [reflexivity|]. split; [apply has_moves_with_turn; exact Hhas|].
      intros j Hj. apply no_moves_with_turn. now apply Hno. }
  split; [exact Hmain|].
  intros Hno1 Hhas2.
  destruct Hmain as [Hd|(_ & k & Hk & _ & -> & Hhas & Hno)].
  - exfalso. destruct (done_ok self' Hwf') as [(Hd' & _)|(_ & Hall)]; [congruence|].
    eapply has_no_moves; [exact Hhas2|]. apply Hall.
    assert (Hpl : _players self' = _players self).
    { destruct (change_turn_wf _ _ Hwf2 Ect) as [_ ->]. simpl. exact Ep. }
    rewrite Hpl. destruct Hwf as [_ Hpl' _ _ _ Ht]. unfold next_player.
    destruct (Z.eqb_spec (_turn self) (_players self));
      [destruct (Z.eqb_spec 1 (_players self))|
       destruct (Z.eqb_spec (_turn self + 1) (_players self))]; lia.
  - destruct k as [|[|[|k]]]; [lia| | |].
    + exfalso. eapply has_no_moves; [exact Hhas|exact Hno1].
    + reflexivity.
    + exfalso. eapply has_no_moves; [exact Hhas2|]. apply (Hno 2%nat). lia.
Qed.

(** ** simulate_moves *)

Lemma unchanged_read (h h' : heap) (l : loc) (v : Reversi) :
  unchanged h h' -> read h l = Some v -> read h' l = Some v.
Proof.
  intros [He Hl]. unfold read.
  destruct (engines h !! l) as [o|] eqn:Eo; [|discriminate].
  destruct (lists h !! obj_grid o) as [g|] eqn:Eg; [|discriminate].
  intros E. now rewrite (He _ _ Eo), (Hl _ _ Eg).
Qed.

Lemma read_write (h : heap) (l : loc) (o : ReversiObj) (v : Reversi) :
  engines h !! l = Some o -> read (write h l v) l = Some v.
Proof.
  intros Eo. unfold write, read. rewrite Eo. simpl.
  rewrite lookup_insert_eq. simpl. rewrite lookup_insert_eq. now destruct v.
Qed.

(** The engines of [h0] do not see the writes to an engine and a list
    that [h0] does not have. *)
Lemma unchanged_write (h0 h : heap) (sim : loc) (o : ReversiObj) (v : Reversi) :
  unchanged h0 h ->
  engines h !! sim = Some o -> engines h0 !! sim = None ->
  lists h0 !! obj_grid o = None ->
  unchanged h0 (write h sim v) /\
  exists o', engines (write h sim v) !! sim = Some o' /\ obj_grid o' = obj_grid o.
Proof.
  intros [He Hl] Eo Hfe Hfl. unfold write. rewrite Eo. split; [split|]; simpl.
  - intros l o0 E0. rewrite lookup_insert_ne; [now apply He|congruence].
  - intros r g E0. rewrite lookup_insert_ne; [now apply Hl|congruence].
  - rewrite lookup_insert_eq. eauto.
Qed.

Lemma simulate_loop_ok (h0 : heap) (side : Z) (sim : loc) (moves : ListMovesType) :
  engines h0 !! sim = None ->
  forall (h : heap) (o : ReversiObj) (v : Reversi),
    unchanged h0 h -> engines h !! sim = Some o ->
    lists h0 !! obj_grid o = None ->
    read h sim = Some v -> wf v -> _side v = side ->
    (Forall (on_board side) moves ->
     exists h' v',
       simulate_loop side h sim moves = (h', Ok tt) /\
       for_ moves v apply_move = Ok v' /\
       read h' sim = Some v' /\ unchanged h0 h') /\
    (~ Forall (on_board side) moves ->
     exists h',
       simulate_loop side h sim moves = (h', Raise ValueError) /\
       unchanged h0 h').
Proof.
  intros Hfe. induction moves as [|[row col] moves IH];
    intros h o v Hun Eo Hfl Er Hwf Hside.
  - split.
    + intros _. exists h, v. simpl. auto.
    + intros Hn. exfalso. apply Hn. constructor.
  - cbn [simulate_loop for_]. fold (inb side row col).
    destruct (inb side row col) eqn:Einb; cbn [negb].
    + apply inb_true in Einb.
      unfold obj_apply_move. rewrite Er.
      destruct (apply_move_ok v (row, col) Hwf)
        as (s2 & v1 & Eam & _ & _ & Hwf1 & Hs2 & _ & _ & _ & _);
        [now rewrite Hside|].
      rewrite Eam. cbn [bind].
      destruct (unchanged_write h0 h sim o v1 Hun Eo Hfe Hfl)
        as (Hun1 & o1 & Eo1 & Eg1).
      assert (Hside1 : _side v1 = side).
      { destruct (apply_move_ok v (row, col) Hwf) as
          (s2' & v1' & Eam' & Ect' & Hwf2' & _ & Hs2' & _);
          [now rewrite Hside|].
        rewrite Eam in Eam'. injection Eam' as <-.
        destruct (change_turn_wf _ _ Hwf2' Ect') as [_ ->]. simpl. congruence. }
      destruct (IH (write h sim v1) o1 v1 Hun1 Eo1) as [IHok IHbad];
        [now rewrite Eg1|now apply (read_write h sim o)|exact Hwf1|exact Hside1|].
      split.
      * intros Hall. apply Forall_cons_iff in Hall as [_ Hall].
        destruct (IHok Hall) as (h' & v' & E1 & E2 & E3 & E4).
        exists h', v'. repeat split; try assumption; apply E4.
      * intros Hn. apply IHbad. intros Hall. apply Hn. constructor; assumption.
    + split.
      * intros Hall. apply Forall_cons_iff in Hall as [Hon _].
        apply inb_true in Hon. congruence.
      * intros _. exists h. split; [reflexivity|exact Hun].
Qed.

(** C3. [simulate_moves] on a well-formed engine and moves that are all
    on the board returns a new engine object whose state is the result
    of applying the moves in sequence with [apply_move] (hence with the
    turn skipping of live play), and raises [ValueError] when some move
    is off the board; either way every object that existed before the
    call, the receiver included, is exactly as it was. *)
Theorem simulate_moves_leaves_receiver (h : heap) (l : loc) (self : Reversi)
    (moves : ListMovesType) :
  read h l = Some self -> wf self ->
  (Forall (on_board (_side self)) moves ->
   exists h' sim final,
     obj_simulate_moves h l moves = Some (h', Ok sim) /\
     engines h !! sim = None /\
     read h' sim = Some final /\
     for_ moves self apply_move = Ok final /\
     unchanged h h' /\ read h' l = Some self) /\
  (~ Forall (on_board (_side self)) moves ->
   exists h',
     obj_simulate_moves h l moves = Some (h', Raise ValueError) /\
     unchanged h h' /\ read h' l = Some self).
Proof.
  intros Er Hwf. unfold obj_simulate_moves, deepcopy.
  pose proof Er as Er'. unfold read in Er'.
  destruct (engines h !! l) as [o|] eqn:Eo; [|discriminate].
  destruct (lists h !! obj_grid o) as [g|] eqn:Eg; [|discriminate].
  injection Er' as <-. simpl _side.
  set (lg := fresh (dom (lists h))). set (le := fresh (dom (engines h))).
  set (h1 := mkHeap _ _).
  assert (Hfl : lists h !! lg = None) by (apply not_elem_of_dom, is_fresh).
  assert (Hfe : engines h !! le = None) by (apply not_elem_of_dom, is_fresh).
  assert (Hun1 : unchanged h h1).
  { split; simpl.
    - intros l0 o0 E0. rewrite lookup_insert_ne; [exact E0|congruence].
    - intros r g0 E0. rewrite lookup_insert_ne; [exact E0|congruence]. }
  set (o1 := mkObj (obj_side o) (obj_players o) (obj_othello o) (obj_board o) lg
               (obj_turn o) (obj_num_moves o)).
  assert (Eo1 : engines h1 !! le = Some o1) by (simpl; apply lookup_insert_eq).
  assert (Er1 : read h1 le =
                Some (mkReversi (obj_side o) (obj_players o) (obj_othello o)
                        (obj_board o) g (obj_turn o) (obj_num_moves o))).
  { unfold read. rewrite Eo1. simpl. now rewrite lookup_insert_eq. }
  destruct (simulate_loop_ok h (obj_side o) le moves Hfe h1 o1 _ Hun1 Eo1 Hfl Er1 Hwf
              eq_refl) as [Hok Hbad].
  split.
  - intros Hall. destruct (Hok Hall) as (h' & v' & E1 & E2 & E3 & E4).
    rewrite E1. exists h', le, v'. repeat split; try assumption; try apply E4.
    eapply unchanged_read; eassumption.
  - intros Hn. destruct (Hbad Hn) as (h' & E1 & E2). rewrite E1.
    exists h'. repeat split; try apply E2. eapply unchanged_read; eassumption.
Qed.

(** ** What apply_move does to the board *)

Lemma piece_at_on_board (self : Reversi) (q : Position) :
  on_board (_side self) q -> piece_at self q = cell_at (_grid self) q.
Proof.
  destruct q as [i j]. intros [Hi Hj]. simpl in Hi, Hj. unfold piece_at.
  replace ((0 <=? i) && (i <=? _side self - 1) && ((0 <=? j) && (j <=? _side self - 1)))
    with true by (symmetry; rewrite !andb_true_iff, !Z.leb_le; lia).
  reflexivity.
Qed.

(** A legal move is a cell of the board that holds no piece. *)
Lemma legal_move_candidate (self : Reversi) (pos : Position) :
  wf self -> legal_move self pos = Ok true -> candidate self pos.
Proof.
  intros Hwf. unfold legal_move. destruct pos as [row col].
  destruct (negb _); [discriminate|]. unfold available_moves.
  destruct (players_av_moves_ok self (_turn self) Hwf) as (mv & -> & Hmv).
  simpl. intros [= E]. apply Hmv. now apply pos_mem_In.
Qed.

Lemma candidate_board_empty (self : Reversi) (pos : Position) :
  synced (_side self) self -> candidate self pos ->
  cell_at (Board.grid (_board self)) pos = Ok None.
Proof.
  intros Hsy [[Hi Hj] Hc]. destruct (opening self); [|exact Hc].
  destruct (Hsy _ _ Hi Hj) as (pc & Epc & Eg). unfold cell_at. rewrite Epc.
  rewrite Hc in Eg. destruct pc; [discriminate|reflexivity].
Qed.

(** Placing a piece at [pos] does not change which runs start there. *)
Lemma run_placed (n : Z) (g g1 : BoardGridType) (val row col dy dx K : Z) :
  (forall q, on_board n q -> q <> (row, col) -> cell_at g1 q = cell_at g q) ->
  unit_dir dy dx ->
  (run n g1 val row col dy dx K <-> run n g val row col dy dx K).
Proof.
  intros Hsame Hd.
  assert (Hray : forall k, 1 <= k -> on_board n (ray row col dy dx k) ->
            cell_at g1 (ray row col dy dx k) = cell_at g (ray row col dy dx k)).
  { intros k Hk Hon. apply Hsame; [exact Hon|]. now apply ray_ne_start. }
  split; intros HK; (eapply run_transfer; [exact HK|]); intros k Hk;
    [symmetry|]; apply Hray; try lia;
    destruct HK as (_ & Hmid & Hend & _);
    (destruct (Z.eq_dec k (K + 1)) as [->|]; [exact Hend|apply Hmid; lia]).
Qed.

(** C1, as the code has it.  On a well-formed state whose [_grid] and
    [_board] agree, [apply_move] on a legal position places the mover's
    piece there.  In the opening phase no other cell changes.  After
    the opening phase every piece of an outflanked run from the
    position becomes the mover's, and a cell that is neither on such a
    run nor further along a ray than a piece of the mover is left as it
    was. *)
Theorem apply_move_places_and_flips (self : Reversi) (pos : Position) :
  wf self -> synced (_side self) self -> legal_move self pos = Ok true ->
  exists self',
    apply_move self pos = Ok self' /\
    piece_at self' pos = Ok (Some (_turn self)) /\
    (opening self = true ->
     forall q, on_board (_side self) q -> q <> pos ->
       piece_at self' q = piece_at self q) /\
    (opening self = false ->
     (forall q, on_run self pos q -> piece_at self' q = Ok (Some (_turn self))) /\
     (forall q, on_board (_side self) q -> q <> pos ->
        ~ on_run self pos q -> ~ behind_own self pos q ->
        piece_at self' q = piece_at self q)).
Proof.
  intros Hwf Hsy Hlegal.
  pose proof (legal_move_candidate self pos Hwf Hlegal) as Hcand.
  pose proof (candidate_board_empty self pos Hsy Hcand) as Hempty.
  destruct Hcand as [Hon _]. destruct pos as [row col].
  set (n := _side self) in *.
  destruct (apply_move_steps self row col Hwf Hon)
    as (s1 & s2 & Hcfg1 & Hsh1 & Hfr1 & Hat1 & Hsy1 & Hinv & Eam).
  pose proof (Hat1 Hempty) as Hpos1. specialize (Hsy1 Hsy).
  destruct Hinv as (Hcfg2 & Hsh2 & Hopen & Hnormal).
  pose proof Hcfg1 as (E1 & _ & _ & Et1 & _). pose proof Hcfg2 as (E2 & _).
  rewrite (opening_same_config self s1 Hcfg1) in Hopen, Hnormal.
  destruct (apply_move_ok self (row, col) Hwf Hon)
    as (s2' & self' & Eam' & Ect & Hwf2 & Hwf' & _).
  rewrite Eam in Eam'.
  assert (Hself' : self' = with_turn (with_num_moves s2 (_num_moves s2 + 1))
                             (_turn self')).
  { assert (Hwfn : wf (with_num_moves s2 (_num_moves s2 + 1))).
    { destruct Hwf as [Hside Hpl Hpar Hg Hb Ht].
      destruct (same_config_trans _ _ _ Hcfg1 Hcfg2) as (F1 & F2 & F3 & F4 & F5).
      destruct Hsh2 as [Hg2 Hb2]. fold n in F1.
      constructor; simpl; rewrite ?F1, ?F2, ?F4; assumption. }
    eapply change_turn_wf; eassumption. }
  assert (Hpiece : forall q, on_board n q ->
            piece_at self' q = cell_at (_grid s2) q).
  { intros q Hq. rewrite piece_at_on_board; rewrite Hself'; simpl; [reflexivity|].
    rewrite E2, E1. exact Hq. }
  exists self'. split; [now rewrite Eam|].
  destruct (opening self) eqn:Eop.
  - (* opening phase: the loop changed nothing *)
    rewrite (Hopen eq_refl) in Hpiece.
    split; [rewrite Hpiece by exact Hon; exact Hpos1|].
    split; [|intros; discriminate].
    intros _ q Hq Hne. rewrite Hpiece, piece_at_on_board by exact Hq.
    now apply Hfr1.
  - destruct (Hnormal eq_refl Hsy1) as (_ & Htouch & Hcap).
    rewrite Et1 in Htouch, Hcap.
    split.
    { rewrite Hpiece by exact Hon.
      destruct (Htouch _ Hon) as [E|(dy & dx & K & k & v & _ & _ & _ & _ & _ & Hv & Hne & _)].
      - rewrite E. exact Hpos1.
      - rewrite Hpos1 in Hv. congruence. }
    split; [intros; discriminate|]. intros _. split.
    + intros q (dy & dx & K & k & Hd & HK & Hk & ->). cbn [fst snd] in HK |- *.
      assert (Hq : on_board n (ray row col dy dx k))
        by (destruct HK as (_ & Hmid & _); apply Hmid; exact Hk).
      rewrite Hpiece by exact Hq.
      apply (Hcap dy dx K k); try assumption.
      * apply in_around. destruct Hd as (Hy & Hx & _). lia.
      * now apply (run_placed n (_grid self) (_grid s1)).
    + intros q Hq Hne Hnrun Hnbehind.
      rewrite Hpiece, piece_at_on_board by exact Hq.
      destruct (Htouch _ Hq) as [E|(dy & dx & K & k & v & _ & Hd & HK & Hk & -> & Hv & Hvne & _)].
      * rewrite E. now apply Hfr1.
      * exfalso.
        pose proof (proj1 (run_placed n (_grid self) (_grid s1) (_turn self) row col dy dx K
                             Hfr1 Hd) HK) as HK'.
        destruct (Z_le_gt_dec k K) as [Hle|Hgt].
        -- apply Hnrun. exists dy, dx, K, k. cbn [fst snd]. auto.
        -- destruct HK as (HK0 & _ & Hend1 & Hend2).
           destruct (Z.eq_dec k (K + 1)) as [->|Hne'].
           ++ rewrite Hend2 in Hv. congruence.
           ++ apply Hnbehind. exists dy, dx, (K + 1), k. cbn [fst snd].
              split; [exact Hd|]. split; [lia|]. split; [reflexivity|].
              split; [exact Hend1|]. apply HK'.
Qed.

(** ** The look-ahead bot *)

Lemma simulate_one (self : Reversi) (move : Position) :
  wf self -> on_board (_side self) move ->
  exists s, simulate_moves self [move] = Ok s /\ apply_move self move = Ok s /\ wf s.
Proof.
  intros Hwf Hon. unfold simulate_moves. cbn [for_]. destruct move as [row col].
  fold (inb (_side self) row col).
  rewrite (proj2 (inb_true _ _ _) Hon). cbn [negb].
  destruct (apply_move_ok self (row, col) Hwf Hon) as (s2 & s & E & _ & _ & Hwf' & _).
  rewrite E. exists s. auto.
Qed.

Section BotProperties.

Variable float : Type.
Variable neg_inf : float.
Variable fdiv : Z -> Z -> float.
Variable fgt feq : float -> float -> bool.
Variable randint : Z -> Z -> Z.
Hypothesis randint_range : forall a b, a <= b -> a <= randint a b <= b.

(** A candidate after which the game goes on is passed over without an
    exception. *)
Lemma seer_loop_step (revgame : Reversi) (turn : Z) (move : Position)
    (rest : ListMovesType) (highest : float) (best : ListMovesType)
    (step_one : Reversi) :
  wf revgame -> on_board (_side revgame) move ->
  simulate_moves revgame [move] = Ok step_one -> done step_one = Ok false ->
  exists highest' best',
    seer_loop float fdiv fgt feq revgame turn (move :: rest) highest best
    = seer_loop float fdiv fgt feq revgame turn rest highest' best'.
Proof.
  intros Hwf Hon Esim Hdone. cbn [seer_loop]. rewrite Esim. cbn [bind].
  rewrite Hdone. cbn [bind].
  destruct (simulate_one revgame move Hwf Hon) as (s & Es & _ & Hwf1).
  rewrite Esim in Es. injection Es as <-.
  unfold available_moves.
  destruct (players_av_moves_ok step_one (_turn step_one) Hwf1) as (np & -> & Hnp).
  cbn [bind]. destruct (nonempty np); [|eauto].
  destruct (for_inv (fun _ : Z => True) np
              (fun total move_two =>
                 do final <- simulate_moves step_one [move_two] ;;
                 Ok (total + count_cells (_grid final) turn)) 0 I)
    as (total & -> & _).
  { intros total m2 Hin _. apply Hnp in Hin as [Hon2 _].
    destruct (simulate_one step_one m2 Hwf1 Hon2) as (s & -> & _). simpl. eauto. }
  cbn [bind]. destruct (fgt _ _); [eauto|]. destruct (feq _ _); eauto.
Qed.

(** C9. The candidates are taken in the order of [available_moves];
    when [m] is the first one whose simulation ends the game, the loop
    returns [m] alone whatever candidates come after it (so none of
    them is simulated or compared), and [m] is the move applied to the
    live game. *)
Theorem seer_move_first_done (revgame : Reversi) (turn : Z)
    (pre : ListMovesType) (m : Position) (post : ListMovesType)
    (step_one : Reversi) :
  wf revgame ->
  available_moves revgame = Ok (pre ++ m :: post) ->
  (forall x, In x pre ->
     exists s, simulate_moves revgame [x] = Ok s /\ done s = Ok false) ->
  simulate_moves revgame [m] = Ok step_one -> done step_one = Ok true ->
  (forall post' highest best,
     seer_loop float fdiv fgt feq revgame turn (pre ++ m :: post') highest best = Ok [m]) /\
  seer_move float neg_inf fdiv fgt feq randint revgame turn = apply_move revgame m.
Proof.
  intros Hwf Eav Hpre Esim Hdone.
  assert (Hon : forall x, In x pre -> on_board (_side revgame) x).
  { intros x Hx. unfold available_moves in Eav.
    destruct (players_av_moves_ok revgame (_turn revgame) Hwf) as (mv & Emv & Hmv).
    rewrite Eav in Emv. injection Emv as <-.
    apply Hmv. apply in_or_app. left. exact Hx. }
  assert (Hloop : forall post' highest best,
            seer_loop float fdiv fgt feq revgame turn (pre ++ m :: post') highest best = Ok [m]).
  { clear Eav. intros post'. induction pre as [|x pre IH]; intros highest best.
    - cbn [app seer_loop]. rewrite Esim. cbn [bind]. rewrite Hdone. reflexivity.
    - destruct (Hpre x (or_introl eq_refl)) as (s & Es & Hd).
      rewrite <- app_comm_cons.
      destruct (seer_loop_step revgame turn x (pre ++ m :: post') highest best s Hwf)
        as (h' & b' & ->); try assumption.
      + apply Hon. now left.
      + apply IH.
        * intros y Hy. apply Hpre. now right.
        * intros y Hy. apply Hon. now right. }
  split; [exact Hloop|].
  unfold seer_move. rewrite Eav. cbn [bind]. rewrite Hloop. cbn [bind nonempty].
  change (len [m] - 1) with 0.
  pose proof (randint_range 0 0 ltac:(lia)) as Hpick.
  replace (randint 0 0) with 0 by lia.
  reflexivity.
Qed.

End BotProperties.

(** ** The order of the list of available moves *)

Lemma pos_ltb_lt (p q : Position) : pos_ltb p q = true <-> pos_lt p q.
Proof.
  unfold pos_ltb, pos_lt.
  rewrite orb_true_iff, andb_true_iff, !Z.ltb_lt, Z.eqb_eq. tauto.
Qed.

Lemma insert_sorted_ascending (p : Position) (l : ListMovesType) :
  ascending l -> ~ In p l -> ascending (insert_sorted p l).
Proof.
  unfold ascending. induction l as [|q l IH]; intros Hs Hnin; simpl.
  - repeat constructor.
  - apply StronglySorted_inv in Hs as [Hs Hq].
    destruct (pos_ltb q p) eqn:E.
    + apply pos_ltb_lt in E. constructor.
      * apply IH; [exact Hs|]. intros Hin. apply Hnin. now right.
      * apply Forall_forall. intros x Hx. apply list_elem_of_In in Hx.
        apply in_insert_sorted in Hx as [->|Hx]; [exact E|].
        rewrite Forall_forall in Hq. apply Hq. now apply list_elem_of_In.
    + assert (Hpq : pos_lt p q).
      { assert (Hn : ~ pos_lt q p)
          by (intros H; apply pos_ltb_lt in H; congruence).
        assert (p <> q) by (intros ->; apply Hnin; now left).
        destruct p as [a b], q as [c d]. unfold pos_lt in *. simpl in *.
        assert (a <> c \/ b <> d) by (destruct (Z.eq_dec a c); [right; congruence|now left]).
        lia. }
      constructor; [constructor; assumption|].
      constructor; [exact Hpq|].
      rewrite Forall_forall in Hq |- *. intros x Hx. specialize (Hq x Hx).
      destruct p as [a b], q as [c d], x as [e f]. unfold pos_lt in *. simpl in *. lia.
Qed.

Lemma sort_ascending (l : ListMovesType) : List.NoDup l -> ascending (sort l).
Proof.
  induction 1 as [|x l Hnin Hnd IH]; simpl.
  - constructor.
  - apply insert_sorted_ascending; [exact IH|]. now rewrite in_sort.
Qed.

Lemma set_add_NoDup (p : Position) (s : ListMovesType) :
  List.NoDup s -> List.NoDup (set_add p s).
Proof.
  intros Hnd. unfold set_add. destruct (pos_mem p s) eqn:E; [exact Hnd|].
  constructor; [|exact Hnd]. intros Hin. apply pos_mem_In in Hin. congruence.
Qed.

(** Whatever [players_av_moves] returns is strictly ascending. *)
Lemma players_av_moves_ascending (self : Reversi) (turn : Z) (mv : ListMovesType) :
  players_av_moves self turn = Ok mv -> ascending mv.
Proof.
  unfold players_av_moves. intros H. apply bind_ok in H as (possible & Hp & [= <-]).
  apply sort_ascending.
  destruct (negb (_othello self) && (_num_moves self <? _players self ^ 2)).
  - revert Hp. apply for_inv_ok; [constructor|].
    intros s i s' _ Hs. apply for_inv_ok; [exact Hs|].
    intros s1 j s1' _ Hs1 E. apply bind_ok in E as (c & _ & E).
    destruct (is_None c); injection E as <-; [now apply set_add_NoDup|exact Hs1].
  - apply bind_ok in Hp as (os & _ & Hp). revert Hp.
    apply for_inv_ok; [constructor|].
    intros s [row col] s' _ Hs. apply for_inv_ok; [exact Hs|].
    intros s1 i s1' _ Hs1. apply for_inv_ok; [exact Hs1|].
    intros s2 j s2' _ Hs2 E. apply bind_ok in E as (b & _ & E).
    destruct (b && _); [|injection E as <-; exact Hs2].
    apply bind_ok in E as (c & _ & E).
    destruct (negb (cell_eq c turn)); [|injection E as <-; exact Hs2].
    apply bind_ok in E as (e & _ & E).
    destruct e; injection E as <-; [now apply set_add_NoDup|exact Hs2].
Qed.

(** On a well-formed state whose [_grid] and [_board] agree, the moves
    of any player are returned in strictly ascending order, lie on the
    board and are empty cells. *)
Lemma players_av_moves_sound (self : Reversi) (turn : Z) :
  wf self -> synced (_side self) self ->
  exists mv,
    players_av_moves self turn = Ok mv /\ ascending mv /\
    forall p, In p mv ->
      on_board (_side self) p /\ piece_at self p = Ok None.
Proof.
  intros Hwf Hsy. destruct (players_av_moves_ok self turn Hwf) as (mv & E & Hmv).
  exists mv. split; [exact E|]. split; [eapply players_av_moves_ascending; exact E|].
  intros p Hp. pose proof (Hmv p Hp) as Hc. pose proof Hc as [Hon _].
  split; [exact Hon|]. rewrite piece_at_on_board by exact Hon.
  pose proof (candidate_board_empty self p Hsy Hc) as Hb.
  destruct Hon as [Hi Hj]. destruct (Hsy _ _ Hi Hj) as (pc & Epc & Eg).
  unfold cell_at in *. rewrite Hb in Epc. injection Epc as <-. exact Eg.
Qed.

(** ** Moves keep the two boards in agreement *)

(** [apply_move] keeps [_grid] and [_board] in agreement. *)
Lemma apply_move_synced (self self' : Reversi) (pos : Position) :
  wf self -> synced (_side self) self -> on_board (_side self) pos ->
  apply_move self pos = Ok self' -> synced (_side self') self'.
Proof.
  intros Hwf Hsy Hon E. destruct pos as [row col].
  destruct (apply_move_steps self row col Hwf Hon)
    as (s1 & s2 & Hcfg1 & Hsh1 & _ & _ & Hsy1 & (Hcfg2 & Hsh2 & Hopen & Hnormal) & Eam).
  specialize (Hsy1 Hsy).
  assert (Hsy2 : synced (_side self) s2).
  { destruct (opening s1) eqn:Eop.
    - now rewrite (Hopen eq_refl).
    - apply (Hnormal eq_refl Hsy1). }
  destruct (same_config_trans _ _ _ Hcfg1 Hcfg2) as (F1 & F2 & F3 & F4 & F5).
  assert (Hwfn : wf (with_num_moves s2 (_num_moves s2 + 1))).
  { destruct Hwf as [Hside Hpl Hpar Hg Hb Ht]. destruct Hsh2 as [Hg2 Hb2].
    constructor; simpl; rewrite ?F1, ?F2, ?F4; assumption. }
  rewrite Eam in E. destruct (change_turn_wf _ _ Hwfn E) as [_ ->]. simpl.
  rewrite F1. exact Hsy2.
Qed.

(** ** The states the constructor builds *)

(** What one iteration establishes, and every iteration keeps, holds
    at the end of a loop. *)
Lemma for_once {X S : Type} (B P : S -> Prop) (xs : list X)
    (body : S -> X -> result S) (x : X) :
  In x xs ->
  (forall y s s1, In y xs -> B s -> body s y = Ok s1 -> B s1) ->
  (forall s s1, B s -> body s x = Ok s1 -> P s1) ->
  (forall y s s1, In y xs -> B s -> P s -> body s y = Ok s1 -> P s1) ->
  forall s0 s', B s0 -> for_ xs s0 body = Ok s' -> P s'.
Proof.
  intros Hin HB Hx HP.
  assert (Hkeep : forall ys s0 s', (forall y, In y ys -> In y xs) ->
            B s0 -> P s0 -> for_ ys s0 body = Ok s' -> P s').
  { induction ys as [|y ys IH]; intros s0 s' Hsub HB0 HP0; simpl.
    - now intros [= <-].
    - intros E. apply bind_ok in E as (s1 & E1 & E2).
      apply (IH s1 s'); try assumption.
      + intros z Hz. apply Hsub. now right.
      + eapply HB; [apply Hsub; now left|exact HB0|exact E1].
      + eapply HP; [apply Hsub; now left|exact HB0|exact HP0|exact E1]. }
  assert (G : forall ys s0 s', (forall y, In y ys -> In y xs) -> In x ys ->
            B s0 -> for_ ys s0 body = Ok s' -> P s').
  { induction ys as [|y ys IH]; intros s0 s' Hsub Hxin HB0; simpl; [destruct Hxin|].
    intros E. apply bind_ok in E as (s1 & E1 & E2).
    assert (HB1 : B s1) by (eapply HB; [apply Hsub; now left|exact HB0|exact E1]).
    destruct Hxin as [->|Hxin].
    - apply (Hkeep ys s1 s'); try assumption.
      + intros z Hz. apply Hsub. now right.
      + exact (Hx s0 s1 HB0 E1).
    - apply (IH s1 s'); try assumption. intros z Hz. apply Hsub. now right. }
  intros s0 s'. apply G; auto.
Qed.

Lemma enumerate_lookup {A : Type} (l : list A) (i : Z) (a : A) :
  0 <= i -> l !! Z.to_nat i = Some a -> In (i, a) (enumerate l).
Proof.
  intros Hi E. unfold enumerate, range, len. rewrite Z.sub_0_r, Nat2Z.id.
  assert (G : forall (l : list A) (s k : nat),
            l !! k = Some a ->
            In (0 + Z.of_nat (s + k), a)
              (combine (map (fun k : nat => 0 + Z.of_nat k) (seq s (length l))) l)).
  { clear. induction l as [|x l IH]; intros s k E; [discriminate|].
    destruct k as [|k]; simpl in *.
    - injection E as ->. left. f_equal. f_equal. lia.
    - right. replace (s + S k)%nat with (S s + k)%nat by lia. now apply IH. }
  specialize (G l 0%nat (Z.to_nat i) E).
  replace (0 + Z.of_nat (0 + Z.to_nat i)) with i in G by lia. exact G.
Qed.

Lemma lookup_repeat {A : Type} (x : A) (n i : nat) :
  (i < n)%nat -> repeat x n !! i = Some x.
Proof.
  revert i. induction n as [|n IH]; intros i Hi; [lia|].
  destruct i as [|i]; simpl; [reflexivity|]. apply IH. lia.
Qed.

(** The grid that the constructor fills shows the values of the pieces
    of the board. *)
Lemma fill_grid_synced (n : Z) (bg : list (list (option Piece)))
    (g : list (list (option Z))) :
  shape n bg ->
  for_ (enumerate bg) (empty_grid n)
    (fun g '(i, row) =>
       for_ (enumerate row) g
         (fun g '(j, piece) =>
            match piece with
            | Some p => grid_set g i j (Some (value p))
            | None => Ok g
            end)) = Ok g ->
  shape n g /\
  forall i j, 0 <= i < n -> 0 <= j < n ->
    exists pc, grid_get bg i j = Ok pc /\ grid_get g i j = Ok (option_map value pc).
Proof.
  intros Hb Hfill.
  set (inner := fun (i : Z) (g : list (list (option Z))) (jp : Z * option Piece) =>
                  let '(j, piece) := jp in
                  match piece with
                  | Some p => grid_set g i j (Some (value p))
                  | None => Ok g
                  end).
  set (outer := fun (g : list (list (option Z))) (ir : Z * list (option Piece)) =>
                  let '(i, row) := ir in for_ (enumerate row) g (inner i)).
  change (for_ (enumerate bg) (empty_grid n) outer = Ok g) in Hfill.
  (* a cell written by the loop: where, and what *)
  assert (Hin : forall i row j piece,
            In (i, row) (enumerate bg) -> In (j, piece) (enumerate row) ->
            0 <= i < n /\ 0 <= j < n /\ grid_get bg i j = Ok piece).
  { intros i row j piece Hi Hj.
    apply in_enumerate in Hi as [Hi Ei]. apply in_enumerate in Hj as [Hj Ej].
    destruct Hb as [Hlen Hrows].
    assert (Hr : len row = n).
    { apply Hrows, list_elem_of_In. eapply list_elem_of_lookup_2; eassumption. }
    split; [lia|]. split; [lia|]. unfold grid_get.
    rewrite (getitem_lookup bg i row) by (try lia; assumption). simpl.
    apply getitem_lookup; [lia|assumption]. }
  assert (Hinner : forall i row j piece s s1,
            In (i, row) (enumerate bg) -> In (j, piece) (enumerate row) ->
            shape n s -> inner i s (j, piece) = Ok s1 ->
            shape n s1 /\
            (forall i' j', 0 <= i' < n -> 0 <= j' < n -> (i', j') <> (i, j) ->
               grid_get s1 i' j' = grid_get s i' j') /\
            (forall p, piece = Some p -> grid_get s1 i j = Ok (Some (value p))) /\
            (piece = None -> s1 = s)).
  { intros i row j piece s s1 Hi Hj Hs E.
    destruct (Hin _ _ _ _ Hi Hj) as (Hi' & Hj' & _). simpl in E.
    destruct piece as [p|].
    - destruct (grid_set_ok n s i j (Some (value p)) Hs Hi' Hj')
        as (s1' & E' & Hs1 & R1 & R2).
      rewrite E in E'. injection E' as <-.
      split; [exact Hs1|]. split; [exact R2|]. split; [|discriminate].
      intros p' [= <-]. exact R1.
    - injection E as <-. split; [exact Hs|]. split; [reflexivity|].
      split; [discriminate|reflexivity]. }
  assert (Hshape_in : forall i row s s1,
            In (i, row) (enumerate bg) -> shape n s ->
            for_ (enumerate row) s (inner i) = Ok s1 -> shape n s1).
  { intros i row s s1 Hi Hs. apply for_inv_ok; [exact Hs|].
    intros s2 [j piece] s3 Hj Hs2 E.
    exact (proj1 (Hinner _ _ _ _ _ _ Hi Hj Hs2 E)). }
  assert (Hshape_out : forall ir s s1,
            In ir (enumerate bg) -> shape n s -> outer s ir = Ok s1 -> shape n s1).
  { intros [i row] s s1 Hi Hs E. eapply Hshape_in; eassumption. }
  assert (Hn : 0 <= n) by (destruct Hb as [<- _]; unfold len; lia).
  pose proof (@shape_empty_grid Z n Hn) as Hs0.
  split.
  { revert Hfill. apply for_inv_ok; [exact Hs0|].
    intros s ir s1 Hir Hs E. eapply Hshape_out; eassumption. }
  intros i0 j0 Hi0 Hj0.
  destruct (shape_row n bg i0 Hb Hi0) as (row0 & Erow0 & Elk0 & Hlen0).
  destruct (getitem_ok row0 j0) as (pc & Epc & Elk); [lia|].
  exists pc. split; [unfold grid_get; rewrite Erow0; exact Epc|].
  assert (Hi0in : In (i0, row0) (enumerate bg)) by (apply enumerate_lookup; [lia|assumption]).
  assert (Hj0in : In (j0, pc) (enumerate row0)) by (apply enumerate_lookup; [lia|assumption]).
  (* every iteration keeps a correct cell correct *)
  assert (Hkeep : forall i row j piece s s1,
            In (i, row) (enumerate bg) -> In (j, piece) (enumerate row) ->
            shape n s -> grid_get s i0 j0 = Ok (option_map value pc) ->
            inner i s (j, piece) = Ok s1 ->
            grid_get s1 i0 j0 = Ok (option_map value pc)).
  { intros i row j piece s s1 Hi Hj Hs Hc E.
    destruct (Hinner _ _ _ _ _ _ Hi Hj Hs E) as (_ & Hfr & Hwr & Hno).
    destruct (decide ((i0, j0) = (i, j))) as [[= -> ->]|Hne].
    - destruct (Hin _ _ _ _ Hi Hj) as (_ & _ & Eb).
      assert (piece = pc).
      { unfold grid_get in Eb. rewrite Erow0 in Eb. simpl in Eb. congruence. }
      subst piece. destruct pc as [p|]; [now apply Hwr|now rewrite (Hno eq_refl)].
    - rewrite Hfr by assumption. exact Hc. }
  destruct pc as [p|].
  - (* a piece: written when the loop reaches the cell *)
    revert Hfill.
    apply (for_once (shape n) (fun s => grid_get s i0 j0 = Ok (Some (value p)))
             (enumerate bg) outer (i0, row0)); try assumption.
    + intros s s1 Hs E. revert E.
      apply (for_once (shape n) (fun s => grid_get s i0 j0 = Ok (Some (value p)))
               (enumerate row0) (inner i0) (j0, Some p)); try assumption.
      * intros [j piece] s2 s3 Hj Hs2 E.
        exact (proj1 (Hinner _ _ _ _ _ _ Hi0in Hj Hs2 E)).
      * intros s2 s3 Hs2 E.
        destruct (Hinner _ _ _ _ _ _ Hi0in Hj0in Hs2 E) as (_ & _ & Hwr & _).
        now apply Hwr.
      * intros [j piece] s2 s3 Hj Hs2 Hc E.
        exact (Hkeep i0 row0 j piece s2 s3 Hi0in Hj Hs2 Hc E).
    + intros [i row] s s1 Hi Hs Hc. revert Hs Hc. revert s s1.
      assert (G : forall s s1, shape n s /\ grid_get s i0 j0 = Ok (Some (value p)) ->
                  for_ (enumerate row) s (inner i) = Ok s1 ->
                  shape n s1 /\ grid_get s1 i0 j0 = Ok (Some (value p))).
      { intros s s1 H.
        apply (for_inv_ok
                 (fun s => shape n s /\ grid_get s i0 j0 = Ok (Some (value p))));
          [exact H|].
        intros s2 [j piece] s3 Hj [Hs2 Hc2] E. split.
        - exact (proj1 (Hinner _ _ _ _ _ _ Hi Hj Hs2 E)).
        - exact (Hkeep i row j piece s2 s3 Hi Hj Hs2 Hc2 E). }
      intros s s1 Hs Hc E. apply (G s s1); auto.
  - (* no piece: the cell is never written *)
    assert (G : shape n g /\ grid_get g i0 j0 = Ok None).
    { revert Hfill.
      apply (for_inv_ok (fun s => shape n s /\ grid_get s i0 j0 = Ok None)).
      - split; [exact Hs0|].
        unfold grid_get, empty_grid.
        rewrite (getitem_lookup _ i0 (repeat None (Z.to_nat n))); simpl.
        + apply getitem_lookup; [unfold len; rewrite repeat_length; lia|].
          apply lookup_repeat. lia.
        + unfold len. rewrite repeat_length. lia.
        + apply lookup_repeat. lia.
      - intros s [i row] s1 Hi H.
        apply (for_inv_ok (fun s => shape n s /\ grid_get s i0 j0 = Ok None));
          [exact H|].
        intros s2 [j piece] s3 Hj [Hs2 Hc2] E. split.
        + exact (proj1 (Hinner _ _ _ _ _ _ Hi Hj Hs2 E)).
        + exact (Hkeep i row j piece s2 s3 Hi Hj Hs2 Hc2 E). }
    apply G.
Qed.

(** The constructor builds a well-formed state whose [_grid] and
    [_board] agree. *)
Lemma init_wf_synced (side players : Z) (othello : bool) (g : Reversi) :
  __init__ side players othello = Ok g -> wf g /\ synced (_side g) g.
Proof.
  intros E. pose proof (init_ok_valid _ _ _ _ E) as Hv.
  rewrite (init_valid_unfold _ _ _ Hv) in E.
  destruct (init_board_ok _ _ _ Hv) as (board & Eb & Hb).
  rewrite Eb in E. cbn [bind] in E.
  apply bind_ok in E as (grid & Efill & [= <-]).
  destruct (fill_grid_synced side (Board.grid board) grid Hb Efill) as [Hg Hsy].
  destruct Hv as (Hs & Hp & Hps & Hpar & _).
  split; [constructor; simpl; try assumption; lia|exact Hsy].
Qed.

(** ** States reached from the constructor by moves *)

Lemma apply_move_on_board (self self' : Reversi) (pos : Position) :
  apply_move self pos = Ok self' -> on_board (_side self) pos.
Proof.
  destruct pos as [row col]. unfold apply_move.
  destruct (((0 <=? row) && (row <=? _side self - 1))
            && ((0 <=? col) && (col <=? _side self - 1))) eqn:E;
    [|discriminate].
  intros _. zbool. split; simpl; lia.
Qed.

Lemma player_after_pos (P t : Z) (k : nat) :
  1 <= t -> 1 <= player_after P t k.
Proof.
  intros Ht. induction k as [|k IH]; simpl; [exact Ht|].
  fold (player_after P t k). unfold next_player.
  destruct (_ =? _); lia.
Qed.

(** Without [load_game], every state is well formed, its two boards
    agree and its turn is a player. *)
Lemma played_inv (g : Reversi) :
  played g -> wf g /\ synced (_side g) g /\ 1 <= _turn g.
Proof.
  induction 1 as [side players othello g E|g g' pos Hp (Hwf & Hsy & Ht) E].
  - destruct (init_wf_synced _ _ _ _ E) as [Hwf Hsy].
    split; [exact Hwf|]. split; [exact Hsy|].
    pose proof (init_ok_valid _ _ _ _ E) as Hv.
    rewrite (init_valid_unfold _ _ _ Hv) in E.
    apply bind_ok in E as (b & _ & E). apply bind_ok in E as (gr & _ & [= <-]).
    simpl. lia.
  - pose proof (apply_move_on_board _ _ _ E) as Hon.
    destruct (apply_move_ok g pos Hwf Hon)
      as (s2 & s' & E' & Ect & Hwf2 & Hwf' & _ & _ & _ & Et & _).
    rewrite E in E'. injection E' as <-.
    split; [exact Hwf'|]. split; [exact (apply_move_synced _ _ _ Hwf Hsy Hon E)|].
    destruct (change_turn_ok s2 Hwf2) as (s & Es & Hcases).
    rewrite Ect in Es. injection Es as <-.
    destruct Hcases as [(_ & ->)|(_ & k & _ & _ & -> & _)].
    + now rewrite Et.
    + simpl. apply player_after_pos. now rewrite Et.
Qed.

(** * Concrete games *)

Lemma othello4_init : __init__ 4 2 true = Ok othello4.
Proof. reflexivity. Qed.

Lemma fresh4_init : __init__ 4 2 false = Ok fresh4.
Proof. reflexivity. Qed.

Lemma opening3_reached :
  (do g <- __init__ 3 3 false ;; simulate_moves g [(0, 0); (0, 1); (1, 1)])
  = Ok opening3.
Proof. vm_compute. reflexivity. Qed.

Lemma endgame4_loaded :
  load_game fresh4 1 (_grid endgame4) = (endgame4, Ok tt).
Proof. vm_compute. reflexivity. Qed.

(** ** C1 *)

(** C1 fails as stated: in the opening phase of a three-player game on
    the 3x3 board, reached from the constructor by three moves, (0, 2)
    is a legal move of player 1 and the piece of player 2 at (0, 1) lies
    between it and the piece of player 1 at (0, 0), yet [apply_move]
    leaves that piece to player 2. *)
Lemma opening_move_flips_nothing :
  (do g <- __init__ 3 3 false ;; simulate_moves g [(0, 0); (0, 1); (1, 1)])
  = Ok opening3 /\
  legal_move opening3 (0, 2) = Ok true /\
  on_run opening3 (0, 2) (0, 1) /\
  exists self',
    apply_move opening3 (0, 2) = Ok self' /\
    piece_at self' (0, 1) = Ok (Some 2) /\
    piece_at self' (0, 1) <> Ok (Some (_turn opening3)).
Proof.
  split; [vm_compute; reflexivity|].
  split; [vm_compute; reflexivity|]. split.
  - exists 0, (-1), 1, 1. split; [unfold unit_dir; lia|].
    split; [|split; [lia|reflexivity]].
    split; [lia|]. split.
    + intros k Hk. assert (k = 1) as -> by lia.
      split; [split; simpl; lia|]. exists 2. split; [reflexivity|simpl; lia].
    + split; [split; simpl; lia|reflexivity].
  - eexists. split; [vm_compute; reflexivity|].
    split; [reflexivity|]. vm_compute. discriminate.
Qed.

(** The first move of a new Othello game on the 4x4 board. *)
Lemma apply_move_places_and_flips_witness :
  wf othello4 /\ synced (_side othello4) othello4 /\
  legal_move othello4 (0, 1) = Ok true /\
  exists self',
    apply_move othello4 (0, 1) = Ok self' /\
    piece_at self' (0, 1) = Ok (Some 1).
Proof.
  assert (Hwf : wf othello4) by solve_wf.
  assert (Hsy : synced (_side othello4) othello4) by solve_synced.
  assert (Hl : legal_move othello4 (0, 1) = Ok true) by (vm_compute; reflexivity).
  split; [exact Hwf|]. split; [exact Hsy|]. split; [exact Hl|].
  destruct (apply_move_places_and_flips othello4 (0, 1) Hwf Hsy Hl)
    as (self' & E & Hp & _).
  exists self'. split; [exact E|exact Hp].
Defined.

(** ** C2 *)

(** The first move of a new Othello game on the 4x4 board. *)
Lemma apply_move_turn_skips_witness :
  wf othello4 /\ 1 <= _turn othello4 /\ on_board (_side othello4) (0, 1) /\
  exists self', apply_move othello4 (0, 1) = Ok self'.
Proof.
  assert (Hwf : wf othello4) by solve_wf.
  assert (Ht : 1 <= _turn othello4) by (simpl; lia).
  assert (Hon : on_board (_side othello4) (0, 1)) by (split; simpl; lia).
  split; [exact Hwf|]. split; [exact Ht|]. split; [exact Hon|].
  destruct (apply_move_turn_skips othello4 (0, 1) Hwf Ht Hon) as (self' & E & _).
  exists self'. exact E.
Defined.

(** ** C3 *)

(** Simulating the first move of a new Othello game. *)
Lemma simulate_moves_leaves_receiver_witness :
  read store4 0%nat = Some othello4 /\ wf othello4 /\
  Forall (on_board (_side othello4)) [(0, 1)] /\
  exists h' sim,
    obj_simulate_moves store4 0%nat [(0, 1)] = Some (h', Ok sim) /\
    read h' 0%nat = Some othello4.
Proof.
  assert (Hr : read store4 0%nat = Some othello4) by (vm_compute; reflexivity).
  assert (Hwf : wf othello4) by solve_wf.
  assert (Hall : Forall (on_board (_side othello4)) [(0, 1)])
    by (repeat constructor; simpl; lia).
  split; [exact Hr|]. split; [exact Hwf|]. split; [exact Hall|].
  destruct (simulate_moves_leaves_receiver store4 0%nat othello4 [(0, 1)] Hr Hwf)
    as [Hok _].
  destruct (Hok Hall) as (h' & sim & final & E & _ & _ & _ & _ & Hl).
  exists h', sim. split; [exact E|exact Hl].
Defined.

(** ** C4 *)

(** C4 fails on the code: [grid] returns the very list the engine
    keeps.  After [snapshot = game.grid; snapshot[1][1] = None] on a new
    Othello game, [game.piece_at((1, 1))] is [None]; it was 2. *)
Theorem grid_returns_the_engine_list :
  exists snapshot h1,
    obj_new (mkHeap ∅ ∅) 4 2 true = (store4, Ok 0%nat) /\
    obj_grid_property store4 0%nat = Some snapshot /\
    obj_piece_at store4 0%nat (1, 1) = Some (Ok (Some 2)) /\
    list_setitem2 store4 snapshot 1 1 None = (h1, Ok tt) /\
    obj_piece_at h1 0%nat (1, 1) = Some (Ok None).
Proof.
  eexists. eexists.
  split; [vm_compute; reflexivity|].
  split; [vm_compute; reflexivity|]. split; [vm_compute; reflexivity|].
  split; vm_compute; reflexivity.
Qed.

(** ** C5 *)

(** C5 fails on the code: [load_game] only writes the cells of the new
    grid that hold a piece.  Loading the empty 4x4 grid into a new
    Othello game succeeds and (1, 1) still shows the old piece. *)
Theorem load_game_keeps_old_pieces :
  exists g,
    __init__ 4 2 true = Ok othello4 /\
    load_game othello4 1 (empty_grid 4) = (g, Ok tt) /\
    grid_get (@empty_grid Z 4) 1 1 = Ok None /\
    piece_at g (1, 1) = Ok (Some 2).
Proof.
  eexists. split; [reflexivity|].
  split; [vm_compute; reflexivity|]. split; reflexivity.
Qed.

(** ** C6 *)

(** C6 fails on the code: the turn is only compared with the number of
    players from above, so [load_game(0, grid)] does not raise; and the
    cells before an invalid one are written before the call raises. *)
Theorem load_game_accepts_turn_zero :
  __init__ 4 2 true = Ok othello4 /\ __init__ 4 2 false = Ok fresh4 /\
  (exists g, load_game othello4 0 (_grid othello4) = (g, Ok tt)) /\
  (exists g,
     load_game fresh4 1
       [[Some 1; Some 7; None; None]; [None; None; None; None];
        [None; None; None; None]; [None; None; None; None]]
     = (g, Raise ValueError) /\
     piece_at fresh4 (0, 0) = Ok None /\
     piece_at g (0, 0) = Ok (Some 1)).
Proof.
  split; [reflexivity|]. split; [reflexivity|]. split.
  - eexists. vm_compute. reflexivity.
  - eexists. split; [vm_compute; reflexivity|]. split; reflexivity.
Qed.

(** ** C7 *)

(** C7 fails on the code: after a [load_game] that left an old piece in
    [_grid], the moves of player 1 include a cell that [piece_at] shows
    as taken. *)
Theorem available_moves_returns_taken_cell :
  exists g mv,
    __init__ 4 2 true = Ok othello4 /\
    load_game othello4 1
      [[None; None; None; None]; [None; None; Some 2; Some 1];
       [None; None; None; None]; [None; None; None; None]]
    = (g, Ok tt) /\
    players_av_moves g 1 = Ok mv /\ In (1, 1) mv /\
    piece_at g (1, 1) = Ok (Some 2).
Proof.
  eexists. eexists. split; [reflexivity|].
  split; [vm_compute; reflexivity|].
  split; [vm_compute; reflexivity|]. split; [|reflexivity].
  simpl. tauto.
Qed.

(** ** C9 *)

(** In [endgame4] the third candidate, (3, 1), is the first to end the
    game. *)
Lemma seer_move_first_done_witness :
  seer_move frac None frac_div frac_gt frac_eq (fun a _ => a) endgame4 1
  = apply_move endgame4 (3, 1).
Proof.
  eapply (proj2 (seer_move_first_done frac None frac_div frac_gt frac_eq
                   (fun a _ => a) ltac:(intros; simpl; lia) endgame4 1
                   [(1, 0); (3, 0)] (3, 1) [] _ ltac:(solve_wf)
                   ltac:(vm_compute; reflexivity) _ ltac:(vm_compute; reflexivity)
                   ltac:(vm_compute; reflexivity))).
  Unshelve.
  intros x [<-|[<-|[]]]; eexists; split; vm_compute; reflexivity.
Defined.

(** ** C10 *)

(** C10 fails on the code: [load_game] looks for a player with a move
    before it updates the move counter.  Loading a position of the
    normal phase into a new game of the other variant leaves the turn
    with player 1, who has no move, while player 2 has one. *)
Theorem load_game_leaves_turn_without_move :
  exists g,
    __init__ 4 2 false = Ok fresh4 /\
    load_game fresh4 1
      [[Some 2; Some 1; Some 1; None]; [None; None; None; None];
       [None; None; None; None]; [Some 2; None; None; None]]
    = (g, Ok tt) /\
    done g = Ok false /\ _turn g = 1 /\ available_moves g = Ok [] /\
    players_av_moves g 2 = Ok [(0, 3)].
Proof.
  eexists. split; [reflexivity|]. split; [vm_compute; reflexivity|].
  repeat split; vm_compute; reflexivity.
Qed.

(** ** The flips past the end of a run *)

(** After the opening phase [flip_pieces] goes on past the piece that
    ends a run: player 1 playing (0, 0) on the row [_ 2 1 2 1 _] also
    takes the piece at (0, 3). *)
Example flip_continues_past_own_piece :
  let g :=
    game 6 2 true
      [[None; Some 2; Some 1; Some 2; Some 1; None];
       [None; None; None; None; None; None];
       [None; None; None; None; None; None];
       [None; None; None; None; None; None];
       [None; None; None; None; None; None];
       [None; None; None; None; None; None]] 1 4 in
  legal_move g (0, 0) = Ok true /\
  exists g', apply_move g (0, 0) = Ok g' /\
             getitem (_grid g') 0
             = Ok [Some 1; Some 1; Some 1; Some 1; Some 1; None].
Proof.
  split; [vm_compute; reflexivity|].
  eexists. split; vm_compute; reflexivity.
Qed.

(** * Further properties of the engine *)

(** ** Positions off the board *)

Lemma off_board_lt (n row col : Z) :
  ~ on_board n (row, col) ->
  ((0 <=? row) && (row <? n)) && ((0 <=? col) && (col <? n)) = false.
Proof.
  intros H. destruct (_ && _) eqn:E; [|reflexivity].
  exfalso. apply H. zbool. split; simpl; lia.
Qed.

Lemma off_board_le (n row col : Z) :
  ~ on_board n (row, col) ->
  ((0 <=? row) && (row <=? n - 1)) && ((0 <=? col) && (col <=? n - 1)) = false.
Proof.
  intros H. destruct (_ && _) eqn:E; [|reflexivity].
  exfalso. apply H. zbool. split; simpl; lia.
Qed.

(** X1. On a well-formed engine, [piece_at], [legal_move] and
    [apply_move] return for every position of the board and raise
    [ValueError] for every other position; [legal_move] answers whether
    the position is among the available moves. *)
Theorem position_methods_check_bounds (self : Reversi) (pos : Position) :
  wf self ->
  (on_board (_side self) pos ->
   (exists c, piece_at self pos = Ok c) /\
   (exists mv, available_moves self = Ok mv /\
               legal_move self pos = Ok (pos_mem pos mv)) /\
   (exists self', apply_move self pos = Ok self')) /\
  (~ on_board (_side self) pos ->
   piece_at self pos = Raise ValueError /\
   legal_move self pos = Raise ValueError /\
   apply_move self pos = Raise ValueError).
Proof.
  intros Hwf. split.
  - intros Hon. split; [|split].
    + rewrite piece_at_on_board by exact Hon. destruct pos as [i j].
      destruct Hon as [Hi Hj]. apply (grid_get_ok (_side self)); try assumption.
      apply Hwf.
    + destruct (players_av_moves_ok self (_turn self) Hwf) as (mv & E & _).
      exists mv. split; [exact E|]. unfold legal_move. destruct pos as [row col].
      fold (inb (_side self) row col). rewrite (proj2 (inb_true _ _ _) Hon).
      cbn [negb]. unfold available_moves in *. rewrite E. reflexivity.
    + destruct (apply_move_ok self pos Hwf Hon) as (s2 & self' & E & _). eauto.
  - intros Hoff. destruct pos as [row col].
    unfold piece_at, legal_move, apply_move.
    rewrite (off_board_lt _ _ _ Hoff), (off_board_le _ _ _ Hoff). auto.
Qed.

Lemma position_methods_check_bounds_witness :
  wf othello4 /\ apply_move othello4 (4, 0) = Raise ValueError.
Proof.
  assert (Hwf : wf othello4) by solve_wf.
  split; [exact Hwf|].
  apply (position_methods_check_bounds othello4 (4, 0) Hwf).
  intros [H _]. simpl in H. lia.
Defined.

(** ** done *)

(** X2. On a well-formed engine [done] returns, and it is true exactly
    when [players_av_moves] is empty for every player from 1 to
    [_players]. *)
Theorem done_iff_no_player_can_move (self : Reversi) :
  wf self ->
  exists d, done self = Ok d /\
    (d = true <->
     forall q, 1 <= q <= _players self -> players_av_moves self q = Ok []).
Proof.
  intros Hwf. destruct (done_ok self Hwf) as [(E & q & Hq & Hm)|(E & Hall)].
  - exists false. split; [exact E|]. split; [discriminate|].
    intros H. exfalso. eapply has_no_moves; [exact Hm|]. now apply H.
  - exists true. split; [exact E|]. split; [intros _; exact Hall|reflexivity].
Qed.

Lemma done_iff_no_player_can_move_witness :
  wf othello4 /\ done othello4 = Ok false.
Proof.
  assert (Hwf : wf othello4) by solve_wf.
  split; [exact Hwf|].
  destruct (done_iff_no_player_can_move othello4 Hwf) as (d & E & _).
  rewrite E. vm_compute in E. exact (eq_sym E).
Defined.

(** ** check_end *)



(** ** The bookkeeping of apply_move *)

(** X4. [apply_move] on a position of the board keeps the side, the
    number of players and the variant, counts one more move, and leaves
    the turn on a player not above [_players] (and not below 1 if it
    was not); when the game is done after the move the turn stays with
    the mover. *)
Theorem apply_move_bookkeeping (self self' : Reversi) (pos : Position) :
  wf self -> apply_move self pos = Ok self' ->
  _side self' = _side self /\ _players self' = _players self /\
  _othello self' = _othello self /\
  _num_moves self' = _num_moves self + 1 /\
  _turn self' <= _players self /\
  (1 <= _turn self -> 1 <= _turn self') /\
  (done self' = Ok true -> _turn self' = _turn self).
Proof.
  intros Hwf E. pose proof (apply_move_on_board _ _ _ E) as Hon.
  destruct (apply_move_ok self pos Hwf Hon)
    as (s2 & s' & E' & Ect & Hwf2 & Hwf' & Es & Ep & Eo & Et & En).
  rewrite E in E'. injection E' as <-.
  destruct (change_turn_ok s2 Hwf2) as (s & Es' & Hcases).
  rewrite Ect in Es'. injection Es' as <-.
  destruct Hcases as [(Hd & ->)|(Hd & k & Hk & _ & -> & Hhas & _)].
  - repeat split; try assumption; try lia.
    rewrite Et. apply Hwf.
  - simpl. split; [exact Es|]. split; [exact Ep|]. split; [exact Eo|].
    split; [exact En|]. split; [|split].
    + rewrite <- Ep. apply player_after_turn_le. exact Hwf2.
    + intros Ht. apply player_after_pos. now rewrite Et.
    + rewrite done_with_turn. congruence.
Qed.

Lemma apply_move_bookkeeping_witness :
  exists self',
    apply_move othello4 (0, 1) = Ok self' /\ _num_moves self' = 1.
Proof.
  eexists. split; [vm_compute; reflexivity|].
  refine (proj1 (proj2 (proj2 (proj2
            (apply_move_bookkeeping othello4 _ (0, 1) ltac:(solve_wf) _))))).
  vm_compute. reflexivity.
Defined.

(** ** The list of available moves *)

(** A loop that only ever adds to a collection ends with what it started
    from and what each iteration adds. *)
Lemma for_collect {X : Type} (T : X -> Position -> Prop) (xs : list X)
    (body : list Position -> X -> result (list Position)) :
  (forall s x, In x xs ->
     exists s', body s x = Ok s' /\ forall p, In p s' <-> In p s \/ T x p) ->
  forall s,
    exists s', for_ xs s body = Ok s' /\
      forall p, In p s' <-> In p s \/ exists x, In x xs /\ T x p.
Proof.
  induction xs as [|x xs IH]; intros Hbody s; simpl.
  - exists s. split; [reflexivity|]. intros p. split; [now left|].
    intros [H | (x & [] & _)]. exact H.
  - destruct (Hbody s x (or_introl eq_refl)) as (s1 & -> & H1). simpl.
    destruct (IH (fun s y Hy => Hbody s y (or_intror Hy)) s1) as (s' & -> & H').
    exists s'. split; [reflexivity|]. intros p. rewrite H', H1. split.
    + intros [[H | H] | (y & Hy & H)]; [now left | right | right].
      * exists x. split; [now left|exact H].
      * exists y. split; [now right|exact H].
    + intros [H | (y & [<- | Hy] & H)]; [left; now left | left; now right | right].
      exists y. split; assumption.
Qed.

(** [open_spaces] returns exactly the cells of the board that hold no
    piece. *)
Lemma open_spaces_exact (self : Reversi) (n : Z) :
  shape n (Board.grid (_board self)) ->
  exists l, open_spaces self = Ok l /\
    forall p, In p l <->
      on_board n p /\ cell_at (Board.grid (_board self)) p = Ok None.
Proof.
  intros Hs. unfold open_spaces. pose proof Hs as [Hlen Hrows].
  pose proof (for_collect
    (fun (ir : Z * list (option Piece)) p =>
       exists jx : Z * option Piece, In jx (enumerate (snd ir)) /\
         p = (fst ir, fst jx) /\
         grid_get (Board.grid (_board self)) (fst ir) (fst jx) = Ok None)
    (enumerate (Board.grid (_board self)))
    (fun open_space '(i, row) =>
       for_ (enumerate row) open_space
         (fun open_space '(j, _) =>
            do c <- grid_get (Board.grid (_board self)) i j ;;
            if is_None c then Ok (open_space ++ [(i, j)]) else Ok open_space))) as Hc.
  assert (Hb : forall s (x : Z * list (option Piece)),
    In x (enumerate (Board.grid (_board self))) ->
    exists s',
      (let '(i, row) := x in
       for_ (enumerate row) s
         (fun open_space '(j, _) =>
            do c <- grid_get (Board.grid (_board self)) i j ;;
            if is_None c then Ok (open_space ++ [(i, j)]) else Ok open_space))
      = Ok s' /\
      forall p, In p s' <-> In p s \/
        exists jx : Z * option Piece, In jx (enumerate (snd x)) /\
          p = (fst x, fst jx) /\
          grid_get (Board.grid (_board self)) (fst x) (fst jx) = Ok None).
  { intros s [i row] Hin. simpl fst. simpl snd.
    apply in_enumerate in Hin as [Hi Hrow].
    assert (Hr : len row = n).
    { apply Hrows, list_elem_of_In. eapply list_elem_of_lookup_2; eassumption. }
    apply (for_collect
      (fun (jx : Z * option Piece) p =>
         p = (i, fst jx) /\
         grid_get (Board.grid (_board self)) i (fst jx) = Ok None)).
    intros s1 [j x] Hin1. simpl fst. apply in_enumerate in Hin1 as [Hj _].
    destruct (grid_get_ok n (Board.grid (_board self)) i j Hs) as (c & E); [lia..|].
    rewrite E. simpl. destruct c as [pc|]; simpl.
    - eexists; split; [reflexivity|]. intros p. split; [now left|].
      intros [H | [_ [=]]]. exact H.
    - eexists; split; [reflexivity|]. intros p. rewrite in_app_iff. simpl.
      split.
      + intros [H | [<- | []]]; [now left|right]. split; reflexivity.
      + intros [H | [-> _]]; [now left|right; now left]. }
  destruct (Hc Hb []) as (l & El & Hl). clear Hc Hb.
  exists l. split; [exact El|]. intros p. rewrite Hl. split.
  - intros [[] | ([i row] & Hin & [j x] & Hin1 & -> & E)]. simpl in *.
    apply in_enumerate in Hin as [Hi Hrow]. apply in_enumerate in Hin1 as [Hj _].
    assert (Hr : len row = n).
    { apply Hrows, list_elem_of_In. eapply list_elem_of_lookup_2; eassumption. }
    split; [split; simpl; lia|exact E].
  - intros [[Hi Hj] E]. right. destruct p as [i j]. simpl in Hi, Hj.
    destruct (shape_row n _ i Hs Hi) as (r & _ & Er & Hr).
    destruct (getitem_ok r j) as (a & _ & Ea); [lia|].
    exists (i, r). split; [apply enumerate_lookup; [lia|exact Er]|].
    exists (j, a). split; [apply enumerate_lookup; [lia|exact Ea]|].
    split; [reflexivity|exact E].
Qed.

(** In the opening phase (not the othello variant, fewer than
    players squared moves made) the moves of any player are, in strictly
    ascending order, exactly the cells of the central block of side
    [_players] that are empty in [_grid]. *)
Lemma players_av_moves_opening (self : Reversi) (turn : Z) :
  wf self -> opening self = true ->
  exists mv, players_av_moves self turn = Ok mv /\ ascending mv /\
    forall p, In p mv <->
      (_side self / 2 - _players self / 2 <= fst p
         < _side self / 2 - _players self / 2 + _players self /\
       _side self / 2 - _players self / 2 <= snd p
         < _side self / 2 - _players self / 2 + _players self) /\
      cell_at (_grid self) p = Ok None.
Proof.
  intros Hwf Hop. destruct (players_av_moves_ok self turn Hwf) as (mv & E & _).
  exists mv. split; [exact E|].
  split; [exact (players_av_moves_ascending self turn mv E)|].
  destruct Hwf as [Hside Hpl Hpar Hg Hb Ht].
  unfold players_av_moves in E. unfold opening in Hop. rewrite Hop in E.
  apply bind_ok in E as (possible & Ep & [= <-]).
  set (tl := _side self / 2 - _players self / 2) in *.
  pose proof (for_collect
    (fun i p => exists j, In j (range tl (tl + _players self)) /\
                  p = (i, j) /\ grid_get (_grid self) i j = Ok None)
    (range tl (tl + _players self))
    (fun possible i =>
       for_ (range tl (tl + _players self)) possible
         (fun possible j =>
            do c <- grid_get (_grid self) i j ;;
            if is_None c then Ok (set_add (i, j) possible) else Ok possible))) as Hc.
  specialize (fun H => Hc H []).
  destruct Hc as (l & El & Hl); [|rewrite El in Ep; injection Ep as ->].
  { intros s i Hi. apply in_range in Hi.
    apply (central_block (_side self)) in Hi; [|assumption..].
    apply (for_collect
      (fun j p => p = (i, j) /\ grid_get (_grid self) i j = Ok None)).
    intros s1 j Hj. apply in_range in Hj.
    apply (central_block (_side self)) in Hj; [|assumption..].
    destruct (grid_get_ok _ (_grid self) i j Hg Hi Hj) as (c & Ec).
    rewrite Ec. simpl. destruct c as [v|]; simpl.
    - eexists; split; [reflexivity|]. intros p. split; [now left|].
      intros [H | [_ [=]]]. exact H.
    - eexists; split; [reflexivity|]. intros p. rewrite in_set_add.
      split; [intros [-> | H]; [right; split; reflexivity|now left]|].
      intros [H | [-> _]]; [now right|now left]. }
  intros p. rewrite in_sort, Hl. unfold cell_at. split.
  - intros [[] | (i & Hi & j & Hj & -> & Ec)]. apply in_range in Hi, Hj.
    simpl. split; [split; assumption|exact Ec].
  - intros [[Hi Hj] Ec]. right. destruct p as [i j]. simpl in *.
    exists i. split; [now apply in_range|]. exists j.
    split; [now apply in_range|]. split; [reflexivity|exact Ec].
Qed.

(** X5. In the opening phase (not the othello variant, fewer than
    players squared moves made) the moves of any player are, in strictly
    ascending order, exactly the cells of the central block of side
    [_players] that are empty in [_grid]. *)
Theorem opening_moves_are_the_empty_central_cells (self : Reversi) (turn : Z) :
  wf self -> opening self = true ->
  exists mv, players_av_moves self turn = Ok mv /\ ascending mv /\
    forall p, In p mv <->
      (_side self / 2 - _players self / 2 <= fst p
         < _side self / 2 - _players self / 2 + _players self /\
       _side self / 2 - _players self / 2 <= snd p
         < _side self / 2 - _players self / 2 + _players self) /\
      cell_at (_grid self) p = Ok None.
Proof. exact (players_av_moves_opening self turn). Qed.

Lemma opening_moves_are_the_empty_central_cells_witness :
  exists mv, players_av_moves fresh4 2 = Ok mv /\ In (1, 2) mv.
Proof.
  destruct (opening_moves_are_the_empty_central_cells fresh4 2)
    as (mv & E & _ & H).
  - solve_wf.
  - reflexivity.
  - exists mv. split; [exact E|]. apply H.
    change (_side fresh4 / 2 - _players fresh4 / 2) with 1.
    split; [simpl; lia|reflexivity].
Defined.

(** After the opening phase (and always in the othello variant)
    the moves of player [turn] are, in strictly ascending order, exactly
    the cells of the board that hold no piece in [_board] and from
    which some direction of the compass shows, in [_grid], at least one
    piece of other players and then a piece of [turn]. *)
Lemma players_av_moves_normal (self : Reversi) (turn : Z) :
  wf self -> opening self = false ->
  exists mv, players_av_moves self turn = Ok mv /\ ascending mv /\
    forall p, In p mv <->
      on_board (_side self) p /\
      cell_at (Board.grid (_board self)) p = Ok None /\
      exists dy dx K, unit_dir dy dx /\ 1 <= K /\
        run (_side self) (_grid self) turn (fst p) (snd p) dy dx K.
Proof.
  intros Hwf Hop. destruct (players_av_moves_ok self turn Hwf) as (mv & E & _).
  exists mv. split; [exact E|].
  split; [exact (players_av_moves_ascending self turn mv E)|].
  destruct Hwf as [Hside Hpl Hpar Hg Hb Ht].
  unfold players_av_moves in E. unfold opening in Hop. rewrite Hop in E.
  clear Hop.
  apply bind_ok in E as (possible & Ep & [= <-]).
  destruct (open_spaces_exact self (_side self) Hb) as (os & Eos & Hos).
  rewrite Eos in Ep. cbn [bind] in Ep.
  set (n := _side self) in *.
  set (cond := fun (cell : Position) (i j : Z) =>
         on_board n (i, j) /\ (i, j) <> cell /\
         exists K, 1 <= K /\
           run n (_grid self) turn (fst cell) (snd cell)
             (i - fst cell) (j - snd cell) K).
  pose proof (for_collect
    (fun (cell : Position) p =>
       exists i, In i (range (fst cell - 1) (fst cell + 2)) /\
       exists j, In j (range (snd cell - 1) (snd cell + 2)) /\
         p = cell /\ cond cell i j)
    os
    (fun possible cell =>
       let '(row, col) := cell in
       for_ (range (row - 1) (row + 2)) possible
         (fun possible i =>
            for_ (range (col - 1) (col + 2)) possible
              (fun possible j =>
                 do b <- in_grid self i j ;;
                 if b && (negb (i =? row) || negb (j =? col)) then
                   do c <- grid_get (_grid self) i j ;;
                   if negb (cell_eq c turn) then
                     do e <- check_end self turn cell (i - row) (j - col) ;;
                     if e then Ok (set_add (row, col) possible)
                     else Ok possible
                   else Ok possible
                 else Ok possible)))) as Hc.
  specialize (fun H => Hc H []).
  destruct Hc as (l & El & Hl); [|rewrite El in Ep; injection Ep as ->].
  { intros s [row col] Hcell. simpl fst. simpl snd.
    apply (for_collect
      (fun i p => exists j, In j (range (col - 1) (col + 2)) /\
                    p = (row, col) /\ cond (row, col) i j)).
    intros s1 i Hi. apply in_range in Hi.
    apply (for_collect (fun j p => p = (row, col) /\ cond (row, col) i j)).
    intros s2 j Hj. apply in_range in Hj.
    rewrite (in_grid_shape self n) by exact Hg. cbn [bind].
    assert (Hno : forall s3 : list Position, ~ cond (row, col) i j ->
              exists s', Ok s3 = Ok s' /\
                forall p, In p s' <-> In p s3 \/ p = (row, col) /\ cond (row, col) i j).
    { intros s3 Hn. exists s3. split; [reflexivity|]. intros p.
      split; [now left|]. intros [H | [_ H]]; [exact H|contradiction]. }
    destruct (inb n i j && (negb (i =? row) || negb (j =? col))) eqn:Eb.
    2:{ apply Hno. intros (Hon & Hne & _).
        apply andb_false_iff in Eb as [Eb | Eb].
        - apply inb_true in Hon. congruence.
        - apply orb_false_iff in Eb as [E1 E2].
          apply negb_false_iff in E1, E2. zbool. congruence. }
    apply andb_true_iff in Eb as [E1 E2]. apply inb_true in E1.
    pose proof E1 as [Hi' Hj']. simpl in Hi', Hj'.
    assert (Hd : unit_dir (i - row) (j - col)).
    { unfold unit_dir. zbool; lia. }
    assert (Hon1 : on_board n (row + (i - row), col + (j - col))).
    { split; simpl; lia. }
    destruct (grid_get_ok n (_grid self) i j Hg Hi' Hj') as (c & Ec).
    rewrite Ec. cbn [bind].
    assert (Hc1' : cell_at (_grid self) (ray row col (i - row) (j - col) 1) = Ok c).
    { rewrite ray_1. unfold cell_at. simpl.
      replace (row + (i - row)) with i by lia.
      replace (col + (j - col)) with j by lia. exact Ec. }
    destruct (cell_eq c turn) eqn:Eeq; cbn [negb].
    { apply Hno. intros (_ & _ & K & HK & _ & Hmid & _).
      destruct (Hmid 1 ltac:(lia)) as (_ & v & Hv & Hne).
      apply cell_eq_true in Eeq. simpl in Hv. congruence. }
    destruct (check_end_ok self n turn row col (i - row) (j - col) Hg Hd Hon1)
      as (e & Ee).
    pose proof (check_end_run self n turn row col (i - row) (j - col) Hg Hd Hon1)
      as Hrun.
    rewrite Ee. cbn [bind]. destruct e.
    - destruct (proj1 Hrun Ee) as (K & HK).
      assert (HK1 : 1 <= K).
      { destruct HK as (HK0 & _ & _ & Hend).
        destruct (Z.eq_dec K 0) as [-> |]; [|lia].
        change (0 + 1) with 1 in Hend. rewrite Hc1' in Hend. injection Hend as ->.
        simpl in Eeq. rewrite Z.eqb_refl in Eeq. discriminate. }
      eexists; split; [reflexivity|]. intros p. rewrite in_set_add.
      split; [intros [-> | H]; [right|now left] | intros [H | [-> _]]; [now right|now left]].
      split; [reflexivity|]. split; [exact E1|]. split.
      + intros [= -> ->]. destruct Hd as (_ & _ & [H | H]); lia.
      + exists K. split; [exact HK1|exact HK].
    - apply Hno. intros (_ & _ & K & _ & HK).
      assert (Ht' : check_end self turn (row, col) (i - row) (j - col) = Ok true).
      { apply Hrun. exists K. exact HK. }
      congruence. }
  intros p. rewrite in_sort, Hl. split.
  - intros [[] | (cell & Hcell & i & Hi & j & Hj & -> & Hon & Hne & K & HK & Hrun)].
    apply Hos in Hcell as [Hon' Hnone].
    apply in_range in Hi, Hj.
    split; [exact Hon'|]. split; [exact Hnone|].
    exists (i - fst cell), (j - snd cell), K.
    split; [|split; assumption].
    unfold unit_dir. split; [lia|]. split; [lia|].
    destruct cell as [row col]. simpl in *.
    destruct (Z.eq_dec i row) as [-> |]; [|left; lia].
    right. intros H. apply Hne. f_equal. lia.
  - intros (Hon & Hnone & dy & dx & K & Hd & HK & Hrun). right.
    exists p. split; [apply Hos; split; assumption|].
    pose proof Hd as (Hy & Hx & Hnz).
    exists (fst p + dy). split; [apply in_range; lia|].
    exists (snd p + dx). split; [apply in_range; lia|].
    split; [reflexivity|]. split; [|split].
    + destruct Hrun as (_ & Hmid & _). destruct (Hmid 1 ltac:(lia)) as [H _].
      rewrite ray_1 in H. exact H.
    + destruct p as [row col]. simpl. intros [= H1 H2]. lia.
    + exists K. split; [exact HK|].
      replace (fst p + dy - fst p) with dy by lia.
      replace (snd p + dx - snd p) with dx by lia. exact Hrun.
Qed.

(** X6. After the opening phase (and always in the othello variant)
    the moves of player [turn] are, in strictly ascending order, exactly
    the cells of the board that hold no piece in [_board] and from
    which some direction of the compass shows, in [_grid], at least one
    piece of other players and then a piece of [turn]. *)
Theorem normal_moves_are_the_outflanking_cells (self : Reversi) (turn : Z) :
  wf self -> opening self = false ->
  exists mv, players_av_moves self turn = Ok mv /\ ascending mv /\
    forall p, In p mv <->
      on_board (_side self) p /\
      cell_at (Board.grid (_board self)) p = Ok None /\
      exists dy dx K, unit_dir dy dx /\ 1 <= K /\
        run (_side self) (_grid self) turn (fst p) (snd p) dy dx K.
Proof. exact (players_av_moves_normal self turn). Qed.

Lemma normal_moves_are_the_outflanking_cells_witness :
  exists mv, players_av_moves othello4 1 = Ok mv /\ In (0, 1) mv.
Proof.
  destruct (normal_moves_are_the_outflanking_cells othello4 1)
    as (mv & E & _ & H).
  - solve_wf.
  - reflexivity.
  - exists mv. split; [exact E|]. apply H.
    split; [split; simpl; lia|]. split; [reflexivity|].
    exists 1, 0, 1. split; [unfold unit_dir; lia|]. split; [lia|].
    split; [lia|]. split; [|split].
    + intros k Hk. assert (k = 1) as -> by lia.
      split; [split; simpl; lia|]. exists 2. split; [reflexivity|lia].
    + split; simpl; lia.
    + reflexivity.
Defined.

(** ** class Board *)

(** On a square board and a location on it, [add_piece] returns;
    it answers True exactly when the cell held no piece, and then the
    cell holds a piece of [val] and every other cell is as before; it
    answers False on a cell that holds a piece and leaves the board as
    it was. *)
Lemma add_piece_effect (n : Z) (b : Board.t) (val row col : Z) :
  shape n (Board.grid b) -> on_board n (row, col) ->
  exists b' added,
    Board.add_piece b val (row, col) = Ok (b', added) /\
    shape n (Board.grid b') /\ Board.side b' = Board.side b /\
    (added = true <-> cell_at (Board.grid b) (row, col) = Ok None) /\
    (added = true ->
     cell_at (Board.grid b') (row, col) = Ok (Some (mkPiece val)) /\
     forall q, on_board n q -> q <> (row, col) ->
       cell_at (Board.grid b') q = cell_at (Board.grid b) q) /\
    (added = false -> b' = b).
Proof.
  intros Hs [Hr Hc]. simpl in Hr, Hc. unfold Board.add_piece, cell_at. simpl.
  destruct (grid_get_ok n _ row col Hs Hr Hc) as (c & Ec). rewrite Ec. simpl.
  destruct c as [pc|]; simpl.
  - exists b, false. split; [reflexivity|]. split; [exact Hs|].
    split; [reflexivity|]. split; [split; discriminate|].
    split; [discriminate|reflexivity].
  - destruct (grid_set_ok n _ row col (Some (mkPiece val)) Hs Hr Hc)
      as (g' & -> & Hs' & Hget & Hother). simpl.
    eexists; exists true. split; [reflexivity|]. simpl. split; [exact Hs'|].
    split; [reflexivity|]. split; [split; reflexivity|].
    split; [|discriminate]. intros _. split; [exact Hget|].
    intros [i j] [Hi Hj] Hne. simpl in *. apply Hother; assumption.
Qed.

(** X7. On a square board and a location on it, [add_piece] returns;
    it answers True exactly when the cell held no piece, and then the
    cell holds a piece of [val] and every other cell is as before; it
    answers False on a cell that holds a piece and leaves the board as
    it was. *)
Theorem add_piece_fills_empty_cells_only (n : Z) (b : Board.t) (val row col : Z) :
  shape n (Board.grid b) -> on_board n (row, col) ->
  exists b' added,
    Board.add_piece b val (row, col) = Ok (b', added) /\
    shape n (Board.grid b') /\ Board.side b' = Board.side b /\
    (added = true <-> cell_at (Board.grid b) (row, col) = Ok None) /\
    (added = true ->
     cell_at (Board.grid b') (row, col) = Ok (Some (mkPiece val)) /\
     forall q, on_board n q -> q <> (row, col) ->
       cell_at (Board.grid b') q = cell_at (Board.grid b) q) /\
    (added = false -> b' = b).
Proof. exact (add_piece_effect n b val row col). Qed.

Lemma add_piece_fills_empty_cells_only_witness :
  exists b',
    Board.add_piece (Board.__init__ 3) 2 (1, 1) = Ok (b', true) /\
    cell_at (Board.grid b') (1, 1) = Ok (Some (mkPiece 2)).
Proof.
  destruct (add_piece_fills_empty_cells_only 3 (Board.__init__ 3) 2 1 1)
    as (b' & added & E & _ & _ & Hadd & Hcell & _).
  - solve_shape.
  - split; simpl; lia.
  - assert (Ha : added = true) by (apply Hadd; reflexivity).
    subst added. exists b'. split; [exact E|]. apply Hcell. reflexivity.
Defined.

Lemma norm_index_neg (n : nat) (i : Z) :
  - Z.of_nat n <= i < 0 -> norm_index n i = norm_index n (i + Z.of_nat n).
Proof.
  intros H. unfold norm_index.
  destruct (Z.ltb_spec i 0); [|lia].
  destruct (Z.ltb_spec (i + Z.of_nat n) 0); [lia|]. reflexivity.
Qed.

Lemma norm_index_out (n : nat) (i : Z) :
  i < - Z.of_nat n \/ Z.of_nat n <= i -> norm_index n i = None.
Proof.
  intros H. unfold norm_index.
  destruct (Z.ltb_spec i 0).
  - destruct (Z.leb_spec 0 (i + Z.of_nat n)); [|reflexivity].
    destruct (Z.ltb_spec (i + Z.of_nat n) (Z.of_nat n)); [lia|reflexivity].
  - destruct (Z.leb_spec 0 i); [|reflexivity].
    destruct (Z.ltb_spec i (Z.of_nat n)); [lia|reflexivity].
Qed.

(** X8. [add_piece] does not check its location: an index from [-n]
    to [-1] counts from the end, as Python lists do, and any index
    below [-n] or from [n] on raises [IndexError]. *)
Theorem add_piece_indexes_like_a_list (n : Z) (b : Board.t) (val row col : Z) :
  shape n (Board.grid b) -> 0 < n ->
  (- n <= row < n -> - n <= col < n ->
   Board.add_piece b val (row, col) =
   Board.add_piece b val (row mod n, col mod n)) /\
  (~ (- n <= row < n /\ - n <= col < n) ->
   Board.add_piece b val (row, col) = Raise IndexError).
Proof.
  intros Hs Hn. pose proof Hs as [Hlen Hrows].
  assert (Hget : forall (A : Type) (l : list A) i,
            len l = n -> - n <= i < n -> getitem l i = getitem l (i mod n)).
  { intros A l i Hl Hi. unfold getitem. unfold len in Hl.
    destruct (Z.ltb_spec i 0) as [Hneg | Hpos].
    - rewrite norm_index_neg by lia. rewrite <- Hl.
      replace (i mod Z.of_nat (length l)) with (i + Z.of_nat (length l)).
      + reflexivity.
      + apply Z.mod_unique with (q := -1); lia.
    - rewrite Z.mod_small by lia. reflexivity. }
  assert (Hset : forall (A : Type) (l : list A) i a,
            len l = n -> - n <= i < n -> setitem l i a = setitem l (i mod n) a).
  { intros A l i a Hl Hi. unfold setitem. unfold len in Hl.
    destruct (Z.ltb_spec i 0) as [Hneg | Hpos].
    - rewrite norm_index_neg by lia. rewrite <- Hl.
      replace (i mod Z.of_nat (length l)) with (i + Z.of_nat (length l)).
      + reflexivity.
      + apply Z.mod_unique with (q := -1); lia.
    - rewrite Z.mod_small by lia. reflexivity. }
  assert (Hout : forall (A : Type) (l : list A) i,
            len l = n -> ~ - n <= i < n -> getitem l i = Raise IndexError).
  { intros A l i Hl Hi. unfold getitem. unfold len in Hl.
    rewrite norm_index_out by lia. reflexivity. }
  assert (Hrow : forall i r, getitem (Board.grid b) i = Ok r -> len r = n).
  { intros i r Er. apply Hrows. unfold getitem in Er.
    destruct (norm_index _ i) as [k|]; [|discriminate].
    destruct (Board.grid b !! k) as [r'|] eqn:Ek; [|discriminate].
    injection Er as ->. apply list_elem_of_In.
    eapply list_elem_of_lookup_2; exact Ek. }
  split.
  - intros Hr Hc.
    assert (Egg : grid_get (Board.grid b) row col =
                  grid_get (Board.grid b) (row mod n) (col mod n)).
    { unfold grid_get. rewrite <- (Hget _ (Board.grid b) row Hlen Hr).
      destruct (getitem (Board.grid b) row) as [r|e] eqn:Er; simpl; [|reflexivity].
      apply Hget; [eapply Hrow; exact Er|exact Hc]. }
    assert (Egs : forall a, grid_set (Board.grid b) row col a =
                  grid_set (Board.grid b) (row mod n) (col mod n) a).
    { intros a. unfold grid_set. rewrite <- (Hget _ (Board.grid b) row Hlen Hr).
      destruct (getitem (Board.grid b) row) as [r|e] eqn:Er; simpl; [|reflexivity].
      rewrite <- (Hset _ r col a); [|eapply Hrow; exact Er|exact Hc].
      destruct (setitem r col a) as [r'|e]; simpl; [|reflexivity].
      apply Hset; assumption. }
    unfold Board.add_piece. rewrite Egg.
    destruct (grid_get (Board.grid b) (row mod n) (col mod n)) as [c|e]; simpl;
      [|reflexivity].
    destruct (is_None c); [|reflexivity]. now rewrite Egs.
  - intros Hnot. unfold Board.add_piece, grid_get.
    destruct (Z_le_dec (- n) row) as [H1|H1];
      [destruct (Z_lt_dec row n) as [H2|H2]|];
      [|rewrite Hout by (assumption || lia); reflexivity..].
    rewrite (Hget _ (Board.grid b) row Hlen) by lia.
    destruct (shape_row n (Board.grid b) (row mod n) Hs) as (r & -> & _ & Hr').
    { apply Z.mod_pos_bound. lia. }
    simpl. rewrite Hout; [reflexivity|exact Hr'|]. intros Hc. apply Hnot.
    split; [lia|exact Hc].
Qed.

Lemma add_piece_indexes_like_a_list_witness :
  Board.add_piece (Board.__init__ 3) 1 (-1, -3) =
  Board.add_piece (Board.__init__ 3) 1 (2, 0) /\
  Board.add_piece (Board.__init__ 3) 1 (0, 3) = Raise IndexError.
Proof.
  destruct (add_piece_indexes_like_a_list 3 (Board.__init__ 3) 1 (-1) (-3))
    as [H _]; [solve_shape|lia|].
  destruct (add_piece_indexes_like_a_list 3 (Board.__init__ 3) 1 0 3)
    as [_ H']; [solve_shape|lia|].
  split; [apply H; lia|apply H'; lia].
Defined.

Lemma is_full_loop_true (rows : list (list (option Piece))) :
  Board.is_full_loop rows = true <->
  forall row c, In row rows -> In c row -> c <> None.
Proof.
  induction rows as [|row rows IH]; simpl.
  - split; [intros _ ? ? []|reflexivity].
  - destruct (existsb is_None row) eqn:E.
    + split; [discriminate|]. intros H. exfalso.
      apply existsb_exists in E as (c & Hc & E).
      destruct c; [discriminate|]. now apply (H row None (or_introl eq_refl)).
    + rewrite IH. split.
      * intros H r c [<- | Hr] Hc; [|eauto]. intros ->.
        assert (existsb is_None row = true); [|congruence].
        apply existsb_exists. exists None. split; [exact Hc|reflexivity].
      * intros H r c Hr. apply H. now right.
Qed.

(** X9. On a square board [is_full] is true exactly when every cell
    holds a piece, that is when [open_spaces] has nothing to return. *)
Theorem is_full_iff_no_open_space (self : Reversi) :
  shape (_side self) (Board.grid (_board self)) ->
  (Board.is_full (_board self) = true <->
   forall p, on_board (_side self) p ->
     exists pc, cell_at (Board.grid (_board self)) p = Ok (Some pc)) /\
  (Board.is_full (_board self) = true <-> open_spaces self = Ok []).
Proof.
  intros Hs. set (n := _side self) in *. set (bg := Board.grid (_board self)) in *.
  assert (H1 : Board.is_full (_board self) = true <->
               forall p, on_board n p -> exists pc, cell_at bg p = Ok (Some pc)).
  { unfold Board.is_full. fold bg. rewrite is_full_loop_true. split.
    - intros H [i j] [Hi Hj]. simpl in Hi, Hj. unfold cell_at, grid_get. simpl.
      destruct (shape_row n bg i Hs Hi) as (r & -> & Er & Hr). simpl.
      destruct (getitem_ok r j) as (c & -> & Ec); [lia|].
      destruct c as [pc|]; [eauto|]. exfalso.
      apply (H r None); [| |reflexivity]; apply list_elem_of_In;
        eapply list_elem_of_lookup_2; eassumption.
    - intros H row c Hrow Hc ->.
      apply list_elem_of_In, list_elem_of_lookup in Hrow as (i & Ei).
      apply list_elem_of_In, list_elem_of_lookup in Hc as (j & Ej).
      pose proof Hs as [Hlen Hrows].
      assert (Hr : len row = n).
      { apply Hrows, list_elem_of_In. eapply list_elem_of_lookup_2; exact Ei. }
      apply lookup_lt_Some in Ei as Hi. apply lookup_lt_Some in Ej as Hj.
      unfold len in Hlen, Hr.
      destruct (H (Z.of_nat i, Z.of_nat j)) as (pc & Epc).
      { split; simpl; lia. }
      unfold cell_at, grid_get in Epc. simpl in Epc.
      rewrite (getitem_lookup bg (Z.of_nat i) row) in Epc;
        [|unfold len; lia|now rewrite Nat2Z.id].
      simpl in Epc.
      rewrite (getitem_lookup row (Z.of_nat j) None) in Epc;
        [|unfold len; lia|now rewrite Nat2Z.id].
      discriminate. }
  split; [exact H1|]. rewrite H1.
  destruct (open_spaces_exact self n Hs) as (l & -> & Hl). split.
  - intros H. destruct l as [|p l]; [reflexivity|]. exfalso.
    destruct (proj1 (Hl p) (or_introl eq_refl)) as [Hon Hnone].
    destruct (H p Hon) as (pc & Epc). fold bg in Hnone. congruence.
  - intros [= ->] p Hon.
    destruct p as [i j]. destruct Hon as [Hi Hj]. simpl in Hi, Hj.
    destruct (grid_get_ok n bg i j Hs Hi Hj) as (c & Ec).
    destruct c as [pc|]; [exists pc; exact Ec|]. exfalso.
    apply (proj2 (Hl (i, j))). split; [split; assumption|exact Ec].
Qed.

Lemma is_full_iff_no_open_space_witness :
  Board.is_full (_board othello4) = false.
Proof.
  destruct (is_full_iff_no_open_space othello4) as [_ H]; [solve_shape|].
  destruct (Board.is_full (_board othello4)); [|reflexivity].
  exfalso. assert (E : open_spaces othello4 = Ok []) by (apply H; reflexivity).
  vm_compute in E. discriminate.
Defined.

(** ** outcome *)

Lemma dict_mem_In (k : Z) (d : dict) :
  dict_mem k d = true <-> exists v, In (k, v) d.
Proof.
  unfold dict_mem. rewrite existsb_exists. split.
  - intros ([k' v] & Hin & E). simpl in E. apply Z.eqb_eq in E. subst. eauto.
  - intros (v & Hin). exists (k, v). split; [exact Hin|]. simpl. apply Z.eqb_refl.
Qed.

Lemma dict_set_keys (d : dict) (k v : Z) :
  map fst (dict_set d k v) =
  if dict_mem k d then map fst d else map fst d ++ [k].
Proof.
  unfold dict_mem. induction d as [|[k' v'] d IH]; simpl; [reflexivity|].
  destruct (Z.eqb_spec k' k); simpl; [reflexivity|]. rewrite IH.
  destruct (existsb _ d); reflexivity.
Qed.

Lemma in_dict_set (d : dict) (k v k' v' : Z) :
  List.NoDup (map fst d) ->
  (In (k', v') (dict_set d k v) <->
   (k' = k /\ v' = v) \/ (k' <> k /\ In (k', v') d)).
Proof.
  induction d as [|[a b] d IH]; simpl; intros Hnd.
  - split.
    + intros [[= <- <-] | []]. left. split; reflexivity.
    + intros [[-> ->] | [_ []]]. now left.
  - apply List.NoDup_cons_iff in Hnd as [Hnin Hnd].
    destruct (Z.eqb_spec a k) as [-> | Hne]; simpl.
    + split.
      * intros [[= <- <-] | H]; [left; split; reflexivity|right].
        split; [|now right]. intros ->. apply Hnin.
        apply in_map_iff. exists (k, v'). split; [reflexivity|exact H].
      * intros [[-> ->] | [Hne [[= -> ->] | H]]]; [now left|congruence|now right].
    + rewrite (IH Hnd). split.
      * intros [[= <- <-] | [H | H]]; [right; split; [congruence|now left]|now left|].
        right. split; [tauto|right; tauto].
      * intros [H | [H1 [H2 | H2]]]; [right; now left|now left|right; right; tauto].
Qed.

Lemma dict_get_In (d : dict) (k v : Z) :
  List.NoDup (map fst d) -> In (k, v) d -> dict_get d k = v.
Proof.
  induction d as [|[a b] d IH]; simpl; intros Hnd Hin; [destruct Hin|].
  apply List.NoDup_cons_iff in Hnd as [Hnin Hnd].
  destruct (Z.eqb_spec a k) as [-> | Hne].
  - destruct Hin as [[= ->] | Hin]; [reflexivity|]. exfalso. apply Hnin.
    apply in_map_iff. exists (k, v). split; [reflexivity|exact Hin].
  - destruct Hin as [[= -> ->] | Hin]; [congruence|]. now apply IH.
Qed.

Lemma dict_set_NoDup (d : dict) (k v : Z) :
  List.NoDup (map fst d) -> List.NoDup (map fst (dict_set d k v)).
Proof.
  intros Hnd. rewrite dict_set_keys. destruct (dict_mem k d) eqn:E; [exact Hnd|].
  apply NoDup_ListNoDup. apply NoDup_app. split; [now apply NoDup_ListNoDup|].
  split; [|apply NoDup_singleton].
  intros x Hx Hx'. apply list_elem_of_In in Hx. apply list_elem_of_In in Hx'.
  destruct Hx' as [<- | []]. apply in_map_iff in Hx as ([k' v'] & E' & Hin).
  simpl in E'. subst k'.
  assert (dict_mem k d = true) by (apply dict_mem_In; eauto). congruence.
Qed.

(** Counting one more cell keeps the dict in step with the counts. *)
Lemma tally_cell (d : dict) (f : Z -> Z) (cell : option Z) :
  tallies d f ->
  tallies
    match cell with
    | Some c =>
        let pp_dict1 := if negb (dict_mem c d) then dict_set d c 0 else d in
        dict_set pp_dict1 c (dict_get pp_dict1 c + 1)
    | None => d
    end
    (fun k => if cell_eq cell k then f k + 1 else f k).
Proof.
  intros (Hnd & Hpos & Hd). destruct cell as [c|]; [|split; [|split]; assumption].
  cbn [cell_eq].
  set (d1 := if negb (dict_mem c d) then dict_set d c 0 else d).
  assert (Hnd1 : List.NoDup (map fst d1)).
  { unfold d1. destruct (negb (dict_mem c d)); [now apply dict_set_NoDup|exact Hnd]. }
  assert (Hget : dict_get d1 c = f c).
  { unfold d1. destruct (dict_mem c d) eqn:Em; cbn [negb].
    - apply dict_mem_In in Em as (v & Hv). pose proof (proj1 (Hd c v) Hv) as [-> _].
      now apply dict_get_In.
    - assert (f c = 0) as ->.
      { specialize (Hpos c). destruct (Z.eq_dec (f c) 0) as [E|E]; [exact E|].
        assert (dict_mem c d = true); [|congruence].
        apply dict_mem_In. exists (f c). apply Hd. split; [reflexivity|lia]. }
      apply dict_get_In; [now apply dict_set_NoDup|].
      apply in_dict_set; [exact Hnd|]. left. split; reflexivity. }
  assert (Hd1 : forall k v, k <> c -> (In (k, v) d1 <-> In (k, v) d)).
  { intros k v Hne. unfold d1. destruct (negb (dict_mem c d)); [|reflexivity].
    rewrite in_dict_set by exact Hnd. tauto. }
  cbn zeta. fold d1. split; [now apply dict_set_NoDup|]. split.
  - intros k. specialize (Hpos k). destruct (c =? k); lia.
  - intros k v. rewrite in_dict_set by exact Hnd1. rewrite Hget.
    destruct (Z.eqb_spec c k) as [<- | Hne].
    + specialize (Hpos c). split; [intros [[_ ->] | [H _]]; [lia|congruence]|].
      intros [-> _]. left. split; reflexivity.
    + split.
      * intros [[-> _] | [Hk H]]; [congruence|]. apply Hd. now apply Hd1.
      * intros H. right. split; [congruence|]. apply Hd1; [congruence|]. now apply Hd.
Qed.

Lemma tally_row (row : list (option Z)) :
  forall (d : dict) (f : Z -> Z),
    tallies d f ->
    tallies
      (fold_left
         (fun pp_dict cell =>
            match cell with
            | Some c =>
                let pp_dict1 :=
                  if negb (dict_mem c pp_dict) then dict_set pp_dict c 0
                  else pp_dict in
                dict_set pp_dict1 c (dict_get pp_dict1 c + 1)
            | None => pp_dict
            end)
         row d)
      (fun k =>
         fold_left (fun total cell => if cell_eq cell k then total + 1 else total)
           row (f k)).
Proof.
  induction row as [|cell row IH]; intros d f H; [exact H|].
  cbn [fold_left].
  exact (IH _ (fun k => if cell_eq cell k then f k + 1 else f k)
           (tally_cell d f cell H)).
Qed.

(** The dict that [outcome] builds holds the number of pieces of every
    player who has one. *)
Lemma tally_counts (g : BoardGridType) : tallies (tally g) (count_cells g).
Proof.
  unfold tally, count_cells.
  assert (G : forall (d : dict) (f : Z -> Z),
            tallies d f ->
            tallies
              (fold_left
                 (fun pp_dict row =>
                    fold_left
                      (fun pp_dict cell =>
                         match cell with
                         | Some c =>
                             let pp_dict1 :=
                               if negb (dict_mem c pp_dict) then dict_set pp_dict c 0
                               else pp_dict in
                             dict_set pp_dict1 c (dict_get pp_dict1 c + 1)
                         | None => pp_dict
                         end)
                      row pp_dict)
                 g d)
              (fun k =>
                 fold_left
                   (fun total row =>
                      fold_left
                        (fun total cell => if cell_eq cell k then total + 1 else total)
                        row total)
                   g (f k))).
  { induction g as [|row g IH]; intros d f H; [exact H|].
    cbn [fold_left].
    exact (IH _ _ (tally_row row d f H)). }
  apply (G [] (fun _ => 0)). split; [constructor|]. split; [intros; lia|].
  intros k v. split; [intros []|lia].
Qed.

Lemma fold_max (l : list Z) :
  forall a,
    a <= fold_left Z.max l a /\
    (forall x, In x l -> x <= fold_left Z.max l a) /\
    (fold_left Z.max l a = a \/ In (fold_left Z.max l a) l).
Proof.
  induction l as [|x l IH]; intros a; simpl.
  - split; [lia|]. split; [intros x []|now left].
  - destruct (IH (Z.max a x)) as (H1 & H2 & H3). split; [lia|]. split.
    + intros y [<- | Hy]; [lia|auto].
    + destruct H3 as [H3 | H3]; [|right; now right].
      destruct (Z.max_spec a x) as [[_ E] | [_ E]]; rewrite E in H3 |- *.
      * right. left. now rewrite H3.
      * now left.
Qed.

Lemma max_values_ok (d : dict) :
  d <> [] ->
  exists m, max_values d = Ok m /\ (exists k, In (k, m) d) /\
    forall k v, In (k, v) d -> v <= m.
Proof.
  destruct d as [|[k0 v0] d]; [congruence|]. intros _. simpl.
  eexists; split; [reflexivity|].
  destruct (fold_max (map snd d) v0) as (H1 & H2 & H3). split.
  - destruct H3 as [-> | H3]; [exists k0; now left|].
    apply in_map_iff in H3 as ([k v] & E & Hin). simpl in E. subst v.
    exists k. now right.
  - intros k v [[= <- <-] | Hin]; [exact H1|]. apply H2.
    apply in_map_iff. exists (k, v). split; [reflexivity|exact Hin].
Qed.

Lemma winners_fold (m : Z) (d : dict) :
  forall acc,
    fold_left
      (fun ret_lst '(player, piececount) =>
         if piececount =? m then ret_lst ++ [player] else ret_lst : list Z)
      d acc
    = acc ++ map fst (List.filter (fun kv => snd kv =? m) d).
Proof.
  induction d as [|[k v] d IH]; intros acc; simpl; [now rewrite app_nil_r|].
  rewrite IH. destruct (v =? m); simpl; [now rewrite <- app_assoc|reflexivity].
Qed.

Lemma filter_keys_NoDup (m : Z) (d : dict) :
  List.NoDup (map fst d) ->
  List.NoDup (map fst (List.filter (fun kv => snd kv =? m) d)).
Proof.
  induction d as [|[k v] d IH]; simpl; intros Hnd; [constructor|].
  apply List.NoDup_cons_iff in Hnd as [Hnin Hnd].
  destruct (v =? m); simpl; [|now apply IH].
  constructor; [|now apply IH]. intros Hin. apply Hnin.
  apply in_map_iff in Hin as (kv & E & Hin). apply filter_In in Hin as [Hin _].
  apply in_map_iff. exists kv. split; assumption.
Qed.

Lemma in_insert_sorted_int (p q : Z) (l : list Z) :
  In q (insert_sorted_int p l) <-> q = p \/ In q l.
Proof.
  induction l as [|x l IH]; simpl.
  - split; intros [H | H]; auto.
  - destruct (x <? p); simpl; rewrite ?IH; split; intuition auto.
Qed.

Lemma in_sort_int (q : Z) (l : list Z) : In q (sort_int l) <-> In q l.
Proof.
  unfold sort_int. induction l as [|x l IH]; simpl; [tauto|].
  rewrite in_insert_sorted_int, IH. split; intuition auto.
Qed.

Lemma insert_sorted_int_ascending (p : Z) (l : list Z) :
  StronglySorted Z.lt l -> ~ In p l -> StronglySorted Z.lt (insert_sorted_int p l).
Proof.
  induction l as [|q l IH]; intros Hs Hnin; simpl.
  - repeat constructor.
  - apply StronglySorted_inv in Hs as [Hs Hq].
    destruct (Z.ltb_spec q p) as [Hlt | Hge].
    + constructor.
      * apply IH; [exact Hs|]. intros Hin. apply Hnin. now right.
      * apply Forall_forall. intros x Hx. apply list_elem_of_In in Hx.
        apply in_insert_sorted_int in Hx as [-> | Hx]; [exact Hlt|].
        rewrite Forall_forall in Hq. apply Hq. now apply list_elem_of_In.
    + assert (Hpq : p < q).
      { assert (p <> q) by (intros ->; apply Hnin; now left). lia. }
      constructor; [constructor; assumption|].
      constructor; [exact Hpq|].
      rewrite Forall_forall in Hq |- *. intros x Hx. specialize (Hq x Hx). lia.
Qed.

Lemma sort_int_ascending (l : list Z) :
  List.NoDup l -> StronglySorted Z.lt (sort_int l).
Proof.
  induction 1 as [|x l Hnin Hnd IH]; simpl.
  - constructor.
  - apply insert_sorted_int_ascending; [exact IH|]. now rewrite in_sort_int.
Qed.

(** X10. [outcome] is the empty list while the game is not done.  When
    it is done and the grid holds a piece, the result lists, in
    strictly ascending order, exactly the players no other player has
    more pieces than; it is never empty.  When it is done and the grid
    holds no piece at all, [max] of an empty sequence raises
    [ValueError]. *)
Theorem outcome_lists_the_leaders (self : Reversi) :
  wf self ->
  exists d, done self = Ok d /\
    (d = false -> outcome self = Ok []) /\
    (d = true -> (forall v, count_cells (_grid self) v = 0) ->
     outcome self = Raise ValueError) /\
    (d = true -> forall v0, count_cells (_grid self) v0 <> 0 ->
     exists w, outcome self = Ok w /\ w <> [] /\ StronglySorted Z.lt w /\
       forall p, In p w <->
         forall q, count_cells (_grid self) q <= count_cells (_grid self) p).
Proof.
  intros Hwf.
  assert (Hd : exists d, done self = Ok d).
  { destruct (done_ok self Hwf) as [[E _] | [E _]]; eauto. }
  destruct Hd as (d & Ed). exists d. split; [exact Ed|].
  unfold outcome. rewrite Ed. cbn [bind].
  destruct (tally_counts (_grid self)) as (Hnd & Hpos & Hd).
  split; [intros ->; reflexivity|]. split.
  - intros -> Hzero. destruct (tally (_grid self)) as [|[k v] t] eqn:Et;
      [reflexivity|]. exfalso.
    destruct (proj1 (Hd k v) (or_introl eq_refl)) as [E1 E2].
    specialize (Hzero k). lia.
  - intros -> v0 Hv0.
    assert (Hin0 : In (v0, count_cells (_grid self) v0) (tally (_grid self))).
    { apply Hd. split; [reflexivity|]. specialize (Hpos v0). lia. }
    destruct (max_values_ok (tally (_grid self))) as (m & Em & (km & Hkm) & Hmax).
    { intros E. rewrite E in Hin0. destruct Hin0. }
    rewrite Em. cbn [bind]. eexists; split; [reflexivity|].
    rewrite winners_fold. cbn [app].
    assert (Hw : forall p,
              In p (map fst (List.filter (fun kv => snd kv =? m) (tally (_grid self))))
              <-> count_cells (_grid self) p = m).
    { intros p. rewrite in_map_iff. split.
      - intros ([k v] & E & Hin). simpl in E. subst k.
        apply filter_In in Hin as [Hin Ev]. simpl in Ev. apply Z.eqb_eq in Ev.
        apply Hd in Hin as [E _]. congruence.
      - intros E. exists (p, m). split; [reflexivity|]. apply filter_In.
        split; [|simpl; apply Z.eqb_refl]. apply Hd.
        split; [now rewrite E|]. apply (Hd km m). exact Hkm. }
    pose proof (proj1 (Hd km m) Hkm) as [Ekm Hm1].
    split; [|split].
    + intros E.
      assert (Hin : In km (sort_int (map fst
                (List.filter (fun kv => snd kv =? m) (tally (_grid self)))))).
      { apply in_sort_int, Hw. now rewrite Ekm. }
      rewrite E in Hin. destruct Hin.
    + apply sort_int_ascending. now apply filter_keys_NoDup.
    + intros p. rewrite in_sort_int, Hw. split.
      * intros E q. rewrite E. specialize (Hpos q).
        destruct (Z.eq_dec (count_cells (_grid self) q) 0) as [-> | Hq]; [lia|].
        apply (Hmax q). apply Hd. split; [reflexivity|lia].
      * intros Hall. pose proof (Hall km) as H1. rewrite <- Ekm in H1.
        assert (H2 : count_cells (_grid self) p <= m).
        { apply (Hmax p). apply Hd. split; [reflexivity|lia]. }
        lia.
Qed.

Lemma outcome_lists_the_leaders_witness :
  exists w, outcome finished3 = Ok w /\ w <> [] /\ StronglySorted Z.lt w.
Proof.
  destruct (outcome_lists_the_leaders finished3) as (d & Ed & _ & _ & H).
  - solve_wf.
  - assert (d = true) as ->.
    { assert (E : done finished3 = Ok true) by (vm_compute; reflexivity).
      congruence. }
    destruct (H eq_refl 1) as (w & Ew & Hne & Hsorted & _).
    + vm_compute. discriminate.
    + exists w. split; [exact Ew|]. split; assumption.
Defined.

(** ** The three bots *)

Lemma count_cells_nonneg (g : BoardGridType) (v : Z) : 0 <= count_cells g v.
Proof. destruct (tally_counts g) as (_ & H & _). apply H. Qed.

Lemma available_moves_on_board (self : Reversi) :
  wf self ->
  exists mv, available_moves self = Ok mv /\
    forall m, In m mv -> on_board (_side self) m.
Proof.
  intros Hwf. unfold available_moves.
  destruct (players_av_moves_ok self (_turn self) Hwf) as (mv & E & Hmv).
  exists mv. split; [exact E|]. intros m Hm. apply Hmv. exact Hm.
Qed.

Section Bots.

Variable float : Type.
Variable neg_inf : float.
Variable fdiv : Z -> Z -> float.
Variable fgt feq : float -> float -> bool.
Variable randint : Z -> Z -> Z.
Hypothesis randint_range : forall a b, a <= b -> a <= randint a b <= b.

(** The pick from a list that is not empty. *)
Lemma pick_ok {A : Type} (l : list A) :
  l <> [] -> exists a, getitem l (randint 0 (len l - 1)) = Ok a /\ In a l.
Proof.
  intros Hne. assert (Hlen : 1 <= len l).
  { destruct l; [congruence|]. unfold len. simpl. lia. }
  pose proof (randint_range 0 (len l - 1) ltac:(lia)) as Hr.
  destruct (getitem_ok l (randint 0 (len l - 1))) as (a & E & Ea); [lia|].
  exists a. split; [exact E|]. apply list_elem_of_In.
  eapply list_elem_of_lookup_2. exact Ea.
Qed.

(** X11. [random_move] never raises on a well-formed game: it leaves
    the game as it is when the player to move has no move, and
    otherwise applies one of the available moves. *)
Theorem random_move_applies_an_available_move (revgame : Reversi) :
  wf revgame ->
  exists mv, available_moves revgame = Ok mv /\
    (mv = [] -> random_move randint revgame = Ok revgame) /\
    (mv <> [] ->
     exists m revgame', In m mv /\ apply_move revgame m = Ok revgame' /\
       random_move randint revgame = Ok revgame').
Proof.
  intros Hwf. destruct (available_moves_on_board revgame Hwf) as (mv & E & Hon).
  exists mv. split; [exact E|]. unfold random_move. rewrite E. cbn [bind].
  split; [intros ->; reflexivity|]. intros Hne.
  destruct (pick_ok mv Hne) as (m & Em & Hm).
  destruct mv as [|m0 mv']; [congruence|]. cbn [nonempty]. rewrite Em. cbn [bind].
  destruct (apply_move_ok revgame m Hwf (Hon m Hm)) as (_ & s & Es & _).
  exists m, s. split; [exact Hm|]. split; exact Es.
Qed.

(** X12. [best_move] never raises on a well-formed game: it leaves the
    game as it is when the player to move has no move, and otherwise
    applies an available move after which the grid shows at least as
    many pieces of [turn] as after any other available move. *)
Theorem best_move_applies_a_greedy_move (revgame : Reversi) (turn : Z) :
  wf revgame ->
  exists mv, available_moves revgame = Ok mv /\
    (mv = [] -> best_move randint revgame turn = Ok revgame) /\
    (mv <> [] ->
     exists m revgame', In m mv /\ apply_move revgame m = Ok revgame' /\
       best_move randint revgame turn = Ok revgame' /\
       forall m' s', In m' mv -> simulate_moves revgame [m'] = Ok s' ->
         count_cells (_grid s') turn <= count_cells (_grid revgame') turn).
Proof.
  intros Hwf. destruct (available_moves_on_board revgame Hwf) as (mv & E & Hon).
  exists mv. split; [exact E|]. unfold best_move. rewrite E. cbn [bind].
  split; [intros ->; reflexivity|]. intros Hne.
  set (pot := fun m : Position =>
         match simulate_moves revgame [m] with
         | Ok s => count_cells (_grid s) turn
         | Raise _ => 0
         end).
  destruct (for_inv_prefix
    (fun (pre : ListMovesType) (st : Z * ListMovesType) =>
       (forall m, In m (snd st) -> In m pre /\ pot m = fst st) /\
       (forall m, In m pre -> pot m <= fst st) /\
       (snd st = [] -> pre = [] /\ fst st = 0))
    mv (best_step revgame turn) (0, []))
    as ([most best] & Eloop & Hbest & Hmost & Hnonempty).
  { split; [intros m []|]. split; [intros m []|]. split; reflexivity. }
  { intros pre x post [most best] Emv (Hb & Hm & Hn). simpl in Hb, Hm, Hn.
    assert (Hx : on_board (_side revgame) x).
    { apply Hon. rewrite Emv. apply in_or_app. right. now left. }
    destruct (simulate_one revgame x Hwf Hx) as (s & Es & _).
    unfold best_step. rewrite Es. cbn [bind].
    assert (Epot : pot x = count_cells (_grid s) turn) by (unfold pot; now rewrite Es).
    pose proof (count_cells_nonneg (_grid s) turn) as Hs.
    rewrite <- Epot in *.
    destruct (Z.ltb_spec most (pot x)) as [Hlt | Hge].
    - eexists; split; [reflexivity|]. simpl. split; [|split].
      + intros m [<- | []]. split; [apply in_or_app; right; now left|reflexivity].
      + intros m Hin. apply in_app_or in Hin as [Hin | [<- | []]]; [|lia].
        specialize (Hm m Hin). lia.
      + discriminate.
    - destruct (Z.eqb_spec (pot x) most) as [Heq | Hneq].
      + eexists; split; [reflexivity|]. simpl. split; [|split].
        * intros m Hin. apply in_app_or in Hin as [Hin | [<- | []]].
          -- destruct (Hb m Hin) as [H1 H2]. split; [apply in_or_app; now left|exact H2].
          -- split; [apply in_or_app; right; now left|exact Heq].
        * intros m Hin. apply in_app_or in Hin as [Hin | [<- | []]]; [auto|lia].
        * intros Hnil. apply app_eq_nil in Hnil as [_ Hnil]. discriminate.
      + eexists; split; [reflexivity|]. simpl. split; [|split].
        * intros m Hin. destruct (Hb m Hin) as [H1 H2].
          split; [apply in_or_app; now left|exact H2].
        * intros m Hin. apply in_app_or in Hin as [Hin | [<- | []]]; [auto|lia].
        * intros Hnil. destruct (Hn Hnil) as [_ H0]. lia. }
  simpl in Hbest, Hmost, Hnonempty.
  assert (Hb : best <> []).
  { intros Hnil. destruct (Hnonempty Hnil) as [H _]. congruence. }
  destruct mv as [|m0 mv']; [congruence|]. cbn [nonempty].
  rewrite Eloop. cbn [bind].
  destruct (pick_ok best Hb) as (m & Em & Hm).
  destruct best as [|b0 best']; [congruence|]. cbn [nonempty].
  rewrite Em. cbn [bind].
  destruct (Hbest m Hm) as [Hin Hpot].
  destruct (simulate_one revgame m Hwf (Hon m Hin)) as (s & Es & Eam & _).
  exists m, s. split; [exact Hin|]. split; [exact Eam|]. split; [exact Eam|].
  intros m' s' Hin' Es'. specialize (Hmost m' Hin').
  unfold pot in Hmost, Hpot. rewrite Es' in Hmost. rewrite Es in Hpot. lia.
Qed.

(** Whatever the comparisons of the averages answer, the loop of
    [seer_move] returns, and what it returns was in [best] or is one of
    the candidates. *)
Lemma seer_loop_ok (revgame : Reversi) (turn : Z) :
  wf revgame ->
  forall possible,
    (forall m, In m possible -> on_board (_side revgame) m) ->
    forall highest best,
      exists best',
        seer_loop float fdiv fgt feq revgame turn possible highest best = Ok best' /\
        forall m, In m best' -> In m best \/ In m possible.
Proof.
  intros Hwf. induction possible as [|move rest IH]; intros Hon highest best.
  - exists best. split; [reflexivity|]. intros m Hm. now left.
  - assert (Hrest : forall h b, exists best',
              seer_loop float fdiv fgt feq revgame turn rest h b = Ok best' /\
              forall m, In m best' -> In m b \/ In m (move :: rest)).
    { intros h b. destruct (IH (fun m Hm => Hon m (or_intror Hm)) h b)
        as (b' & Eb' & Hb'). exists b'. split; [exact Eb'|].
      intros m Hm. destruct (Hb' m Hm); [now left|right; now right]. }
    cbn [seer_loop].
    destruct (simulate_one revgame move Hwf (Hon move (or_introl eq_refl)))
      as (s & Es & _ & Hwf1).
    rewrite Es. cbn [bind].
    destruct (done_ok s Hwf1) as [[Ed _] | [Ed _]]; rewrite Ed; cbn [bind].
    + destruct (available_moves_on_board s Hwf1) as (np & Enp & Hnp).
      rewrite Enp. cbn [bind]. destruct (nonempty np); [|apply Hrest].
      destruct (for_inv (fun _ : Z => True) np
                  (fun total move_two =>
                     do final <- simulate_moves s [move_two] ;;
                     Ok (total + count_cells (_grid final) turn)) 0 I)
        as (total & -> & _).
      { intros total m2 Hin _.
        destruct (simulate_one s m2 Hwf1 (Hnp m2 Hin)) as (s2 & -> & _).
        simpl. eauto. }
      cbn [bind]. destruct (fgt _ _).
      * destruct (Hrest (fdiv total (len np)) [move]) as (b' & Eb' & Hb').
        exists b'. split; [exact Eb'|]. intros m Hm.
        destruct (Hb' m Hm) as [[<- | []] | H]; right; [now left|exact H].
      * destruct (feq _ _); [|apply Hrest].
        destruct (Hrest highest (best ++ [move])) as (b' & Eb' & Hb').
        exists b'. split; [exact Eb'|]. intros m Hm.
        destruct (Hb' m Hm) as [H | H]; [|now right].
        apply in_app_or in H as [H | [<- | []]]; [now left|right; now left].
    + exists [move]. split; [reflexivity|]. intros m [<- | []]. right. now left.
Qed.

(** X13. [seer_move] never raises on a well-formed game, whatever the
    float comparisons answer: the game is left as it is or one of the
    available moves is applied to it. *)
Theorem seer_move_applies_an_available_move (revgame : Reversi) (turn : Z) :
  wf revgame ->
  exists mv, available_moves revgame = Ok mv /\
    (seer_move float neg_inf fdiv fgt feq randint revgame turn = Ok revgame \/
     exists m revgame', In m mv /\ apply_move revgame m = Ok revgame' /\
       seer_move float neg_inf fdiv fgt feq randint revgame turn = Ok revgame').
Proof.
  intros Hwf. destruct (available_moves_on_board revgame Hwf) as (mv & E & Hon).
  exists mv. split; [exact E|]. unfold seer_move. rewrite E. cbn [bind].
  destruct (seer_loop_ok revgame turn Hwf mv Hon neg_inf []) as (best & -> & Hbest).
  cbn [bind]. destruct best as [|b0 best'] eqn:Eb; [now left|]. right.
  cbn [nonempty]. rewrite <- Eb in *.
  destruct (pick_ok best) as (m & Em & Hm); [rewrite Eb; discriminate|].
  rewrite Em. cbn [bind].
  assert (Hin : In m mv) by (destruct (Hbest m Hm) as [[] | H]; exact H).
  destruct (apply_move_ok revgame m Hwf (Hon m Hin)) as (_ & s & Es & _).
  exists m, s. split; [exact Hin|]. split; exact Es.
Qed.

End Bots.

Lemma random_move_applies_an_available_move_witness :
  exists mv, available_moves othello4 = Ok mv /\
    random_move (fun a _ => a) othello4 = apply_move othello4 (0, 1).
Proof.
  destruct (random_move_applies_an_available_move (fun a _ => a)
              ltac:(intros; simpl; lia) othello4 ltac:(solve_wf))
    as (mv & E & _ & _).
  exists mv. split; [exact E|]. vm_compute. reflexivity.
Defined.

Lemma best_move_applies_a_greedy_move_witness :
  exists mv, available_moves endgame4 = Ok mv /\
    best_move (fun a _ => a) endgame4 1 = apply_move endgame4 (3, 1).
Proof.
  destruct (best_move_applies_a_greedy_move (fun a _ => a)
              ltac:(intros; simpl; lia) endgame4 1 ltac:(solve_wf))
    as (mv & E & _ & _).
  exists mv. split; [exact E|]. vm_compute. reflexivity.
Defined.

Lemma seer_move_applies_an_available_move_witness :
  exists mv, available_moves endgame4 = Ok mv /\
    seer_move frac None frac_div frac_gt frac_eq (fun a _ => a) endgame4 1
    = apply_move endgame4 (3, 1).
Proof.
  destruct (seer_move_applies_an_available_move frac None frac_div frac_gt frac_eq
              (fun a _ => a) ltac:(intros; simpl; lia) endgame4 1 ltac:(solve_wf))
    as (mv & E & _).
  exists mv. split; [exact E|]. vm_compute. reflexivity.
Defined.

(** ** The starting position *)

Lemma empty_grid_cell {A : Type} (n : Z) (p : Position) :
  on_board n p -> cell_at (@empty_grid A n) p = Ok None.
Proof.
  intros [Hi Hj]. unfold cell_at, grid_get, empty_grid.
  rewrite (getitem_lookup _ (fst p) (repeat None (Z.to_nat n))).
  - simpl. apply getitem_lookup.
    + unfold len. rewrite repeat_length. lia.
    + apply lookup_repeat. lia.
  - unfold len. rewrite repeat_length. lia.
  - apply lookup_repeat. lia.
Qed.

(** A piece added on an empty cell shows there and nowhere else. *)
Lemma add_piece_on_empty (n : Z) (b : Board.t) (val : Z) (p : Position) :
  shape n (Board.grid b) -> on_board n p ->
  cell_at (Board.grid b) p = Ok None ->
  exists b',
    Board.add_piece b val p = Ok (b', true) /\ shape n (Board.grid b') /\
    forall q, on_board n q ->
      cell_at (Board.grid b') q =
      if pos_eqb q p then Ok (Some (mkPiece val)) else cell_at (Board.grid b) q.
Proof.
  intros Hs Hon Hnone. destruct p as [row col].
  destruct (add_piece_effect n b val row col Hs Hon)
    as (b' & added & E & Hs' & _ & Hadd & Hcell & _).
  assert (added = true) as -> by (now apply Hadd).
  exists b'. split; [exact E|]. split; [exact Hs'|].
  destruct (Hcell eq_refl) as [Hp Hother]. intros q Hq.
  destruct (pos_eqb q (row, col)) eqn:Eq.
  - apply pos_eqb_eq in Eq as ->. exact Hp.
  - apply Hother; [exact Hq|]. intros ->.
    assert (pos_eqb (row, col) (row, col) = true) by now apply pos_eqb_eq.
    congruence.
Qed.

(** The board that the constructor builds. *)
Lemma init_board_cells (side players : Z) (othello : bool) :
  valid_config side players othello ->
  exists board,
    (if othello then
       if players =? 2 then
         do '(b1, _) <- Board.add_piece (Board.__init__ side) 1
                          (side / 2 - 1, side / 2) ;;
         do '(b2, _) <- Board.add_piece b1 1 (side / 2, side / 2 - 1) ;;
         do '(b3, _) <- Board.add_piece b2 2 (side / 2 - 1, side / 2 - 1) ;;
         do '(b4, _) <- Board.add_piece b3 2 (side / 2, side / 2) ;;
         Ok b4
       else Raise ValueError
     else Ok (Board.__init__ side)) = Ok board /\
    shape side (Board.grid board) /\
    forall q, on_board side q ->
      cell_at (Board.grid board) q
      = Ok (option_map mkPiece (start_cell side othello q)).
Proof.
  intros (Hs & Hp & Hps & Hpar & Ho).
  pose proof (@shape_empty_grid Piece side ltac:(lia)) as Hb0.
  destruct othello.
  2:{ exists (Board.__init__ side). split; [reflexivity|]. split; [exact Hb0|].
      intros q Hq. simpl. now apply empty_grid_cell. }
  rewrite (Ho eq_refl) in *. cbn [Z.eqb Pos.eqb].
  pose proof (Z.div_mod side 2 ltac:(lia)) as Hdm.
  pose proof (Z.mod_pos_bound side 2 ltac:(lia)) as Hms.
  change (2 mod 2) with 0 in Hpar.
  set (h := side / 2) in *.
  assert (Hon : forall a b, h - 1 <= a <= h -> h - 1 <= b <= h -> on_board side (a, b)).
  { intros a b Ha Hb. split; simpl; lia. }
  assert (Hne : forall a b c d, (a, b) <> (c, d) -> pos_eqb (a, b) (c, d) = false).
  { intros a b c d H. destruct (pos_eqb (a, b) (c, d)) eqn:E; [|reflexivity].
    apply pos_eqb_eq in E. contradiction. }
  destruct (add_piece_on_empty side (Board.__init__ side) 1 (h - 1, h) Hb0)
    as (b1 & -> & Hb1 & Hc1); [apply Hon; lia|apply empty_grid_cell; apply Hon; lia|].
  cbn [bind].
  destruct (add_piece_on_empty side b1 1 (h, h - 1) Hb1)
    as (b2 & -> & Hb2 & Hc2); [apply Hon; lia| |].
  { rewrite Hc1 by (apply Hon; lia). rewrite Hne by (intros [= ]; lia).
    apply empty_grid_cell. apply Hon; lia. }
  cbn [bind].
  destruct (add_piece_on_empty side b2 2 (h - 1, h - 1) Hb2)
    as (b3 & -> & Hb3 & Hc3); [apply Hon; lia| |].
  { rewrite Hc2 by (apply Hon; lia). rewrite Hne by (intros [= ]; lia).
    rewrite Hc1 by (apply Hon; lia). rewrite Hne by (intros [= ]; lia).
    apply empty_grid_cell. apply Hon; lia. }
  cbn [bind].
  destruct (add_piece_on_empty side b3 2 (h, h) Hb3)
    as (b4 & -> & Hb4 & Hc4); [apply Hon; lia| |].
  { rewrite Hc3 by (apply Hon; lia). rewrite Hne by (intros [= ]; lia).
    rewrite Hc2 by (apply Hon; lia). rewrite Hne by (intros [= ]; lia).
    rewrite Hc1 by (apply Hon; lia). rewrite Hne by (intros [= ]; lia).
    apply empty_grid_cell. apply Hon; lia. }
  cbn [bind]. exists b4. split; [reflexivity|]. split; [exact Hb4|].
  intros q Hq. rewrite Hc4, Hc3, Hc2, Hc1 by exact Hq. unfold start_cell.
  fold h.
  destruct (pos_eqb q (h - 1, h)) eqn:E1; destruct (pos_eqb q (h, h - 1)) eqn:E2;
    destruct (pos_eqb q (h - 1, h - 1)) eqn:E3; destruct (pos_eqb q (h, h)) eqn:E4;
    cbn [orb option_map]; try reflexivity;
    try (now apply empty_grid_cell);
    exfalso;
    repeat match goal with
           | H : pos_eqb _ _ = true |- _ => apply pos_eqb_eq in H
           end; subst q;
    repeat match goal with
           | H : (_, _) = (_, _) |- _ => injection H; clear H; intros
           end; lia.
Qed.

(** The state that the constructor returns. *)
Lemma init_state (side players : Z) (othello : bool) (g : Reversi) :
  __init__ side players othello = Ok g ->
  _side g = side /\ _players g = players /\ _othello g = othello /\
  _turn g = 1 /\ _num_moves g = 0 /\
  forall p, on_board side p ->
    cell_at (Board.grid (_board g)) p
    = Ok (option_map mkPiece (start_cell side othello p)) /\
    cell_at (_grid g) p = Ok (start_cell side othello p).
Proof.
  intros E. pose proof (init_ok_valid _ _ _ _ E) as Hv.
  rewrite (init_valid_unfold _ _ _ Hv) in E.
  destruct (init_board_cells _ _ _ Hv) as (board & Eb & Hb & Hcells).
  rewrite Eb in E. cbn [bind] in E.
  apply bind_ok in E as (grid & Efill & [= <-]). simpl.
  repeat (split; [reflexivity|]).
  destruct (fill_grid_synced side (Board.grid board) grid Hb Efill) as [Hg Hsy].
  intros p Hp. split; [now apply Hcells|].
  destruct Hp as [Hi Hj]. destruct (Hsy _ _ Hi Hj) as (pc & Epc & Egrid).
  specialize (Hcells p (conj Hi Hj)). unfold cell_at in *.
  rewrite Hcells in Epc. injection Epc as <-. rewrite Egrid.
  destruct (start_cell side othello p); reflexivity.
Qed.

(** X14. The state that the constructor returns has the configuration
    it was given, turn 1 and no move made; its board is empty, except
    in the othello variant for player 1 on the two cells
    (side/2 - 1, side/2), (side/2, side/2 - 1) and player 2 on
    (side/2 - 1, side/2 - 1), (side/2, side/2); [_grid] and [_board]
    show the same pieces. *)
Theorem init_builds_the_starting_position (side players : Z) (othello : bool)
    (g : Reversi) :
  __init__ side players othello = Ok g ->
  _side g = side /\ _players g = players /\ _othello g = othello /\
  _turn g = 1 /\ _num_moves g = 0 /\
  forall p, on_board side p ->
    cell_at (Board.grid (_board g)) p
    = Ok (option_map mkPiece (start_cell side othello p)) /\
    cell_at (_grid g) p = Ok (start_cell side othello p).
Proof. exact (init_state side players othello g). Qed.

Lemma init_builds_the_starting_position_witness :
  cell_at (_grid othello4) (1, 2) = Ok (Some 1) /\ _turn othello4 = 1.
Proof.
  destruct (init_builds_the_starting_position 4 2 true othello4)
    as (_ & _ & _ & Ht & _ & Hc); [vm_compute; reflexivity|].
  split; [|exact Ht].
  destruct (Hc (1, 2)) as [_ H]; [split; simpl; lia|exact H].
Defined.

Lemma pos_eqb_ne (p q : Position) : p <> q -> pos_eqb p q = false.
Proof.
  intros H. destruct (pos_eqb p q) eqn:E; [|reflexivity].
  apply pos_eqb_eq in E. contradiction.
Qed.

(** X15. A game is never over when it is constructed: player 1, whose
    turn it is, has a move. *)
Theorem init_leaves_player_one_a_move (side players : Z) (othello : bool)
    (g : Reversi) :
  __init__ side players othello = Ok g ->
  done g = Ok false /\ exists m ms, available_moves g = Ok (m :: ms).
Proof.
  intros E. pose proof (init_ok_valid _ _ _ _ E) as Hv.
  destruct (init_wf_synced _ _ _ _ E) as [Hwf _].
  destruct (init_state _ _ _ _ E) as (Es & Ep & Eo & Et & En & Hcells).
  destruct Hv as (Hs & Hp & Hps & Hpar & Ho).
  assert (Hmove : exists m mv, players_av_moves g 1 = Ok mv /\ In m mv).
  { destruct othello.
    - assert (Hop : opening g = false) by (unfold opening; now rewrite Eo).
      destruct (players_av_moves_normal g 1 Hwf Hop) as (mv & Emv & _ & Hmv).
      specialize (Ho eq_refl). subst players.
      pose proof (Z.div_mod side 2 ltac:(lia)) as Hdm.
      change (2 mod 2) with 0 in Hpar.
      assert (Hcell : forall a b v,
                0 <= a < side -> 0 <= b < side ->
                start_cell side true (a, b) = v ->
                cell_at (_grid g) (a, b) = Ok v /\
                cell_at (Board.grid (_board g)) (a, b) = Ok (option_map mkPiece v)).
      { intros a b v Ha Hb <-. destruct (Hcells (a, b)) as [H1 H2];
          [split; assumption|]. split; assumption. }
      exists (side / 2 - 2, side / 2 - 1), mv. split; [exact Emv|]. apply Hmv.
      rewrite Es. split; [split; simpl; lia|]. split.
      + apply (Hcell _ _ None); [lia|lia|]. unfold start_cell.
        rewrite !pos_eqb_ne by (intros [= ]; lia). reflexivity.
      + exists 1, 0, 1. split; [unfold unit_dir; lia|]. split; [lia|].
        split; [lia|]. unfold ray. cbn [fst snd].
        replace (side / 2 - 2 + (1 + 1) * 1) with (side / 2) by lia.
        replace (side / 2 - 1 + (1 + 1) * 0) with (side / 2 - 1) by lia.
        split; [|split].
        * intros k Hk. assert (k = 1) as -> by lia.
          replace (side / 2 - 2 + 1 * 1) with (side / 2 - 1) by lia.
          replace (side / 2 - 1 + 1 * 0) with (side / 2 - 1) by lia.
          split; [split; simpl; lia|]. exists 2. split; [|lia].
          apply (Hcell _ _ (Some 2)); [lia|lia|]. unfold start_cell.
          rewrite (pos_eqb_ne _ (side / 2 - 1, side / 2)) by (intros [= ]; lia).
          rewrite (pos_eqb_ne _ (side / 2, side / 2 - 1)) by (intros [= ]; lia).
          rewrite (proj2 (pos_eqb_eq _ _) eq_refl). reflexivity.
        * split; simpl; lia.
        * apply (Hcell _ _ (Some 1)); [lia|lia|]. unfold start_cell.
          rewrite (pos_eqb_ne _ (side / 2 - 1, side / 2)) by (intros [= ]; lia).
          rewrite (proj2 (pos_eqb_eq _ _) eq_refl). reflexivity.
    - assert (Hop : opening g = true).
      { unfold opening. rewrite Eo, En, Ep. simpl. apply Z.ltb_lt. nia. }
      destruct (players_av_moves_opening g 1 Hwf Hop) as (mv & Emv & _ & Hmv).
      exists (side / 2 - players / 2, side / 2 - players / 2), mv.
      split; [exact Emv|]. apply Hmv. rewrite Es, Ep. cbn [fst snd].
      split; [lia|].
      assert (Hb : 0 <= side / 2 - players / 2 < side).
      { apply (central_block side players); lia. }
      destruct (Hcells (side / 2 - players / 2, side / 2 - players / 2)) as [_ H];
        [split; exact Hb|exact H]. }
  destruct Hmove as (m & mv & Emv & Hm).
  destruct mv as [|m0 ms]; [destruct Hm|]. split.
  - destruct (done_ok g Hwf) as [[Ed _] | [_ Hall]]; [exact Ed|].
    assert (Hno : no_moves g 1) by (apply Hall; rewrite Ep; lia).
    unfold no_moves in Hno. congruence.
  - exists m0, ms. unfold available_moves. now rewrite Et.
Qed.

Lemma init_leaves_player_one_a_move_witness : done fresh4 = Ok false.
Proof.
  exact (proj1 (init_leaves_player_one_a_move 4 2 false fresh4
                  ltac:(vm_compute; reflexivity))).
Defined.

(** ** The pieces that a move takes *)

Lemma run_anchored (n : Z) (g : BoardGridType) (val row col ydir xdir K : Z) :
  run n g val row col ydir xdir K -> anchored n g val row col ydir xdir (K + 1).
Proof.
  intros (HK & Hmid & Hend1 & Hend2). split; [|exact Hend2].
  intros k Hk. destruct (Z.eq_dec k (K + 1)) as [-> | Hne].
  - split; [exact Hend1|eauto].
  - destruct (Hmid k ltac:(lia)) as (Hon & v & Hv & _). eauto.
Qed.

Lemma anchored_shift (n : Z) (g : BoardGridType) (val row col ydir xdir m : Z) :
  2 <= m -> anchored n g val row col ydir xdir m ->
  anchored n g val (row + ydir) (col + xdir) ydir xdir (m - 1).
Proof.
  intros Hm [Hcells Hend]. split.
  - intros k Hk. rewrite ray_shift. apply Hcells. lia.
  - rewrite ray_shift. replace (m - 1 + 1) with m by lia. exact Hend.
Qed.

Lemma anchored_unshift (n : Z) (g : BoardGridType) (val row col ydir xdir m v : Z) :
  1 <= m -> on_board n (row + ydir, col + xdir) ->
  cell_at g (row + ydir, col + xdir) = Ok (Some v) ->
  anchored n g val (row + ydir) (col + xdir) ydir xdir m ->
  anchored n g val row col ydir xdir (m + 1).
Proof.
  intros Hm Hon Hv [Hcells Hend]. split.
  - intros k Hk. destruct (Z.eq_dec k 1) as [-> | Hne].
    + rewrite ray_1. split; [exact Hon|eauto].
    + replace k with (k - 1 + 1) by lia. rewrite <- ray_shift. apply Hcells. lia.
  - rewrite <- ray_shift. exact Hend.
Qed.

(** A piece of [val] with no gap before it ends an outflanked run. *)
Lemma anchored_run (n : Z) (g : BoardGridType) (val ydir xdir : Z) :
  forall (m' : nat) (row col : Z),
    anchored n g val row col ydir xdir (Z.of_nat (S m')) ->
    exists K, run n g val row col ydir xdir K.
Proof.
  induction m' as [|m' IH]; intros row col Ha.
  - destruct Ha as [Hcells Hend]. exists 0. split; [lia|].
    split; [intros k Hk; lia|]. split; [|exact Hend].
    apply (Hcells 1). lia.
  - pose proof Ha as [Hcells Hend].
    destruct (Hcells 1 ltac:(lia)) as (Hon & v & Hv). rewrite ray_1 in Hon, Hv.
    destruct (Z.eq_dec v val) as [-> | Hne].
    + exists 0. split; [lia|]. split; [intros k Hk; lia|].
      simpl. rewrite ray_1. split; assumption.
    + destruct (IH (row + ydir) (col + xdir)) as (K & HK).
      { replace (Z.of_nat (S m')) with (Z.of_nat (S (S m')) - 1) by lia.
        apply anchored_shift; [lia|exact Ha]. }
      exists (K + 1). eapply run_step; eassumption.
Qed.

Lemma anchored_transfer (n : Z) (g g' : BoardGridType)
    (val row col ydir xdir m : Z) :
  anchored n g val row col ydir xdir m ->
  (forall k, 1 <= k <= m ->
     cell_at g' (ray row col ydir xdir k) = cell_at g (ray row col ydir xdir k)) ->
  1 <= m ->
  anchored n g' val row col ydir xdir m.
Proof.
  intros [Hcells Hend] Hsame Hm. split.
  - intros k Hk. rewrite Hsame by exact Hk. apply Hcells, Hk.
  - rewrite Hsame by lia. exact Hend.
Qed.

(** Whether a piece is taken depends on the cells of the ray only. *)
Lemma taken_transfer (n : Z) (g g' : BoardGridType) (val row col ydir xdir : Z)
    (q : Position) :
  (forall k, 1 <= k -> on_board n (ray row col ydir xdir k) ->
     cell_at g' (ray row col ydir xdir k) = cell_at g (ray row col ydir xdir k)) ->
  taken n g val row col ydir xdir q -> taken n g' val row col ydir xdir q.
Proof.
  intros Hsame (k & m & v & Hk & -> & Hv & Hne & Ha).
  exists k, m, v. split; [exact Hk|]. split; [reflexivity|].
  pose proof Ha as [Hcells _]. split; [|split; [exact Hne|]].
  - rewrite Hsame; [exact Hv|lia|]. apply Hcells. lia.
  - apply (anchored_transfer n g); [exact Ha| |lia].
    intros j Hj. apply Hsame; [lia|]. apply Hcells, Hj.
Qed.

(** [flip_pieces], called as [apply_move] calls it (on a state whose
    [_grid] and [_board] agree, in a direction that starts an outflanked
    run), turns over exactly the pieces that are taken in that
    direction. *)
Lemma flip_pieces_rec_exact (n val ydir xdir : Z) :
  unit_dir ydir xdir ->
  forall (fuel : nat) (self : Reversi) (row col : Z),
    shapes n self -> synced n self ->
    on_board n (row + ydir, col + xdir) ->
    room n (row + ydir) (col + xdir) ydir xdir <= Z.of_nat fuel ->
    (exists K, run n (_grid self) val row col ydir xdir K) ->
    exists self',
      flip_pieces_rec fuel self val (row, col) ydir xdir = Ok self' /\
      same_config self self' /\ shapes n self' /\ synced n self' /\
      forall q, on_board n q ->
        (taken n (_grid self) val row col ydir xdir q ->
         cell_at (_grid self') q = Ok (Some val)) /\
        (~ taken n (_grid self) val row col ydir xdir q ->
         cell_at (_grid self') q = cell_at (_grid self) q).
Proof.
  intros Hd. induction fuel as [|fuel IH]; intros self row col Hsh Hsy Hon Hroom Hrun.
  { pose proof (room_pos n _ _ ydir xdir Hon). lia. }
  simpl. pose proof Hon as [Hr Hc]. simpl in Hr, Hc. pose proof Hsh as [Hg Hb].
  destruct (grid_get_ok n _ _ _ Hg Hr Hc) as (c & Ec). rewrite Ec. simpl.
  destruct (flip_stage n self val (row + ydir) (col + xdir) c Hsh Hon Ec)
    as (s1 & -> & Hcfg1 & Hsh1 & Hoth1 & Hat1 & Hsync1).
  destruct (Hsync1 Hsy) as [Hsy1 Hflip1].
  simpl. pose proof Hsh1 as [Hg1 Hb1].
  assert (Ec' : cell_at (_grid self) (ray row col ydir xdir 1) = Ok c).
  { rewrite ray_1. exact Ec. }
  (* the neighbour holds a piece *)
  assert (Hpiece : exists v, c = Some v).
  { destruct Hrun as (K & HK0 & Hmid & _ & Hend).
    destruct (Z.eq_dec K 0) as [-> | HKne].
    - change (0 + 1) with 1 in Hend. rewrite Ec' in Hend. injection Hend as ->. eauto.
    - destruct (Hmid 1 ltac:(lia)) as (_ & v & Hv & _). rewrite Ec' in Hv.
      injection Hv as ->. eauto. }
  destruct Hpiece as (v & ->).
  (* the neighbour is taken exactly when it is not a piece of [val] *)
  assert (T1 : taken n (_grid self) val row col ydir xdir (row + ydir, col + xdir)
               <-> v <> val).
  { split.
    - intros (k & m & v' & Hk & Eq & Hv' & Hne & _).
      unfold cell_at in Hv'. simpl in Hv'. rewrite Ec in Hv'. congruence.
    - intros Hne. destruct Hrun as (K & HK).
      assert (1 <= K).
      { destruct HK as (HK0 & _ & _ & Hend).
        destruct (Z.eq_dec K 0) as [-> | ]; [|lia].
        change (0 + 1) with 1 in Hend. rewrite Ec' in Hend. congruence. }
      exists 1, (K + 1), v. split; [lia|]. split; [now rewrite ray_1|].
      split; [exact Ec|]. split; [exact Hne|]. now apply run_anchored. }
  (* every other cell is taken exactly when it is taken from the neighbour on *)
  assert (Hsame1 : forall k, 1 <= k ->
            on_board n (ray (row + ydir) (col + xdir) ydir xdir k) ->
            cell_at (_grid s1) (ray (row + ydir) (col + xdir) ydir xdir k)
            = cell_at (_grid self) (ray (row + ydir) (col + xdir) ydir xdir k)).
  { intros k Hk Hq. apply Hoth1; [exact Hq|]. apply ray_ne_start; assumption. }
  assert (T2 : forall q, q <> (row + ydir, col + xdir) ->
            (taken n (_grid self) val row col ydir xdir q <->
             taken n (_grid s1) val (row + ydir) (col + xdir) ydir xdir q)).
  { intros q Hq. split.
    - intros (k & m & v' & Hk & -> & Hv' & Hne & Ha).
      assert (k <> 1) by (intros ->; apply Hq; apply ray_1).
      apply (taken_transfer n (_grid self)).
      { intros j Hj Hj'. now apply Hsame1. }
      exists (k - 1), (m - 1), v'. split; [lia|].
      split; [rewrite ray_shift; f_equal; lia|].
      split; [exact Hv'|]. split; [exact Hne|].
      apply anchored_shift; [lia|exact Ha].
    - intros Ht. apply (taken_transfer n (_grid s1) (_grid self)) in Ht.
      2:{ intros j Hj Hj'. symmetry. now apply Hsame1. }
      destruct Ht as (k & m & v' & Hk & -> & Hv' & Hne & Ha).
      exists (k + 1), (m + 1), v'. split; [lia|].
      split; [apply ray_shift|]. split; [exact Hv'|]. split; [exact Hne|].
      apply (anchored_unshift n (_grid self) val row col ydir xdir m v);
        [lia|exact Hon|exact Ec|exact Ha]. }
  (* what the first half did to the neighbour *)
  assert (Hq1 : (taken n (_grid self) val row col ydir xdir (row + ydir, col + xdir) ->
                 cell_at (_grid s1) (row + ydir, col + xdir) = Ok (Some val)) /\
                (~ taken n (_grid self) val row col ydir xdir (row + ydir, col + xdir) ->
                 cell_at (_grid s1) (row + ydir, col + xdir)
                 = cell_at (_grid self) (row + ydir, col + xdir))).
  { split.
    - intros Ht. apply Hflip1. exists v. split; [reflexivity|]. now apply T1.
    - intros Hnt. destruct Hat1 as [Hsame | ((v' & [= <-] & Hne) & _)].
      + rewrite Hsame. symmetry. exact Ec.
      + exfalso. apply Hnt. now apply T1. }
  (* the result when the walk stops after the first half *)
  assert (Hstop : (forall q, q <> (row + ydir, col + xdir) ->
                     ~ taken n (_grid s1) val (row + ydir) (col + xdir) ydir xdir q) ->
            exists self',
              Ok s1 = Ok self' /\ same_config self self' /\ shapes n self' /\
              synced n self' /\
              forall q, on_board n q ->
                (taken n (_grid self) val row col ydir xdir q ->
                 cell_at (_grid self') q = Ok (Some val)) /\
                (~ taken n (_grid self) val row col ydir xdir q ->
                 cell_at (_grid self') q = cell_at (_grid self) q)).
  { intros Hnone. exists s1. split; [reflexivity|]. split; [exact Hcfg1|].
    split; [exact Hsh1|]. split; [exact Hsy1|]. intros q Hq.
    destruct (decide (q = (row + ydir, col + xdir))) as [-> | Hne]; [exact Hq1|].
    split.
    - intros Ht. exfalso. apply (Hnone q Hne). now apply T2.
    - intros _. now apply Hoth1. }
  rewrite (in_grid_shape s1 n) by exact Hg1. simpl.
  destruct (inb n (row + 2 * ydir) (col + 2 * xdir)) eqn:Einb.
  - apply inb_true in Einb.
    assert (Hon2 : on_board n (row + ydir + ydir, col + xdir + xdir)).
    { destruct Einb as [E1 E2]. simpl in E1, E2. split; simpl; lia. }
    destruct (check_end_ok s1 n val (row + ydir) (col + xdir) ydir xdir Hg1 Hd Hon2)
      as (e & Ee).
    pose proof (check_end_run s1 n val (row + ydir) (col + xdir) ydir xdir Hg1 Hd Hon2)
      as Hce.
    rewrite Ee. simpl. destruct e.
    + destruct (IH s1 (row + ydir) (col + xdir) Hsh1 Hsy1 Hon2) as
        (s' & -> & Hcfg' & Hsh' & Hsy' & Hcells').
      { rewrite room_next by exact Hd. lia. }
      { now apply Hce. }
      exists s'. split; [reflexivity|].
      split; [eapply same_config_trans; eassumption|]. split; [exact Hsh'|].
      split; [exact Hsy'|]. intros q Hq.
      destruct (Hcells' q Hq) as [Hyes Hno].
      destruct (decide (q = (row + ydir, col + xdir))) as [-> | Hne].
      * assert (Hnt : ~ taken n (_grid s1) val (row + ydir) (col + xdir) ydir xdir
                        (row + ydir, col + xdir)).
        { intros (k & m & v' & Hk & Eq & _).
          symmetry in Eq. apply ray_ne_start in Eq; [exact Eq|exact Hd|lia]. }
        rewrite (Hno Hnt). exact Hq1.
      * split.
        -- intros Ht. apply Hyes. now apply T2.
        -- intros Hnt. rewrite Hno; [now apply Hoth1|].
           intros Ht. apply Hnt. now apply T2.
    + apply Hstop. intros q Hne (k & m & v' & Hk & _ & _ & _ & Ha).
      assert (check_end s1 val (row + ydir, col + xdir) ydir xdir = Ok true);
        [|congruence].
      apply Hce. apply (anchored_run n (_grid s1) val ydir xdir (Z.to_nat (m - 1))).
      replace (Z.of_nat (S (Z.to_nat (m - 1)))) with m by lia. exact Ha.
  - apply Hstop. intros q Hne (k & m & v' & Hk & _ & _ & _ & [Hcells _]).
    destruct (Hcells 1 ltac:(lia)) as [Hon1 _]. rewrite ray_1 in Hon1.
    assert (inb n (row + 2 * ydir) (col + 2 * xdir) = true); [|congruence].
    apply inb_true. destruct Hon1 as [H1 H2]. simpl in H1, H2. split; simpl; lia.
Qed.

Lemma flip_pieces_exact (n : Z) (self : Reversi) (val row col ydir xdir : Z) :
  unit_dir ydir xdir -> shapes n self -> synced n self ->
  on_board n (row + ydir, col + xdir) ->
  (exists K, run n (_grid self) val row col ydir xdir K) ->
  exists self',
    flip_pieces self val (row, col) ydir xdir = Ok self' /\
    same_config self self' /\ shapes n self' /\ synced n self' /\
    forall q, on_board n q ->
      (taken n (_grid self) val row col ydir xdir q ->
       cell_at (_grid self') q = Ok (Some val)) /\
      (~ taken n (_grid self) val row col ydir xdir q ->
       cell_at (_grid self') q = cell_at (_grid self) q).
Proof.
  intros Hd Hsh Hsy Hon Hrun. unfold flip_pieces.
  apply flip_pieces_rec_exact; try assumption.
  rewrite (depth_shape self n) by (try apply Hsh; destruct Hon; simpl in *; lia).
  now apply room_le.
Qed.

Lemma taken_from_mono (n : Z) (g : BoardGridType) (val row col : Z)
    (pre : list Position) (x q : Position) :
  taken_from n g val row col pre q -> taken_from n g val row col (pre ++ [x]) q.
Proof.
  intros (dy & dx & Hin & Hrest). exists dy, dx.
  split; [apply in_or_app; now left|exact Hrest].
Qed.

(** One iteration of the neighbour loop keeps [flip_inv]. *)
Lemma flip_around_exact_step (n row col : Z) (s1 : Reversi) (pre : list Position)
    (i j : Z) (s : Reversi) :
  _side s1 = n ->
  In (i, j) (around row col) -> ~ In (i, j) pre ->
  flip_inv n row col s1 pre s ->
  exists s', flip_around (row, col) s i j = Ok s' /\
             flip_inv n row col s1 (pre ++ [(i, j)]) s'.
Proof.
  intros Hside Hin Hnin (Hcfg & Hsh & Hsy & Hopen & Hnormal & Hdisj).
  apply in_around in Hin as [Hi Hj].
  pose proof Hcfg as (Es & Ep & Eo & Et & En).
  assert (Edir : (i, j) = (row + (i - row), col + (j - col))) by (f_equal; lia).
  (* the state is kept when the direction takes nothing *)
  assert (Hkeep : (forall dy dx q, unit_dir dy dx -> (i, j) = (row + dy, col + dx) ->
                     opening s1 = false ->
                     ~ taken n (_grid s1) (_turn s1) row col dy dx q) ->
                  flip_inv n row col s1 (pre ++ [(i, j)]) s).
  { intros Hnone. split; [exact Hcfg|]. split; [exact Hsh|]. split; [exact Hsy|].
    split; [exact Hopen|]. split; [|exact Hdisj].
    intros Ho1 q Hq. destruct (Hnormal Ho1 q Hq) as [Hyes Hno].
    split.
    - intros (dy & dx & Hin' & Hd & Ht). apply in_app_or in Hin' as [Hin' | [E | []]].
      + apply Hyes. exists dy, dx. auto.
      + exfalso. exact (Hnone dy dx q Hd E Ho1 Ht).
    - intros Hnt. apply Hno. intros Ht. apply Hnt. now apply taken_from_mono. }
  unfold flip_around. rewrite Es, Hside. fold (inb n i j).
  destruct (inb n i j && (negb (i =? row) || negb (j =? col))) eqn:Econd.
  2:{ exists s. split; [reflexivity|]. apply Hkeep.
      intros dy dx q Hd E _ (k & m & v & Hk & _ & _ & _ & [Hcells _]).
      injection E as -> ->.
      destruct (Hcells 1 ltac:(lia)) as [Hon _].
      rewrite ray_1 in Hon. apply inb_true in Hon. rewrite Hon in Econd.
      destruct Hd as (_ & _ & Hnz). simpl in Econd.
      destruct (Z.eqb_spec (row + dy) row), (Z.eqb_spec (col + dx) col);
        simpl in Econd; try discriminate; lia. }
  apply andb_true_iff in Econd as [Einb Ectr]. apply inb_true in Einb.
  destruct Einb as [Hi' Hj']. simpl in Hi', Hj'.
  assert (Hd : unit_dir (i - row) (j - col)).
  { split; [lia|]. split; [lia|].
    destruct (Z.eqb_spec i row), (Z.eqb_spec j col); simpl in Ectr;
      try discriminate; lia. }
  assert (Hon : on_board n (row + (i - row), col + (j - col)))
    by (split; simpl; lia).
  pose proof Hsh as [Hg Hb].
  destruct (grid_get_ok n _ i j Hb Hi' Hj') as (pc & ->). simpl.
  destruct (check_end_ok s n (_turn s) row col (i - row) (j - col) Hg Hd Hon)
    as (e & Ee).
  rewrite Ee. simpl. rewrite Et in Ee.
  pose proof (check_end_run s n (_turn s1) row col (i - row) (j - col) Hg Hd Hon)
    as Hce.
  (* the ray of a direction not yet visited is as it was *)
  assert (Hfresh : forall k, 1 <= k ->
            on_board n (ray row col (i - row) (j - col) k) ->
            cell_at (_grid s) (ray row col (i - row) (j - col) k)
            = cell_at (_grid s1) (ray row col (i - row) (j - col) k)).
  { intros k Hk Hq. destruct (opening s1) eqn:Eop; [now rewrite (Hopen eq_refl)|].
    apply (Hnormal eq_refl _ Hq).
    intros (dy & dx & Hin' & Hd' & (k' & m & v & Hk' & Eq & _)).
    apply ray_dir_inj in Eq as [E1 E2]; [|assumption|assumption|lia|lia].
    apply Hnin. rewrite Edir, E1, E2. exact Hin'. }
  assert (Htk : forall q,
            taken n (_grid s) (_turn s1) row col (i - row) (j - col) q <->
            taken n (_grid s1) (_turn s1) row col (i - row) (j - col) q).
  { intros q. split; apply taken_transfer; intros k Hk Hq;
      [symmetry|]; now apply Hfresh. }
  destruct e.
  2:{ exists s. split; [reflexivity|]. apply Hkeep.
      intros dy dx q Hd' E _ Ht. injection E as E1 E2.
      assert (dy = i - row) by lia. assert (dx = j - col) by lia. subst dy dx.
      apply Htk in Ht. destruct Ht as (k & m & v & Hk & _ & _ & _ & Ha).
      assert (check_end s (_turn s1) (row, col) (i - row) (j - col) = Ok true);
        [|congruence].
      apply Hce.
      apply (anchored_run n (_grid s) (_turn s1) _ _ (Z.to_nat (m - 1))).
      replace (Z.of_nat (S (Z.to_nat (m - 1)))) with m by lia. exact Ha. }
  replace (_othello s || (_players s ^ 2 <=? _num_moves s)) with (negb (opening s1)).
  2:{ unfold opening. rewrite Eo, Ep, En. rewrite negb_andb, negb_involutive.
      f_equal. rewrite Z.leb_antisym. reflexivity. }
  destruct (opening s1) eqn:Eop; simpl.
  { exists s. split; [reflexivity|]. apply Hkeep. intros; discriminate. }
  rewrite Et.
  destruct (flip_pieces_exact n s (_turn s1) row col (i - row) (j - col) Hd
              Hsh Hsy Hon (proj1 Hce Ee))
    as (s' & Es' & Hcfg' & Hsh' & Hsy' & Hcells').
  destruct (flip_pieces_ok n s (_turn s1) row col (i - row) (j - col) Hd Hsh Hon)
    as (s'' & Es'' & _ & _ & Hfr & _).
  rewrite Es' in Es''. injection Es'' as <-.
  exists s'. split; [exact Es'|].
  split; [eapply same_config_trans; eassumption|]. split; [exact Hsh'|].
  split; [exact Hsy'|]. split; [intros; congruence|]. split.
  2:{ intros q Hq.
      destruct (Hfr q Hq) as [Esame | (k & v & _ & _ & _ & _ & Hnew)];
        [rewrite Esame; now apply Hdisj|now right]. }
  intros _ q Hq. destruct (Hnormal eq_refl q Hq) as [Hyes Hno].
  destruct (Hcells' q Hq) as [Hyes' Hno']. split.
  - intros (dy & dx & Hin' & Hd' & Ht). apply in_app_or in Hin' as [Hin' | [E | []]].
    + assert (Hval : cell_at (_grid s) q = Ok (Some (_turn s1))).
      { apply Hyes. exists dy, dx. auto. }
      destruct (Hfr q Hq) as [Esame | (k & v & _ & _ & _ & _ & Hnew)];
        [now rewrite Esame|exact Hnew].
    + injection E as E1 E2.
      assert (dy = i - row) by lia. assert (dx = j - col) by lia. subst dy dx.
      apply Hyes'. now apply Htk.
  - intros Hnt. rewrite Hno'.
    + apply Hno. intros Ht. apply Hnt. now apply taken_from_mono.
    + intros Ht. apply Hnt. exists (i - row), (j - col).
      split; [apply in_or_app; right; left; exact Edir|].
      split; [exact Hd|]. now apply Htk.
Qed.

Lemma flip_loop_exact (n row col : Z) (s1 : Reversi) :
  _side s1 = n -> shapes n s1 -> synced n s1 ->
  exists s2,
    for_ (range (row - 1) (row + 2)) s1
      (fun s i =>
         for_ (range (col - 1) (col + 2)) s
           (fun s j => flip_around (row, col) s i j)) = Ok s2 /\
    flip_inv n row col s1 (around row col) s2.
Proof.
  intros Hside Hsh Hsy.
  rewrite (for_nested _ _ (fun s i j => flip_around (row, col) s i j)).
  fold (around row col).
  apply (for_inv_prefix (flip_inv n row col s1)).
  - split; [apply same_config_refl|]. split; [exact Hsh|]. split; [exact Hsy|].
    split; [reflexivity|]. split; [|intros q Hq; now left].
    intros _ q Hq. split; [|reflexivity].
    intros (dy & dx & [] & _).
  - intros pre [i j] post s E Hinv. simpl.
    pose proof (NoDup_around row col) as Hnd. rewrite E in Hnd.
    apply NoDup_remove_2 in Hnd.
    apply flip_around_exact_step; try assumption.
    + rewrite E. apply in_or_app. right. left. reflexivity.
    + intros Hin. apply Hnd. apply in_or_app. left. exact Hin.
Qed.

(** Every direction of the compass has its neighbour in the loop. *)
Lemma taken_from_around (n : Z) (g : BoardGridType) (val row col : Z) (q : Position) :
  taken_from n g val row col (around row col) q <-> outflanked n g val (row, col) q.
Proof.
  unfold taken_from, outflanked. simpl. split.
  - intros (dy & dx & _ & Hd & Ht). eauto.
  - intros (dy & dx & Hd & Ht). exists dy, dx. split; [|auto].
    apply in_around. destruct Hd as (Hy & Hx & _). lia.
Qed.

(** The board after [apply_move] on a state whose [_grid] and [_board]
    agree: the piece is placed if the cell was empty; after the opening
    phase the pieces taken in some direction are turned over; nothing
    else changes. *)
Lemma apply_move_board (self self' : Reversi) (pos : Position) :
  wf self -> synced (_side self) self ->
  apply_move self pos = Ok self' ->
  synced (_side self) self' /\
  forall q, on_board (_side self) q ->
    (cell_at (_grid self') q = cell_at (_grid self) q \/
     cell_at (_grid self') q = Ok (Some (_turn self))) /\
    ((q = pos /\ cell_at (_grid self) pos = Ok None) \/
     (opening self = false /\ outflanked (_side self) (_grid self) (_turn self) pos q) ->
     cell_at (_grid self') q = Ok (Some (_turn self))) /\
    (~ ((q = pos /\ cell_at (_grid self) pos = Ok None) \/
        (opening self = false /\
         outflanked (_side self) (_grid self) (_turn self) pos q)) ->
     cell_at (_grid self') q = cell_at (_grid self) q).
Proof.
  intros Hwf Hsy E. pose proof (apply_move_on_board _ _ _ E) as Hpos.
  destruct pos as [row col]. pose proof Hpos as [Hr Hc]. simpl in Hr, Hc.
  pose proof Hwf as [Hside Hpl Hpar Hg Hb Hturn].
  set (n := _side self) in *.
  assert (Hplace : exists s1,
    (do '(board1, added) <- Board.add_piece (_board self) (_turn self) (row, col) ;;
     do self1 <-
       (if added then
          do g <- grid_set (_grid self) row col (Some (_turn self)) ;;
          Ok (with_grid (with_board self board1) g)
        else Ok (with_board self board1)) ;;
     Ok self1) = Ok s1 /\
    same_config self s1 /\ shapes n s1 /\ synced n s1 /\
    (forall q, on_board n q -> q <> (row, col) ->
       cell_at (_grid s1) q = cell_at (_grid self) q) /\
    (cell_at (_grid self) (row, col) = Ok None ->
     cell_at (_grid s1) (row, col) = Ok (Some (_turn self))) /\
    (cell_at (_grid self) (row, col) <> Ok None ->
     cell_at (_grid s1) (row, col) = cell_at (_grid self) (row, col))).
  { unfold Board.add_piece.
    destruct (Hsy row col Hr Hc) as (c & Ec & Egc). rewrite Ec. simpl.
    destruct c as [pc|]; simpl.
    - exists (with_board self (_board self)). split; [reflexivity|].
      split; [repeat split|]. split; [split; assumption|].
      split; [exact Hsy|]. split; [reflexivity|].
      split; [|reflexivity]. unfold cell_at. simpl. rewrite Egc. discriminate.
    - destruct (grid_set_ok n _ row col (Some (mkPiece (_turn self))) Hb Hr Hc)
        as (b' & -> & Hb' & Rb1 & Rb2). simpl.
      destruct (grid_set_ok n _ row col (Some (_turn self)) Hg Hr Hc)
        as (g' & -> & Hg' & Rg1 & Rg2). simpl.
      eexists; split; [reflexivity|]. split; [repeat split|].
      split; [split; assumption|]. simpl. split; [|split; [|split]].
      + intros i' j' Hi' Hj'. simpl.
        destruct (decide ((i', j') = (row, col))) as [[= -> ->]|Hne].
        * exists (Some (mkPiece (_turn self))). split; assumption.
        * rewrite Rb2, Rg2 by assumption. apply Hsy; assumption.
      + intros [qi qj] [Hq1 Hq2] Hne. simpl in *. unfold cell_at. simpl.
        apply Rg2; assumption.
      + intros _. exact Rg1.
      + intros Hne. exfalso. apply Hne. exact Egc. }
  destruct Hplace as (s1 & Eplace & Hcfg1 & Hsh1 & Hsy1 & Hfr1 & Hat1 & Hat1').
  assert (Hside1 : _side s1 = n) by apply Hcfg1.
  destruct (flip_loop_exact n row col s1 Hside1 Hsh1 Hsy1)
    as (s2 & Eloop & (Hcfg2 & Hsh2 & Hsy2 & Hopen & Hnormal & Hdisj)).
  unfold apply_move in E. fold n in E.
  replace ((0 <=? row) && (row <=? n - 1) && ((0 <=? col) && (col <=? n - 1)))
    with true in E by (symmetry; rewrite !andb_true_iff, !Z.leb_le; lia).
  cbn [negb] in E.
  destruct (Board.add_piece (_board self) (_turn self) (row, col))
    as [[board1 added]|e]; cbn [bind] in Eplace, E; [|discriminate].
  destruct (if added then _ else _) as [self1|e]; cbn [bind] in Eplace, E;
    [|discriminate].
  injection Eplace as ->. rewrite Eloop in E. cbn [bind] in E.
  destruct (same_config_trans _ _ _ Hcfg1 Hcfg2) as (F1 & F2 & F3 & F4 & F5).
  assert (Hwfn : wf (with_num_moves s2 (_num_moves s2 + 1))).
  { destruct Hsh2 as [Hg2 Hb2].
    constructor; simpl; rewrite ?F1, ?F2, ?F4; assumption. }
  destruct (change_turn_wf _ _ Hwfn E) as [_ ->]. simpl.
  split; [exact Hsy2|].
  destruct Hcfg1 as (G1 & G2 & G3 & G4 & G5).
  assert (Eop : opening s1 = opening self).
  { unfold opening. now rewrite G2, G3, G5. }
  rewrite Eop, G4 in *.
  (* whether a piece is taken does not depend on the cell of the move *)
  assert (Hout : forall q,
            outflanked n (_grid s1) (_turn self) (row, col) q <->
            outflanked n (_grid self) (_turn self) (row, col) q).
  { intros q. unfold outflanked. simpl.
    split; intros (dy & dx & Hd & Ht); exists dy, dx; (split; [exact Hd|]);
      revert Ht; apply taken_transfer; intros k Hk Hq;
      [symmetry|]; (apply Hfr1; [exact Hq|]); apply ray_ne_start; assumption. }
  assert (Hnot : forall q, outflanked n (_grid self) (_turn self) (row, col) q ->
                   q <> (row, col)).
  { intros q (dy & dx & Hd & (k & m & v & Hk & -> & _)). simpl.
    apply ray_ne_start; [exact Hd|lia]. }
  intros q Hq. split.
  { destruct (Hdisj q Hq) as [Esame | Enew]; [|now right]. rewrite Esame.
    destruct (decide (q = (row, col))) as [-> | Hne]; [|left; now apply Hfr1].
    destruct (grid_get_ok n (_grid self) row col Hg Hr Hc) as ([v|] & Ev).
    - left. apply Hat1'. unfold cell_at. simpl. rewrite Ev. discriminate.
    - right. now apply Hat1. }
  destruct (opening self) eqn:Eo.
  - rewrite (Hopen eq_refl). split.
    + intros [[-> Hnone] | [Hf _]]; [now apply Hat1|discriminate].
    + intros Hn. destruct (decide (q = (row, col))) as [-> | Hne].
      * apply Hat1'. intros Hnone. apply Hn. left. split; [reflexivity|exact Hnone].
      * now apply Hfr1.
  - destruct (Hnormal eq_refl q Hq) as [Hyes Hno]. split.
    + intros [[-> Hnone] | [_ Ho]].
      * rewrite Hno; [now apply Hat1|].
        intros Ht. apply taken_from_around, Hout, Hnot in Ht. now apply Ht.
      * apply Hyes. now apply taken_from_around, Hout.
    + intros Hn. rewrite Hno.
      * destruct (decide (q = (row, col))) as [-> | Hne].
        -- apply Hat1'. intros Hnone. apply Hn. left. split; [reflexivity|exact Hnone].
        -- now apply Hfr1.
      * intros Ht. apply Hn. right. split; [reflexivity|].
        now apply Hout, taken_from_around.
Qed.

(** X16. Called as [apply_move] calls it (the two boards agree and the
    direction starts an outflanked run), [flip_pieces] returns, keeps
    the configuration and the agreement of the boards, and turns over
    exactly the pieces of other players that lie on the ray before a
    piece of [val] with no empty cell between (row, col) and that
    piece: the walk does not stop at the first piece of [val]. *)
Theorem flip_pieces_takes_up_to_the_last_anchor (n : Z) (self : Reversi)
    (val row col ydir xdir : Z) :
  unit_dir ydir xdir -> shapes n self -> synced n self ->
  on_board n (row + ydir, col + xdir) ->
  (exists K, run n (_grid self) val row col ydir xdir K) ->
  exists self',
    flip_pieces self val (row, col) ydir xdir = Ok self' /\
    same_config self self' /\ shapes n self' /\ synced n self' /\
    forall q, on_board n q ->
      (taken n (_grid self) val row col ydir xdir q ->
       cell_at (_grid self') q = Ok (Some val)) /\
      (~ taken n (_grid self) val row col ydir xdir q ->
       cell_at (_grid self') q = cell_at (_grid self) q).
Proof. exact (flip_pieces_exact n self val row col ydir xdir). Qed.

Lemma othello4_anchor :
  anchored 4 (_grid othello4) 1 0 1 1 0 2.
Proof.
  split; [|reflexivity]. intros k Hk.
  assert (k = 1 \/ k = 2) as [-> | ->] by lia.
  - split; [split; simpl; lia|]. exists 2. reflexivity.
  - split; [split; simpl; lia|]. exists 1. reflexivity.
Qed.

Lemma flip_pieces_takes_up_to_the_last_anchor_witness :
  exists s', flip_pieces othello4 1 (0, 1) 1 0 = Ok s' /\
             cell_at (_grid s') (1, 1) = Ok (Some 1).
Proof.
  destruct (flip_pieces_takes_up_to_the_last_anchor 4 othello4 1 0 1 1 0)
    as (s' & E & _ & _ & _ & H).
  - unfold unit_dir. lia.
  - split; solve_shape.
  - solve_synced.
  - split; simpl; lia.
  - exists 1. split; [lia|]. split; [|split].
    + intros k Hk. assert (k = 1) as -> by lia.
      split; [split; simpl; lia|]. exists 2. split; [reflexivity|lia].
    + split; simpl; lia.
    + reflexivity.
  - exists s'. split; [exact E|].
    apply (H (1, 1)); [split; simpl; lia|].
    exists 1, 2, 2. split; [lia|]. split; [reflexivity|].
    split; [reflexivity|]. split; [lia|exact othello4_anchor].
Defined.

(** X17. What [apply_move] does to the board of a state whose two
    boards agree, for any position of the board (a legal move or not):
    the cell of the move receives the mover's piece if it was empty;
    after the opening phase (always in the othello variant) a piece of
    another player becomes the mover's exactly when, in some direction
    of the compass from the move, it lies before one of the mover's
    pieces with no empty cell between the move and that piece; every
    other cell is unchanged, and the two boards still agree. *)
Theorem apply_move_board_effect (self self' : Reversi) (pos : Position) :
  wf self -> synced (_side self) self ->
  apply_move self pos = Ok self' ->
  synced (_side self) self' /\
  forall q, on_board (_side self) q ->
    (cell_at (_grid self') q = cell_at (_grid self) q \/
     cell_at (_grid self') q = Ok (Some (_turn self))) /\
    ((q = pos /\ cell_at (_grid self) pos = Ok None) \/
     (opening self = false /\ outflanked (_side self) (_grid self) (_turn self) pos q) ->
     cell_at (_grid self') q = Ok (Some (_turn self))) /\
    (~ ((q = pos /\ cell_at (_grid self) pos = Ok None) \/
        (opening self = false /\
         outflanked (_side self) (_grid self) (_turn self) pos q)) ->
     cell_at (_grid self') q = cell_at (_grid self) q).
Proof. exact (apply_move_board self self' pos). Qed.

Lemma apply_move_board_effect_witness :
  exists s', apply_move othello4 (0, 1) = Ok s' /\
             cell_at (_grid s') (1, 1) = Ok (Some 1).
Proof.
  eexists. split; [vm_compute; reflexivity|].
  refine (proj1 (proj2 (proj2 (apply_move_board_effect othello4 _ (0, 1)
            ltac:(solve_wf) ltac:(solve_synced) ltac:(vm_compute; reflexivity))
            (1, 1) ltac:(split; simpl; lia))) _).
  right. split; [reflexivity|]. exists 1, 0. split; [unfold unit_dir; lia|].
  exists 1, 2, 2. split; [lia|]. split; [reflexivity|].
  split; [reflexivity|]. split; [simpl; lia|exact othello4_anchor].
Defined.

(** ** States reached from the constructor by moves *)

Lemma start_cell_player (side : Z) (othello : bool) (p : Position) (v : Z) :
  start_cell side othello p = Some v -> 1 <= v <= 2.
Proof.
  unfold start_cell. destruct othello; [|discriminate].
  destruct (_ || _); [intros [= <-]; lia|].
  destruct (_ || _); [intros [= <-]; lia|discriminate].
Qed.

(** X18. In every state reached from the constructor by calls of
    [apply_move] that returned (legal moves or not), the configuration
    is valid, [_grid] and [_board] show the same pieces, the turn is a
    player from 1 to [_players], the move counter is not negative and
    every piece on the board belongs to a player from 1 to
    [_players]. *)
Theorem played_states_are_consistent (g : Reversi) :
  played g ->
  wf g /\ valid_config (_side g) (_players g) (_othello g) /\
  synced (_side g) g /\ 1 <= _turn g <= _players g /\ 0 <= _num_moves g /\
  forall q v, on_board (_side g) q -> cell_at (_grid g) q = Ok (Some v) ->
    1 <= v <= _players g.
Proof.
  induction 1 as [side players othello g E|g g' pos Hp (Hwf & Hv & Hsy & Ht & Hn & Hcells) E].
  - destruct (init_wf_synced _ _ _ _ E) as [Hwf Hsy].
    pose proof (init_ok_valid _ _ _ _ E) as Hv.
    destruct (init_state _ _ _ _ E) as (Es & Ep & Eo & Et & En & Hc).
    rewrite Es, Ep, Eo, Et, En. rewrite Es in Hsy.
    split; [exact Hwf|]. split; [exact Hv|]. split; [exact Hsy|].
    destruct Hv as (_ & Hpl & _). split; [lia|]. split; [lia|].
    intros q v Hq Hcell. destruct (Hc q Hq) as [_ Hg]. rewrite Hg in Hcell.
    injection Hcell as Hcell. apply start_cell_player in Hcell. lia.
  - pose proof (apply_move_on_board _ _ _ E) as Hon.
    destruct (apply_move_ok g pos Hwf Hon)
      as (s2 & s' & E' & Ect & Hwf2 & Hwf' & Es2 & Ep2 & Eo2 & Et2 & En2).
    rewrite E in E'. injection E' as <-.
    destruct (change_turn_wf _ _ Hwf2 Ect) as [_ Eg']. 
    assert (Es : _side g' = _side g) by (rewrite Eg'; simpl; exact Es2).
    assert (Ep : _players g' = _players g) by (rewrite Eg'; simpl; exact Ep2).
    assert (Eo : _othello g' = _othello g) by (rewrite Eg'; simpl; exact Eo2).
    assert (En : _num_moves g' = _num_moves g + 1) by (rewrite Eg'; simpl; exact En2).
    destruct (apply_move_board g g' pos Hwf Hsy E) as [Hsy' Hboard].
    rewrite Es, Ep, Eo, En.
    split; [exact Hwf'|]. split; [exact Hv|]. split; [exact Hsy'|].
    split; [|split; [lia|]].
    + split; [|rewrite <- Ep; apply Hwf'].
      destruct (change_turn_ok s2 Hwf2) as (s & Es' & Hcases).
      rewrite Ect in Es'. injection Es' as <-.
      destruct Hcases as [(_ & ->)|(_ & k & _ & _ & -> & _)].
      * rewrite Et2. lia.
      * simpl. apply player_after_pos. rewrite Et2. lia.
    + intros q v Hq Hcell. destruct (Hboard q Hq) as [[Esame | Enew] _].
      * rewrite Esame in Hcell. eapply Hcells; eassumption.
      * rewrite Enew in Hcell. injection Hcell as <-. exact Ht.
Qed.

Lemma played_states_are_consistent_witness :
  synced 4 othello4 /\ 1 <= _turn othello4 <= 2.
Proof.
  destruct (played_states_are_consistent othello4) as (_ & _ & H1 & H2 & _).
  - apply (played_init 4 2 true). vm_compute. reflexivity.
  - split; [exact H1|exact H2].
Defined.

(** ** simulate_moves on values *)

(** The loop of [simulate_moves] keeps the state well formed and the
    side of the board. *)
Lemma simulate_moves_wf (self s : Reversi) (moves : ListMovesType) :
  wf self -> simulate_moves self moves = Ok s ->
  wf s /\ _side s = _side self /\ _players s = _players self /\
  _othello s = _othello self /\ _num_moves s = _num_moves self + len moves.
Proof.
  intros Hwf. unfold simulate_moves.
  assert (G : forall moves sim s,
            wf sim ->
            for_ moves sim
              (fun sim move =>
                 let '(row, col) := move in
                 if negb (((0 <=? row) && (row <? _side self))
                          && ((0 <=? col) && (col <? _side self)))
                 then Raise ValueError
                 else apply_move sim move) = Ok s ->
            wf s /\ _side s = _side sim /\ _players s = _players sim /\
            _othello s = _othello sim /\ _num_moves s = _num_moves sim + len moves).
  { clear moves s. induction moves as [|[row col] moves IH]; intros sim s Hsim.
    - intros [= <-]. unfold len. simpl. split; [exact Hsim|].
      repeat (split; [reflexivity|]). lia.
    - cbn [for_]. intros E. apply bind_ok in E as (s1 & E1 & E2).
      destruct (negb _); [discriminate|].
      pose proof (apply_move_on_board _ _ _ E1) as Hon.
      destruct (apply_move_ok sim (row, col) Hsim Hon)
        as (s2 & s' & E' & Ect & Hwf2 & Hwf' & Es2 & Ep2 & Eo2 & Et2 & En2).
      rewrite E1 in E'. injection E' as <-.
      destruct (change_turn_wf _ _ Hwf2 Ect) as [_ Eg'].
      destruct (IH s1 s Hwf' E2) as (H1 & H2 & H3 & H4 & H5).
      split; [exact H1|]. rewrite H2, H3, H4, H5, Eg'. simpl.
      split; [exact Es2|]. split; [exact Ep2|]. split; [exact Eo2|].
      rewrite En2. unfold len. simpl length. lia. }
  apply G. exact Hwf.
Qed.

(** X19. Simulating a sequence of moves is simulating its first part
    and then, from the state reached, the rest. *)
Theorem simulate_moves_app (self : Reversi) (a b : ListMovesType) :
  wf self ->
  simulate_moves self (a ++ b)
  = (do s <- simulate_moves self a ;; simulate_moves s b).
Proof.
  intros Hwf. unfold simulate_moves at 1. rewrite for_app.
  fold (simulate_moves self a).
  destruct (simulate_moves self a) as [s|e] eqn:E; cbn [bind]; [|reflexivity].
  destruct (simulate_moves_wf self s a Hwf E) as (_ & Es & _).
  unfold simulate_moves. rewrite Es. reflexivity.
Qed.

Lemma simulate_moves_app_witness :
  simulate_moves othello4 ([(0, 1)] ++ [(0, 0)])
  = (do s <- simulate_moves othello4 [(0, 1)] ;; simulate_moves s [(0, 0)]).
Proof. apply simulate_moves_app. solve_wf. Defined.

(** X20. On a well-formed state [simulate_moves] returns a state when
    every move is on the board, whether the moves are legal or not;
    that state is well formed, has the same configuration and counts
    one more move per position.  When some move is off the board it
    raises [ValueError]. *)
Theorem simulate_moves_returns_iff_on_board (self : Reversi) (moves : ListMovesType) :
  wf self ->
  ((forall m, In m moves -> on_board (_side self) m) ->
   exists s, simulate_moves self moves = Ok s /\ wf s /\
     _side s = _side self /\ _players s = _players self /\
     _othello s = _othello self /\
     _num_moves s = _num_moves self + len moves) /\
  ((exists m, In m moves /\ ~ on_board (_side self) m) ->
   simulate_moves self moves = Raise ValueError).
Proof.
  intros Hwf.
  assert (G : forall moves sim,
            wf sim -> _side sim = _side self ->
            ((forall m, In m moves -> on_board (_side self) m) ->
             exists s, for_ moves sim
               (fun sim move =>
                  let '(row, col) := move in
                  if negb (((0 <=? row) && (row <? _side self))
                           && ((0 <=? col) && (col <? _side self)))
                  then Raise ValueError
                  else apply_move sim move) = Ok s) /\
            ((exists m, In m moves /\ ~ on_board (_side self) m) ->
             for_ moves sim
               (fun sim move =>
                  let '(row, col) := move in
                  if negb (((0 <=? row) && (row <? _side self))
                           && ((0 <=? col) && (col <? _side self)))
                  then Raise ValueError
                  else apply_move sim move) = Raise ValueError)).
  { clear moves. induction moves as [|[row col] moves IH]; intros sim Hsim Hside.
    - split; [intros _; eexists; reflexivity|]. intros (m & [] & _).
    - cbn [for_]. fold (inb (_side self) row col).
      destruct (inb (_side self) row col) eqn:Einb; cbn [negb].
      + apply inb_true in Einb. rewrite <- Hside in Einb.
        destruct (apply_move_ok sim (row, col) Hsim Einb)
          as (s2 & s' & -> & Ect & Hwf2 & Hwf' & Es2 & _).
        destruct (change_turn_wf _ _ Hwf2 Ect) as [_ Eg'].
        assert (Hside' : _side s' = _side self).
        { rewrite Eg'. simpl. congruence. }
        cbn [bind]. destruct (IH s' Hwf' Hside') as [IH1 IH2]. split.
        * intros Hall. apply IH1. intros m Hm. apply Hall. now right.
        * intros (m & [<- | Hm] & Hoff); [|apply IH2; eauto].
          exfalso. apply Hoff. now rewrite <- Hside.
      + cbn [bind]. split; [|reflexivity]. intros Hall. exfalso.
        assert (inb (_side self) row col = true); [|congruence].
        apply inb_true. apply Hall. now left. }
  destruct (G moves self Hwf eq_refl) as [G1 G2]. split; [|exact G2].
  intros Hall. destruct (G1 Hall) as (s & Es). exists s. split; [exact Es|].
  exact (simulate_moves_wf self s moves Hwf Es).
Qed.

Lemma simulate_moves_returns_iff_on_board_witness :
  simulate_moves othello4 [(0, 1); (4, 4)] = Raise ValueError.
Proof.
  apply (proj2 (simulate_moves_returns_iff_on_board othello4 [(0, 1); (4, 4)]
                  ltac:(solve_wf))).
  exists (4, 4). split; [right; now left|]. intros [H _]. simpl in H. lia.
Defined.

(** ** load_game *)



(** A loop whose body raises nothing but [e0], and raises on some
    element, raises [e0]. *)
Lemma for_st_either {X S : Type} (I : S -> Prop) (e0 : exn) (xs : list X)
    (body : S -> X -> S * option exn) :
  (forall s x, In x xs -> I s ->
     exists s', I s' /\ (body s x = (s', None) \/ body s x = (s', Some e0))) ->
  forall s, I s ->
    exists s', I s' /\
      (for_st xs s body = (s', None) \/ for_st xs s body = (s', Some e0)).
Proof.
  induction xs as [|x xs IH]; intros Hbody s Hs; simpl.
  - exists s. split; [exact Hs|now left].
  - destruct (Hbody s x (or_introl eq_refl) Hs) as (s1 & Hs1 & [E | E]); rewrite E.
    + apply IH; [|exact Hs1]. intros; apply Hbody; [now right|assumption].
    + exists s1. split; [exact Hs1|now right].
Qed.

Lemma for_st_raises {X S : Type} (I : S -> Prop) (bad : X -> Prop) (e0 : exn)
    (xs : list X) (body : S -> X -> S * option exn) :
  (forall s x, In x xs -> I s ->
     exists s', I s' /\ (body s x = (s', None) \/ body s x = (s', Some e0))) ->
  (forall s x, In x xs -> bad x -> I s ->
     exists s', I s' /\ body s x = (s', Some e0)) ->
  (exists x, In x xs /\ bad x) ->
  forall s, I s -> exists s', I s' /\ for_st xs s body = (s', Some e0).
Proof.
  induction xs as [|x xs IH]; intros Hbody Hbad (x0 & Hin & Hx0) s Hs; simpl;
    [destruct Hin|].
  destruct (Hbody s x (or_introl eq_refl) Hs) as (s1 & Hs1 & [E | E]).
  - rewrite E. destruct Hin as [<- | Hin].
    + destruct (Hbad s x (or_introl eq_refl) Hx0 Hs) as (s2 & _ & E2). congruence.
    + apply IH; try assumption.
      * intros; apply Hbody; [now right|assumption].
      * intros; apply Hbad; [now right|assumption..].
      * eauto.
  - rewrite E. eauto.
Qed.



(** The cells that the loops of [load_game] visit. *)
Lemma enumerate_cells (n : Z) (grid : BoardGridType) (i j : Z)
    (row : list (option Z)) (c : option Z) :
  shape n grid ->
  In (i, row) (enumerate grid) -> In (j, c) (enumerate row) ->
  on_board n (i, j) /\ cell_at grid (i, j) = Ok c.
Proof.
  intros [Hlen Hrows] Hi Hj.
  apply in_enumerate in Hi as [Hi Ei]. apply in_enumerate in Hj as [Hj Ej].
  assert (Hr : len row = n).
  { apply Hrows, list_elem_of_In. eapply list_elem_of_lookup_2; eassumption. }
  split; [split; simpl; lia|]. unfold cell_at, grid_get. simpl.
  rewrite (getitem_lookup grid i row) by (try lia; assumption). simpl.
  apply getitem_lookup; [lia|assumption].
Qed.

Lemma cells_enumerate (n : Z) (grid : BoardGridType) (i j : Z) :
  shape n grid -> on_board n (i, j) ->
  exists row c, In (i, row) (enumerate grid) /\ In (j, c) (enumerate row) /\
                cell_at grid (i, j) = Ok c.
Proof.
  intros Hs [Hi Hj]. simpl in Hi, Hj.
  destruct (shape_row n grid i Hs Hi) as (row & Erow & Elk & Hlen).
  destruct (getitem_ok row j) as (c & Ec & Elkc); [lia|].
  exists row, c. split; [apply enumerate_lookup; [lia|assumption]|].
  split; [apply enumerate_lookup; [lia|assumption]|].
  unfold cell_at, grid_get. simpl. rewrite Erow. exact Ec.
Qed.

(** One cell of [load_game]: a cell that is not valid raises and leaves
    the three variables as they are; [None] is passed over; a piece
    goes to [newboard] (unless a piece is there) and to [self._grid],
    and is counted. *)
Lemma load_cell_step (self : Reversi) (n i j : Z) (num : option Z)
    (g : BoardGridType) (nb : Board.t) (cnt : Z) :
  load_state n (g, nb, cnt) -> on_board n (i, j) ->
  (valid_cell self num = false /\
   load_cell self i (g, nb, cnt) (j, num) = ((g, nb, cnt), Some ValueError)) \/
  (num = None /\
   load_cell self i (g, nb, cnt) (j, num) = ((g, nb, cnt), None)) \/
  (exists v g' nb',
     num = Some v /\ 1 <= v <= _players self /\
     load_cell self i (g, nb, cnt) (j, num) = ((g', nb', cnt + 1), None) /\
     load_state n (g', nb', cnt + 1) /\
     cell_at g' (i, j) = Ok (Some v) /\
     (forall q, on_board n q -> q <> (i, j) ->
        cell_at g' q = cell_at g q /\
        cell_at (Board.grid nb') q = cell_at (Board.grid nb) q) /\
     (cell_at (Board.grid nb) (i, j) = Ok None ->
      cell_at (Board.grid nb') (i, j) = Ok (Some (mkPiece v))) /\
     (cell_at (Board.grid nb) (i, j) <> Ok None -> nb' = nb)).
Proof.
  intros [Hg Hb] Hon. simpl in Hg, Hb. unfold load_cell.
  destruct (valid_cell self num) eqn:Ev; cbn [negb]; [|now left]. right.
  destruct num as [v|]; [right|now left].
  simpl in Ev. apply andb_true_iff in Ev as [E1 E2].
  apply Z.ltb_lt in E1. apply Z.leb_le in E2.
  destruct (add_piece_effect n nb v i j Hb Hon)
    as (nb' & added & -> & Hb' & _ & Hadd & Hcell & Hsame).
  pose proof Hon as [Hi Hj]. simpl in Hi, Hj.
  destruct (grid_set_ok n g i j (Some v) Hg Hi Hj) as (g' & -> & Hg' & R1 & R2).
  exists v, g', nb'. split; [reflexivity|]. split; [lia|]. split; [reflexivity|].
  split; [split; assumption|]. split; [exact R1|]. split; [|split].
  - intros [qi qj] [Hq1 Hq2] Hne. simpl in Hq1, Hq2. split.
    + apply R2; assumption.
    + destruct added.
      * apply (proj2 (Hcell eq_refl)); [split; assumption|exact Hne].
      * now rewrite (Hsame eq_refl).
  - intros Hnone. apply Hcell. now apply Hadd.
  - intros Hne. apply Hsame. destruct added; [|reflexivity].
    exfalso. apply Hne. now apply Hadd.
Qed.






(** X22. What [load_game] rejects, and what it has done by then: a
    grid with a number of rows that is not the side, or a turn above the
    number of players, raises [ValueError] and leaves the game as it
    was; a square grid with a piece of a player outside 1 ..
    [_players] raises [ValueError] too, with [_board], the turn and the
    move counter as they were, while [_grid] may already hold pieces of
    the rejected grid. *)
Theorem load_game_rejects (self : Reversi) (turn : Z) (grid : BoardGridType) :
  wf self ->
  (len grid <> _side self \/ _players self < turn ->
   load_game self turn grid = (self, Raise ValueError)) /\
  (shape (_side self) grid -> turn <= _players self ->
   (exists p v, on_board (_side self) p /\ cell_at grid p = Ok (Some v) /\
                ~ 1 <= v <= _players self) ->
   exists g, load_game self turn grid = (with_grid self g, Raise ValueError) /\
             shape (_side self) g).
Proof.
  intros Hwf. pose proof Hwf as [Hside Hpl Hpar Hg Hb Ht]. split.
  - intros Hbad. unfold load_game.
    destruct (Z.eqb_spec (_side self) (len grid)) as [E | E]; [|reflexivity].
    cbn [negb]. destruct (Z.ltb_spec (_players self) turn); [reflexivity|].
    destruct Hbad; [congruence|lia].
  - intros Hgrid Hturn (p0 & v0 & Hon0 & Hc0 & Hv0).
    pose proof Hgrid as [Hlen _]. unfold load_game. rewrite Hlen, Z.eqb_refl.
    cbn [negb]. destruct (Z.ltb_spec (_players self) turn) as [Hlt | _]; [lia|].
    set (n := _side self) in *.
    assert (Hcell : forall i row st (jn : Z * option Z),
              In (i, row) (enumerate grid) -> In jn (enumerate row) ->
              load_state n st ->
              exists st', load_state n st' /\
                (load_cell self i st jn = (st', None) \/
                 load_cell self i st jn = (st', Some ValueError))).
    { intros i row [[g nb] cnt] [j c] Hi Hj Hst.
      destruct (enumerate_cells n grid i j row c Hgrid Hi Hj) as [Hon _].
      destruct (load_cell_step self n i j c g nb cnt Hst Hon)
        as [[_ E] | [[_ E] | (v & g' & nb' & _ & _ & E & Hst' & _)]]; rewrite E; eauto. }
    destruct (for_st_raises (load_state n)
                (fun ir : Z * list (option Z) =>
                   exists j, In (j, Some v0) (enumerate (snd ir)) /\
                             (fst ir, j) = p0)
                ValueError (enumerate grid)
                (fun st '(i, row) => for_st (enumerate row) st (load_cell self i)))
      with (s := (_grid self, Board.__init__ n, 0))
      as ([[g nb] cnt] & [Hg' _] & ->).
    + intros st [i row] Hi Hst.
      apply (for_st_either (load_state n)); [|exact Hst].
      intros s jn Hj Hs. exact (Hcell i row s jn Hi Hj Hs).
    + intros st [i row] Hi (j & Hj & Ep) Hst. simpl in Hj, Ep.
      apply (for_st_raises (load_state n) (fun jn => jn = (j, Some v0)));
        [| |eauto|exact Hst].
      * intros s jn Hj' Hs. exact (Hcell i row s jn Hi Hj' Hs).
      * intros [[g nb] cnt] jn _ -> Hs. exists (g, nb, cnt). split; [exact Hs|].
        unfold load_cell. replace (valid_cell self (Some v0)) with false; [reflexivity|].
        symmetry. simpl. apply andb_false_iff.
        destruct (Z.ltb_spec 0 v0); [right; apply Z.leb_gt; lia|now left].
    + destruct p0 as [i0 j0].
      destruct (cells_enumerate n grid i0 j0 Hgrid Hon0) as (row & c & Hi & Hj & Ec).
      assert (c = Some v0) as -> by congruence.
      exists (i0, row). split; [exact Hi|]. exists j0. split; [exact Hj|reflexivity].
    + split; [exact Hg|]. simpl. apply shape_empty_grid. lia.
    + exists g. split; [reflexivity|exact Hg'].
Qed.

Lemma load_game_rejects_witness :
  load_game othello4 3 (empty_grid 4) = (othello4, Raise ValueError).
Proof.
  apply (proj1 (load_game_rejects othello4 3 (empty_grid 4) ltac:(solve_wf))).
  right. simpl. lia.
Defined.

(** ** change_turn *)



(** ** Legal moves after the opening phase *)

(** X24. After the opening phase (always in the othello variant), on
    a state whose two boards agree, a legal move places the mover's
    piece and takes at least one piece of another player. *)
Theorem legal_move_takes_a_piece (self self' : Reversi) (pos : Position) :
  wf self -> synced (_side self) self -> opening self = false ->
  legal_move self pos = Ok true -> apply_move self pos = Ok self' ->
  cell_at (_grid self) pos = Ok None /\
  cell_at (_grid self') pos = Ok (Some (_turn self)) /\
  exists q v, on_board (_side self) q /\ q <> pos /\
    cell_at (_grid self) q = Ok (Some v) /\ v <> _turn self /\
    cell_at (_grid self') q = Ok (Some (_turn self)).
Proof.
  intros Hwf Hsy Hop Hlegal E.
  pose proof (apply_move_on_board _ _ _ E) as Hon.
  destruct (players_av_moves_normal self (_turn self) Hwf Hop) as (mv & Emv & _ & Hmv).
  assert (Hin : In pos mv).
  { unfold legal_move in Hlegal. destruct pos as [row col].
    destruct (negb _); [discriminate|]. unfold available_moves in Hlegal.
    rewrite Emv in Hlegal. cbn [bind] in Hlegal. injection Hlegal as Hmem.
    now apply pos_mem_In. }
  apply Hmv in Hin as (_ & Hnone & dy & dx & K & Hd & HK & Hrun).
  destruct (apply_move_board self self' pos Hwf Hsy E) as [_ Hboard].
  assert (Hgnone : cell_at (_grid self) pos = Ok None).
  { destruct Hon as [Hi Hj]. destruct (Hsy _ _ Hi Hj) as (pc & Epc & Eg).
    unfold cell_at in *. rewrite Hnone in Epc. injection Epc as <-. exact Eg. }
  split; [exact Hgnone|]. split.
  - apply (Hboard pos Hon). left. split; [reflexivity|exact Hgnone].
  - pose proof Hrun as (_ & Hmid & _).
    destruct (Hmid 1 ltac:(lia)) as (Hq & v & Hv & Hne).
    exists (ray (fst pos) (snd pos) dy dx 1), v.
    split; [exact Hq|]. split.
    { destruct pos as [row col]. simpl. apply ray_ne_start; [exact Hd|lia]. }
    split; [exact Hv|]. split; [exact Hne|].
    apply (Hboard _ Hq). right. split; [exact Hop|].
    exists dy, dx. split; [exact Hd|].
    exists 1, (K + 1), v. split; [lia|]. split; [reflexivity|].
    split; [exact Hv|]. split; [exact Hne|]. now apply run_anchored.
Qed.

Lemma legal_move_takes_a_piece_witness :
  exists q v, on_board 4 q /\ q <> (0, 1) /\
    cell_at (_grid othello4) q = Ok (Some v) /\ v <> 1.
Proof.
  destruct (legal_move_takes_a_piece othello4
              (with_turn (game 4 2 true
                 [[None; Some 1; None; None];
                  [None; Some 1; Some 1; None];
                  [None; Some 1; Some 2; None];
                  [None; None; None; None]] 1 1) 2) (0, 1))
    as (_ & _ & q & v & H1 & H2 & H3 & H4 & _).
  - solve_wf.
  - solve_synced.
  - reflexivity.
  - vm_compute. reflexivity.
  - vm_compute. reflexivity.
  - exists q, v. auto.
Defined.

(** ** The first moves of the othello variant *)

(** Two strictly ascending lists with the same elements are equal. *)
Lemma ascending_ext (l l' : ListMovesType) :
  ascending l -> ascending l' -> (forall p, In p l <-> In p l') -> l = l'.
Proof.
  unfold ascending.
  assert (Hirr : forall p, ~ pos_lt p p) by (intros [a b]; unfold pos_lt; simpl; lia).
  assert (Hasym : forall p q, pos_lt p q -> pos_lt q p -> False).
  { intros [a b] [c d]. unfold pos_lt. simpl. lia. }
  revert l'. induction l as [|x l IH]; intros [|y l'] Hs Hs' Hsame.
  - reflexivity.
  - destruct (proj2 (Hsame y) (or_introl eq_refl)).
  - destruct (proj1 (Hsame x) (or_introl eq_refl)).
  - apply StronglySorted_inv in Hs as [Hs Hx].
    apply StronglySorted_inv in Hs' as [Hs' Hy].
    rewrite Forall_forall in Hx, Hy.
    assert (x = y).
    { destruct (proj1 (Hsame x) (or_introl eq_refl)) as [E | Hin]; [now symmetry|].
      destruct (proj2 (Hsame y) (or_introl eq_refl)) as [E | Hin']; [exact E|].
      exfalso. apply (Hasym x y).
      - apply Hx. now apply list_elem_of_In.
      - apply Hy. now apply list_elem_of_In. }
    subst y. f_equal. apply IH; try assumption.
    intros p. split; intros Hp.
    + destruct (proj1 (Hsame p) (or_intror Hp)) as [<- | H]; [|exact H].
      exfalso. apply (Hirr x). apply Hx. now apply list_elem_of_In.
    + destruct (proj2 (Hsame p) (or_intror Hp)) as [<- | H]; [|exact H].
      exfalso. apply (Hirr x). apply Hy. now apply list_elem_of_In.
Qed.

(** The three kinds of cell of the starting position of the othello
    variant. *)
Lemma start_cell_cases (side a b : Z) :
  (((a = side / 2 - 1 /\ b = side / 2) \/ (a = side / 2 /\ b = side / 2 - 1)) /\
   start_cell side true (a, b) = Some 1) \/
  (((a = side / 2 - 1 /\ b = side / 2 - 1) \/ (a = side / 2 /\ b = side / 2)) /\
   start_cell side true (a, b) = Some 2) \/
  (~ (side / 2 - 1 <= a <= side / 2 /\ side / 2 - 1 <= b <= side / 2) /\
   start_cell side true (a, b) = None).
Proof.
  unfold start_cell, pos_eqb. cbn [fst snd].
  destruct (Z.eqb_spec a (side / 2 - 1)), (Z.eqb_spec b (side / 2)),
           (Z.eqb_spec a (side / 2)), (Z.eqb_spec b (side / 2 - 1));
    cbn [andb orb];
    first [ left; split; [lia|reflexivity]
          | right; left; split; [lia|reflexivity]
          | right; right; split; [lia|reflexivity] ].
Qed.

(** X25. In the othello variant, on every board the constructor
    accepts (even side, at least 4), the first player to move has
    exactly the four classical opening moves, returned in this order:
    (h-2, h-1), (h-1, h-2), (h, h+1), (h+1, h) with h = side // 2. *)
Theorem othello_opening_moves (side players : Z) (g : Reversi) :
  __init__ side players true = Ok g ->
  available_moves g
  = Ok [(side / 2 - 2, side / 2 - 1); (side / 2 - 1, side / 2 - 2);
        (side / 2, side / 2 + 1); (side / 2 + 1, side / 2)].
Proof.
  intros E. pose proof (init_ok_valid _ _ _ _ E) as Hv.
  destruct (init_wf_synced _ _ _ _ E) as [Hwf _].
  destruct (init_state _ _ _ _ E) as (Es & Ep & Eo & Et & En & Hcells).
  destruct Hv as (Hs & Hp & Hps & Hpar & Ho). specialize (Ho eq_refl). subst players.
  pose proof (Z.div_mod side 2 ltac:(lia)) as Hdm.
  change (2 mod 2) with 0 in Hpar.
  assert (Hop : opening g = false) by (unfold opening; now rewrite Eo).
  destruct (players_av_moves_normal g 1 Hwf Hop) as (mv & Emv & Hasc & Hmv).
  unfold available_moves. rewrite Et, Emv. f_equal.
  set (h := side / 2) in *.
  (* the cells of the board *)
  assert (Hcell : forall a b, on_board side (a, b) ->
            cell_at (_grid g) (a, b) = Ok (start_cell side true (a, b)) /\
            cell_at (Board.grid (_board g)) (a, b)
            = Ok (option_map mkPiece (start_cell side true (a, b)))).
  { intros a b Hab. destruct (Hcells (a, b) Hab) as [H1 H2]. split; assumption. }
  assert (Hone : forall a b, on_board side (a, b) ->
            cell_at (_grid g) (a, b) = Ok (Some 1) ->
            (a = h - 1 /\ b = h) \/ (a = h /\ b = h - 1)).
  { intros a b Hab Hc. destruct (Hcell a b Hab) as [Hg _].
    assert (Hc' : start_cell side true (a, b) = Some 1) by congruence.
    destruct (start_cell_cases side a b) as [[H _] | [[_ H] | [_ H]]];
      [exact H|congruence..]. }
  assert (Htwo : forall a b v, on_board side (a, b) ->
            cell_at (_grid g) (a, b) = Ok (Some v) -> v <> 1 ->
            (a = h - 1 /\ b = h - 1) \/ (a = h /\ b = h)).
  { intros a b v Hab Hc Hne. destruct (Hcell a b Hab) as [Hg _].
    assert (Hc' : start_cell side true (a, b) = Some v) by congruence.
    destruct (start_cell_cases side a b) as [[_ H] | [[H _] | [_ H]]];
      [congruence|exact H|congruence]. }
  assert (Hany : forall a b v, on_board side (a, b) ->
            cell_at (_grid g) (a, b) = Ok (Some v) ->
            h - 1 <= a <= h /\ h - 1 <= b <= h).
  { intros a b v Hab Hc. destruct (Z.eq_dec v 1) as [-> | Hne].
    - destruct (Hone a b Hab Hc); lia.
    - destruct (Htwo a b v Hab Hc Hne); lia. }
  assert (Hgive : forall a b v, on_board side (a, b) ->
            start_cell side true (a, b) = v ->
            cell_at (_grid g) (a, b) = Ok v).
  { intros a b v Hab <-. now apply Hcell. }
  assert (Hval : forall a b, (a = h - 1 /\ b = h) \/ (a = h /\ b = h - 1) ->
            cell_at (_grid g) (a, b) = Ok (Some 1)).
  { intros a b Hab. apply Hgive; [split; simpl; lia|].
    destruct (start_cell_cases side a b) as [[_ H] | [[H _] | [H _]]];
      [exact H|fold h in H; lia..]. }
  assert (Hval2 : forall a b, (a = h - 1 /\ b = h - 1) \/ (a = h /\ b = h) ->
            cell_at (_grid g) (a, b) = Ok (Some 2)).
  { intros a b Hab. apply Hgive; [split; simpl; lia|].
    destruct (start_cell_cases side a b) as [[H _] | [[_ H] | [H _]]];
      [fold h in H; lia|exact H|fold h in H; lia]. }
  apply ascending_ext; [exact Hasc| |].
  { unfold ascending.
    repeat (constructor; [|repeat constructor; unfold pos_lt; simpl; lia]).
    constructor. }
  intros [r c]. rewrite Hmv, Es. cbn [fst snd]. split.
  - intros (Hon & _ & dy & dx & K & Hd & HK & (_ & Hmid & Hend1 & Hend2)).
    destruct Hd as (Hdy & Hdx & Hnz).
    destruct (Hmid 1 ltac:(lia)) as (Hon1 & v1 & Hv1 & Hne1).
    unfold ray in Hon1, Hv1.
    pose proof (Htwo _ _ _ Hon1 Hv1 Hne1) as H1.
    assert (Hr2 : on_board side (ray r c dy dx 2) /\
                  exists v, cell_at (_grid g) (ray r c dy dx 2) = Ok (Some v) /\
                            (K = 1 -> v = 1) /\ (2 <= K -> v <> 1)).
    { destruct (Z.eq_dec K 1) as [-> | HK1].
      - split; [exact Hend1|]. exists 1. split; [exact Hend2|]. split; [auto|lia].
      - destruct (Hmid 2 ltac:(lia)) as (Hon2 & v2 & Hv2 & Hne2).
        split; [exact Hon2|]. exists v2. split; [exact Hv2|]. split; [lia|auto]. }
    destruct Hr2 as (Hon2 & v2 & Hv2 & Hk1 & Hk2). unfold ray in Hon2, Hv2.
    destruct (Z.eq_dec K 1) as [-> | HK1].
    + rewrite (Hk1 eq_refl) in Hv2. pose proof (Hone _ _ Hon2 Hv2) as H2.
      assert (Hrc : (r = h - 2 /\ c = h - 1) \/ (r = h - 1 /\ c = h - 2) \/
                    (r = h /\ c = h + 1) \/ (r = h + 1 /\ c = h)) by lia.
      destruct Hrc as [[-> ->] | [[-> ->] | [[-> ->] | [-> ->]]]]; simpl; auto.
    + exfalso. pose proof (Htwo _ _ _ Hon2 Hv2 (Hk2 ltac:(lia))) as H2.
      assert (Hr3 : on_board side (ray r c dy dx 3) /\
                    exists v, cell_at (_grid g) (ray r c dy dx 3) = Ok (Some v)).
      { destruct (Z.eq_dec K 2) as [-> | HK2].
        - split; [exact Hend1|]. exists 1. exact Hend2.
        - destruct (Hmid 3 ltac:(lia)) as (Hon3 & v3 & Hv3 & _). eauto. }
      destruct Hr3 as (Hon3 & v3 & Hv3). unfold ray in Hon3, Hv3.
      pose proof (Hany _ _ _ Hon3 Hv3) as H3. lia.
  - assert (Hrun : forall r c dy dx,
              unit_dir dy dx ->
              ((r + dy = h - 1 /\ c + dx = h - 1) \/ (r + dy = h /\ c + dx = h)) ->
              ((r + 2 * dy = h - 1 /\ c + 2 * dx = h) \/
               (r + 2 * dy = h /\ c + 2 * dx = h - 1)) ->
              ~ (h - 1 <= r <= h /\ h - 1 <= c <= h) -> 0 <= r < side -> 0 <= c < side ->
              on_board side (r, c) /\
              cell_at (Board.grid (_board g)) (r, c) = Ok None /\
              exists dy dx K, unit_dir dy dx /\ 1 <= K /\
                run side (_grid g) 1 r c dy dx K).
    { intros r0 c0 dy dx Hd H1 H2 Hout Hr0 Hc0.
      assert (Hon0 : on_board side (r0, c0)) by (split; assumption).
      split; [exact Hon0|]. split.
      - destruct (Hcell r0 c0 Hon0) as [_ Hb]. rewrite Hb.
        destruct (start_cell_cases side r0 c0) as [[H _] | [[H _] | [_ H]]];
          [fold h in H; lia..|now rewrite H].
      - exists dy, dx, 1. split; [exact Hd|]. split; [lia|]. split; [lia|].
        unfold ray. split; [|split].
        + intros k Hk. assert (k = 1) as -> by lia.
          replace (r0 + 1 * dy) with (r0 + dy) by lia.
          replace (c0 + 1 * dx) with (c0 + dx) by lia.
          split; [split; simpl; lia|]. exists 2. split; [now apply Hval2|lia].
        + split; simpl; lia.
        + apply Hval. lia. }
    intros Hin. simpl in Hin.
    destruct Hin as [[= <- <-] | [[= <- <-] | [[= <- <-] | [[= <- <-] | []]]]].
    + apply (Hrun _ _ 1 0); unfold unit_dir; lia.
    + apply (Hrun _ _ 0 1); unfold unit_dir; lia.
    + apply (Hrun _ _ 0 (-1)); unfold unit_dir; lia.
    + apply (Hrun _ _ (-1) 0); unfold unit_dir; lia.
Qed.

Lemma othello_opening_moves_witness :
  available_moves othello4 = Ok [(0, 1); (1, 0); (2, 3); (3, 2)].
Proof.
  exact (othello_opening_moves 4 2 othello4 ltac:(vm_compute; reflexivity)).
Defined.

(** ** The number of pieces on the board *)

Lemma count_row_same (l l' : list (option Z)) :
  length l = length l' ->
  (forall k c c', l !! k = Some c -> l' !! k = Some c' -> is_None c = is_None c') ->
  length (List.filter (fun c => negb (is_None c)) l)
  = length (List.filter (fun c => negb (is_None c)) l').
Proof.
  revert l'. induction l as [|c l IH]; intros [|c' l'] Hlen Hsame; simpl in *;
    try congruence.
  rewrite (Hsame 0%nat c c' eq_refl eq_refl).
  specialize (IH l' ltac:(lia) (fun k => Hsame (S k))).
  destruct (negb (is_None c')); simpl; lia.
Qed.

Lemma count_row_more (l l' : list (option Z)) (k0 : nat) (v : Z) :
  length l = length l' ->
  l !! k0 = Some None -> l' !! k0 = Some (Some v) ->
  (forall k c c', k <> k0 -> l !! k = Some c -> l' !! k = Some c' ->
     is_None c = is_None c') ->
  length (List.filter (fun c => negb (is_None c)) l')
  = S (length (List.filter (fun c => negb (is_None c)) l)).
Proof.
  revert l' k0. induction l as [|c l IH]; intros [|c' l'] k0 Hlen H0 H0' Hsame;
    simpl in *; try congruence; try discriminate.
  destruct k0 as [|k0]; simpl in *.
  - injection H0 as ->. injection H0' as ->. simpl. f_equal. symmetry.
    apply count_row_same; [lia|]. intros k c1 c1'. apply (Hsame (S k)). lia.
  - rewrite (Hsame 0%nat c c' ltac:(lia) eq_refl eq_refl).
    assert (H : length (List.filter (fun c => negb (is_None c)) l')
                = S (length (List.filter (fun c => negb (is_None c)) l))).
    { apply (IH l' k0); [lia|assumption..|].
      intros k c1 c1' Hk. apply (Hsame (S k)). lia. }
    destruct (negb (is_None c')); simpl; lia.
Qed.

Lemma count_grid_same (g g' : BoardGridType) :
  length g = length g' ->
  (forall i r r', g !! i = Some r -> g' !! i = Some r' ->
     length r = length r' /\
     forall j c c', r !! j = Some c -> r' !! j = Some c' -> is_None c = is_None c') ->
  pieces g = pieces g'.
Proof.
  unfold pieces, len. revert g'.
  induction g as [|r g IH]; intros [|r' g'] Hlen Hsame; simpl in *; try congruence.
  rewrite !List.filter_app, !List.length_app.
  destruct (Hsame 0%nat r r' eq_refl eq_refl) as [Hl Hr].
  rewrite (count_row_same r r' Hl Hr).
  specialize (IH g' ltac:(lia) (fun i => Hsame (S i))). lia.
Qed.

Lemma count_grid_more (g g' : BoardGridType) (i0 j0 : nat) (r0 r0' : list (option Z))
    (v : Z) :
  length g = length g' ->
  g !! i0 = Some r0 -> g' !! i0 = Some r0' ->
  r0 !! j0 = Some None -> r0' !! j0 = Some (Some v) ->
  (forall i r r', g !! i = Some r -> g' !! i = Some r' ->
     length r = length r' /\
     forall j c c', (i, j) <> (i0, j0) -> r !! j = Some c -> r' !! j = Some c' ->
       is_None c = is_None c') ->
  pieces g' = pieces g + 1.
Proof.
  unfold pieces, len. revert g' i0.
  induction g as [|r g IH]; intros [|r' g'] i0 Hlen Hr0 Hr0' Hc Hc' Hsame;
    simpl in *; try congruence; try discriminate.
  rewrite !List.filter_app, !List.length_app.
  destruct (Hsame 0%nat r r' eq_refl eq_refl) as [Hl Hr].
  destruct i0 as [|i0]; simpl in *.
  - injection Hr0 as ->. injection Hr0' as ->.
    rewrite (count_row_more r0 r0' j0 v Hl Hc Hc')
      by (intros k c c' Hk; apply Hr; congruence).
    assert (E : pieces g = pieces g').
    { apply count_grid_same; [lia|]. intros i r r' Hi Hi'.
      destruct (Hsame (S i) r r' Hi Hi') as [Hl' Hr']. split; [exact Hl'|].
      intros j c c'. apply Hr'. congruence. }
    unfold pieces, len in E. lia.
  - rewrite (count_row_same r r' Hl) by (intros k c c'; apply Hr; congruence).
    specialize (IH g' i0 ltac:(lia) Hr0 Hr0' Hc Hc').
    assert (H : Z.of_nat (length (List.filter (fun c => negb (is_None c)) (concat g')))
                = Z.of_nat (length (List.filter (fun c => negb (is_None c)) (concat g)))
                  + 1).
    { apply IH. intros i r1 r1' Hi Hi'.
      destruct (Hsame (S i) r1 r1' Hi Hi') as [Hl' Hr']. split; [exact Hl'|].
      intros j c c' Hne. apply Hr'. intros [= -> ->]. now apply Hne. }
    lia.
Qed.

(** A cell of a square grid, by position in the lists. *)
Lemma lookup_cell (n : Z) (g : BoardGridType) (i j : nat)
    (r : list (option Z)) (c : option Z) :
  shape n g -> g !! i = Some r -> r !! j = Some c ->
  on_board n (Z.of_nat i, Z.of_nat j) /\ cell_at g (Z.of_nat i, Z.of_nat j) = Ok c.
Proof.
  intros [Hlen Hrows] Hi Hj.
  assert (Hr : len r = n).
  { apply Hrows, list_elem_of_In. eapply list_elem_of_lookup_2; eassumption. }
  apply lookup_lt_Some in Hi as Hi'. apply lookup_lt_Some in Hj as Hj'.
  unfold len in *. split; [split; simpl; lia|].
  unfold cell_at, grid_get. simpl.
  rewrite (getitem_lookup g (Z.of_nat i) r); [|unfold len; lia|now rewrite Nat2Z.id].
  simpl. apply getitem_lookup; [unfold len; lia|now rewrite Nat2Z.id].
Qed.

(** Two square grids that are empty at the same cells hold the same
    number of pieces; one more piece where one cell more is filled. *)
Lemma pieces_cells_same (n : Z) (g g' : BoardGridType) :
  shape n g -> shape n g' ->
  (forall q c c', on_board n q ->
     cell_at g q = Ok c -> cell_at g' q = Ok c' -> is_None c = is_None c') ->
  pieces g = pieces g'.
Proof.
  intros Hg Hg' Hsame. pose proof Hg as [Hlen _]. pose proof Hg' as [Hlen' _].
  apply count_grid_same; [unfold len in *; lia|].
  intros i r r' Hi Hi'. split.
  - assert (len r = n) by (apply Hg, list_elem_of_In; eapply list_elem_of_lookup_2; eassumption).
    assert (len r' = n) by (apply Hg', list_elem_of_In; eapply list_elem_of_lookup_2; eassumption).
    unfold len in *. lia.
  - intros j c c' Hj Hj'.
    destruct (lookup_cell n _ i j r c Hg Hi Hj) as [Hq Hc].
    destruct (lookup_cell n _ i j r' c' Hg' Hi' Hj') as [_ Hc'].
    exact (Hsame _ c c' Hq Hc Hc').
Qed.

Lemma pieces_cells_more (n : Z) (g g' : BoardGridType) (p : Position) (v : Z) :
  shape n g -> shape n g' -> on_board n p ->
  cell_at g p = Ok None -> cell_at g' p = Ok (Some v) ->
  (forall q c c', on_board n q -> q <> p ->
     cell_at g q = Ok c -> cell_at g' q = Ok c' -> is_None c = is_None c') ->
  pieces g' = pieces g + 1.
Proof.
  intros Hg Hg' Hon Hnone Hsome Hsame.
  pose proof Hg as [Hlen _]. pose proof Hg' as [Hlen' _].
  destruct p as [i0 j0]. pose proof Hon as [Hi0 Hj0]. simpl in Hi0, Hj0.
  destruct (shape_row n g i0 Hg Hi0) as (r0 & Er0 & El0 & Hr0).
  destruct (shape_row n g' i0 Hg' Hi0) as (r0' & Er0' & El0' & Hr0').
  destruct (getitem_ok r0 j0) as (c0 & Ec0 & Elc0); [lia|].
  destruct (getitem_ok r0' j0) as (c0' & Ec0' & Elc0'); [lia|].
  assert (c0 = None) as ->.
  { unfold cell_at, grid_get in Hnone. simpl in Hnone. rewrite Er0 in Hnone.
    simpl in Hnone. congruence. }
  assert (c0' = Some v) as ->.
  { unfold cell_at, grid_get in Hsome. simpl in Hsome. rewrite Er0' in Hsome.
    simpl in Hsome. congruence. }
  apply (count_grid_more _ _ (Z.to_nat i0) (Z.to_nat j0) r0 r0' v); try assumption.
  - unfold len in *. lia.
  - intros i r r' Hi Hi'. split.
    + assert (len r = n) by (apply Hg, list_elem_of_In; eapply list_elem_of_lookup_2; eassumption).
      assert (len r' = n) by (apply Hg', list_elem_of_In; eapply list_elem_of_lookup_2; eassumption).
      unfold len in *. lia.
    + intros j c c' Hne Hj Hj'.
      destruct (lookup_cell n _ i j r c Hg Hi Hj) as [Hq Hc].
      destruct (lookup_cell n _ i j r' c' Hg' Hi' Hj') as [_ Hc'].
      apply (Hsame _ c c' Hq); [|exact Hc|exact Hc'].
      intros [= H1 H2]. apply Hne. f_equal; lia.
Qed.

(** [apply_move] adds a piece where the cell of the move was empty and
    removes none. *)
Lemma apply_move_pieces (self self' : Reversi) (pos : Position) :
  wf self -> synced (_side self) self ->
  apply_move self pos = Ok self' ->
  (cell_at (_grid self) pos = Ok None ->
   pieces (_grid self') = pieces (_grid self) + 1) /\
  (cell_at (_grid self) pos <> Ok None ->
   pieces (_grid self') = pieces (_grid self)).
Proof.
  intros Hwf Hsy E. pose proof (apply_move_on_board _ _ _ E) as Hon.
  destruct (apply_move_ok self pos Hwf Hon)
    as (s2 & s' & E' & Ect & Hwf2 & Hwf' & Es2 & _).
  rewrite E in E'. injection E' as <-.
  destruct (change_turn_wf _ _ Hwf2 Ect) as [_ Eg'].
  assert (Es : _side self' = _side self) by (rewrite Eg'; simpl; exact Es2).
  destruct (apply_move_board self self' pos Hwf Hsy E) as [_ Hboard].
  pose proof (wf_grid _ Hwf) as Hg. pose proof (wf_grid _ Hwf') as Hg'.
  rewrite Es in Hg'. set (n := _side self) in *.
  (* away from the move, a cell is empty after the call exactly when it was *)
  assert (Hkeep : forall q c c', on_board n q -> q <> pos ->
            cell_at (_grid self) q = Ok c -> cell_at (_grid self') q = Ok c' ->
            is_None c = is_None c').
  { intros q c c' Hq Hne Hc Hc'. destruct (Hboard q Hq) as (Hdisj & _ & Hno).
    destruct c as [v|].
    - destruct Hdisj as [Esame | Enew]; [rewrite Esame, Hc in Hc'|rewrite Enew in Hc'];
        injection Hc' as <-; reflexivity.
    - rewrite Hno, Hc in Hc'; [injection Hc' as <-; reflexivity|].
      intros [[Heq _] | [_ (dy & dx & _ & (k & m & v & _ & _ & Hv & _))]];
        [contradiction|congruence]. }
  destruct (Hboard pos Hon) as (Hdisj & Hyes & _).
  split.
  - intros Hnone.
    apply (pieces_cells_more n _ _ pos (_turn self) Hg Hg' Hon Hnone); [|exact Hkeep].
    apply Hyes. left. split; [reflexivity|exact Hnone].
  - intros Hsome. symmetry. apply (pieces_cells_same n _ _ Hg Hg').
    intros q c c' Hq Hc Hc'.
    destruct (decide (q = pos)) as [-> | Hne]; [|exact (Hkeep q c c' Hq Hne Hc Hc')].
    destruct c as [v|]; [|contradiction].
    destruct Hdisj as [Esame | Enew]; [rewrite Esame, Hc in Hc'|rewrite Enew in Hc'];
      injection Hc' as <-; reflexivity.
Qed.

(** X26. On a well-formed state whose two boards agree, [apply_move]
    on a position of the board adds exactly one piece to [_grid] when
    the cell of the move was empty (as it is for every legal move), and
    none when it was not: pieces are taken over, never removed. *)
Theorem apply_move_adds_one_piece (self self' : Reversi) (pos : Position) :
  wf self -> synced (_side self) self ->
  apply_move self pos = Ok self' ->
  (cell_at (_grid self) pos = Ok None ->
   pieces (_grid self') = pieces (_grid self) + 1) /\
  (cell_at (_grid self) pos <> Ok None ->
   pieces (_grid self') = pieces (_grid self)).
Proof. exact (apply_move_pieces self self' pos). Qed.

Lemma apply_move_adds_one_piece_witness :
  exists s', apply_move othello4 (0, 1) = Ok s' /\ pieces (_grid s') = 5.
Proof.
  eexists. split; [vm_compute; reflexivity|].
  refine (proj1 (apply_move_adds_one_piece othello4 _ (0, 1)
            ltac:(solve_wf) ltac:(solve_synced) ltac:(vm_compute; reflexivity)) _).
  reflexivity.
Defined.

(** ** The move counter counts the pieces *)

Lemma pieces_all_none (g : BoardGridType) :
  (forall r c, In r g -> In c r -> c = None) -> pieces g = 0.
Proof.
  unfold pieces, len. induction g as [|r g IH]; intros Hall; simpl; [reflexivity|].
  rewrite List.filter_app, List.length_app.
  assert (Hr : List.filter (fun c => negb (is_None c)) r = []).
  { assert (Hr : forall c, In c r -> c = None)
      by (intros c Hc; apply (Hall r c); [now left|exact Hc]).
    clear -Hr. induction r as [|c r IH]; simpl; [reflexivity|].
    rewrite (Hr c (or_introl eq_refl)). simpl. apply IH.
    intros c' Hc'. apply Hr. now right. }
  rewrite Hr. simpl. apply IH. intros r' c Hr' Hc. apply (Hall r' c); [now right|exact Hc].
Qed.

Lemma pieces_none (n : Z) (g : BoardGridType) :
  shape n g -> (forall q, on_board n q -> cell_at g q = Ok None) -> pieces g = 0.
Proof.
  intros Hg Hnone. apply pieces_all_none. intros r c Hr Hc.
  apply list_elem_of_In, list_elem_of_lookup in Hr as (i & Hi).
  apply list_elem_of_In, list_elem_of_lookup in Hc as (j & Hj).
  destruct (lookup_cell n g i j r c Hg Hi Hj) as [Hq Hcell].
  rewrite (Hnone _ Hq) in Hcell. congruence.
Qed.

(** Taking a piece off a cell leaves one piece less. *)
Lemma clear_cell (n : Z) (g : BoardGridType) (p : Position) (v : Z) :
  shape n g -> on_board n p -> cell_at g p = Ok (Some v) ->
  exists g0, shape n g0 /\ cell_at g0 p = Ok None /\
    (forall q, on_board n q -> q <> p -> cell_at g0 q = cell_at g q) /\
    pieces g = pieces g0 + 1.
Proof.
  intros Hg Hon Hv. destruct p as [i j]. pose proof Hon as [Hi Hj]. simpl in Hi, Hj.
  destruct (grid_set_ok n g i j None Hg Hi Hj) as (g0 & _ & Hg0 & Hset & Hoth).
  exists g0. split; [exact Hg0|]. split; [exact Hset|].
  assert (Hsame : forall q, on_board n q -> q <> (i, j) -> cell_at g0 q = cell_at g q).
  { intros [a b] [Ha Hb] Hne. simpl in Ha, Hb. now apply Hoth. }
  split; [exact Hsame|].
  apply (pieces_cells_more n g0 g (i, j) v Hg0 Hg Hon Hset Hv).
  intros q c c' Hq Hne Hc Hc'. rewrite (Hsame q Hq Hne) in Hc. congruence.
Qed.

(** The number of pieces of the starting position. *)
Lemma init_pieces (side players : Z) (othello : bool) (g : Reversi) :
  __init__ side players othello = Ok g ->
  pieces (_grid g) = if othello then 4 else 0.
Proof.
  intros E. pose proof (init_ok_valid _ _ _ _ E) as Hv.
  destruct (init_wf_synced _ _ _ _ E) as [Hwf _].
  destruct (init_state _ _ _ _ E) as (Es & Ep & Eo & Et & En & Hcells).
  pose proof (wf_grid _ Hwf) as Hg. rewrite Es in Hg.
  assert (Hcell : forall q, on_board side q ->
            cell_at (_grid g) q = Ok (start_cell side othello q)).
  { intros q Hq. now apply Hcells. }
  destruct othello.
  2:{ apply (pieces_none side); [exact Hg|]. intros q Hq. now rewrite Hcell. }
  destruct Hv as (Hs & Hp & Hps & Hpar & Ho). specialize (Ho eq_refl). subst players.
  pose proof (Z.div_mod side 2 ltac:(lia)) as Hdm.
  change (2 mod 2) with 0 in Hpar.
  set (h := side / 2) in *.
  assert (Hon : forall a b, h - 1 <= a <= h -> h - 1 <= b <= h -> on_board side (a, b)).
  { intros a b Ha Hb. split; simpl; lia. }
  assert (Hst : forall a b, h - 1 <= a <= h -> h - 1 <= b <= h ->
            exists v, cell_at (_grid g) (a, b) = Ok (Some v)).
  { intros a b Ha Hb. rewrite Hcell by (now apply Hon).
    destruct (start_cell_cases side a b) as [[_ ->] | [[_ ->] | [H _]]];
      [eauto|eauto|fold h in H; lia]. }
  destruct (Hst (h - 1) h) as (v1 & Hv1); [lia|lia|].
  destruct (clear_cell side _ _ v1 Hg (Hon (h - 1) h ltac:(lia) ltac:(lia)) Hv1)
    as (g3 & Hg3 & Hn3 & Hs3 & Hp3).
  destruct (Hst h (h - 1)) as (v2 & Hv2); [lia|lia|].
  rewrite <- Hs3 in Hv2 by (try (apply Hon; lia); intros [= ]; lia).
  destruct (clear_cell side _ _ v2 Hg3 (Hon h (h - 1) ltac:(lia) ltac:(lia)) Hv2)
    as (g2 & Hg2 & Hn2 & Hs2 & Hp2).
  destruct (Hst (h - 1) (h - 1)) as (v3 & Hv3); [lia|lia|].
  rewrite <- Hs3 in Hv3 by (try (apply Hon; lia); intros [= ]; lia).
  rewrite <- Hs2 in Hv3 by (try (apply Hon; lia); intros [= ]; lia).
  destruct (clear_cell side _ _ v3 Hg2 (Hon (h - 1) (h - 1) ltac:(lia) ltac:(lia)) Hv3)
    as (g1 & Hg1 & Hn1 & Hs1 & Hp1).
  destruct (Hst h h) as (v4 & Hv4); [lia|lia|].
  rewrite <- Hs3 in Hv4 by (try (apply Hon; lia); intros [= ]; lia).
  rewrite <- Hs2 in Hv4 by (try (apply Hon; lia); intros [= ]; lia).
  rewrite <- Hs1 in Hv4 by (try (apply Hon; lia); intros [= ]; lia).
  destruct (clear_cell side _ _ v4 Hg1 (Hon h h ltac:(lia) ltac:(lia)) Hv4)
    as (g0 & Hg0 & Hn0 & Hs0 & Hp0).
  assert (H0 : pieces g0 = 0); [|lia].
  apply (pieces_none side); [exact Hg0|]. intros [a b] Hq.
  destruct (decide ((a, b) = (h, h))) as [-> | N4]; [exact Hn0|].
  rewrite Hs0 by assumption.
  destruct (decide ((a, b) = (h - 1, h - 1))) as [-> | N3]; [exact Hn1|].
  rewrite Hs1 by assumption.
  destruct (decide ((a, b) = (h, h - 1))) as [-> | N2]; [exact Hn2|].
  rewrite Hs2 by assumption.
  destruct (decide ((a, b) = (h - 1, h))) as [-> | N1]; [exact Hn3|].
  rewrite Hs3 by assumption. rewrite Hcell by exact Hq.
  destruct (start_cell_cases side a b) as [[H _] | [[H _] | [_ ->]]];
    [exfalso; fold h in H..|reflexivity].
  - destruct H as [[-> ->] | [-> ->]]; [now apply N1|now apply N2].
  - destruct H as [[-> ->] | [-> ->]]; [now apply N3|now apply N4].
Qed.

Lemma pieces_le (n : Z) (g : BoardGridType) :
  shape n g -> pieces g <= n * n.
Proof.
  intros [Hlen Hrows]. rewrite <- Hlen at 1. clear Hlen. unfold pieces, len in *.
  induction g as [|r g IH]; simpl; [lia|].
  rewrite List.filter_app, List.length_app.
  pose proof (List.filter_length_le (fun c => negb (is_None c)) r) as Hr.
  pose proof (Hrows r (or_introl eq_refl)) as Hn.
  specialize (IH (fun r' Hr' => Hrows r' (or_intror Hr'))). nia.
Qed.

(** X27. In every state reached from the constructor by legal moves
    the move counter is the number of pieces put on the board: the
    grid holds [_num_moves] pieces, and four more in the othello
    variant.  So no game has more than side * side legal moves. *)
Theorem move_counter_counts_the_pieces (g : Reversi) :
  played_legally g ->
  pieces (_grid g) = _num_moves g + (if _othello g then 4 else 0) /\
  _num_moves g <= _side g * _side g.
Proof.
  intros H.
  assert (G : played g /\
              pieces (_grid g) = _num_moves g + (if _othello g then 4 else 0)).
  { induction H as [side players othello g E|g g' pos Hp [Hpl IH] Hlegal E].
    - split; [eapply played_init; exact E|].
      rewrite (init_pieces _ _ _ _ E).
      destruct (init_state _ _ _ _ E) as (_ & _ & -> & _ & -> & _). lia.
    - split; [eapply played_move; eassumption|].
      destruct (played_inv g Hpl) as (Hwf & Hsy & _).
      pose proof (apply_move_on_board _ _ _ E) as Hon.
      destruct (apply_move_ok g pos Hwf Hon)
        as (s2 & s' & E' & Ect & Hwf2 & _ & _ & _ & Eo2 & _ & En2).
      rewrite E in E'. injection E' as <-.
      destruct (change_turn_wf _ _ Hwf2 Ect) as [_ Eg'].
      assert (Eo : _othello g' = _othello g) by (rewrite Eg'; simpl; exact Eo2).
      assert (En : _num_moves g' = _num_moves g + 1) by (rewrite Eg'; simpl; exact En2).
      assert (Hnone : cell_at (_grid g) pos = Ok None).
      { pose proof (legal_move_candidate g pos Hwf Hlegal) as Hc.
        pose proof (candidate_board_empty g pos Hsy Hc) as Hb.
        destruct Hon as [Hi Hj]. destruct (Hsy _ _ Hi Hj) as (pc & Epc & Eg).
        unfold cell_at in *. rewrite Hb in Epc. injection Epc as <-. exact Eg. }
      rewrite (proj1 (apply_move_pieces g g' pos Hwf Hsy E) Hnone), Eo, En, IH. lia. }
  destruct G as [Hpl Hcount]. split; [exact Hcount|].
  destruct (played_inv g Hpl) as (Hwf & _).
  pose proof (pieces_le _ _ (wf_grid _ Hwf)) as Hle.
  destruct (_othello g); lia.
Qed.

Lemma move_counter_counts_the_pieces_witness :
  pieces (_grid othello4) = 4.
Proof.
  apply (proj1 (move_counter_counts_the_pieces othello4
                  (legally_init 4 2 true othello4 ltac:(vm_compute; reflexivity)))).
Defined.
